(** * golang-boilerplate: logger, settings, response envelope and server lifecycle

    A shallow embedding of the Go sources into Rocq.  Every definition
    names the source function it follows.  Conventions:

    - Go [int], [int64] and [time.Duration] are [Z] with the 64-bit
      wrap-around written out ([wrap64]);
    - Go maps are stdpp [gmap]s; a map or struct reached through a pointer
      lives in an explicit store and is named by its location, so that
      aliasing between a logger and the loggers derived from it is visible;
    - a [nil] pointer, map, func or interface is [None];
    - calls that leave the program (writing to a sink, the standard error
      stream, [os.Exit], hooks, the HTTP listener) are recorded as events. *)

From Stdlib Require Import ZArith Lia Ascii String.
From stdpp Require Import gmap strings list fin_maps sorting.

Open Scope string_scope.

Set Warnings "-clear-no-such-hyp".  (* set_solver clears hypotheses that are already gone *)

(** ** Values shared by the packages *)

(** What an [interface{}] can hold, as far as the code below looks at it.
    [VChan] and [VFunc] stand for the kinds [encoding/json] refuses. *)
Inductive value :=
| VNil
| VBool (b : bool)
| VInt (z : Z)
| VStr (s : string)
| VChan (id : nat)
| VFunc (id : nat).

(** A JSON scalar, the image of a [value] under [json.Marshal]. *)
Inductive jval :=
| JNull
| JBool (b : bool)
| JNum (z : Z)
| JStr (s : string).

(** [json.Marshal] on one value: channels and functions give an
    [UnsupportedTypeError]. *)
Definition marshal_value (v : value) : option jval :=
  match v with
  | VNil => Some JNull
  | VBool b => Some (JBool b)
  | VInt z => Some (JNum z)
  | VStr s => Some (JStr s)
  | VChan _ | VFunc _ => None
  end.

(** [json.Marshal] on a [map[string]interface{}]: fails as soon as one
    value is refused. *)
Definition marshal_map (m : gmap string value) : option (gmap string jval) :=
  if decide (map_Forall (λ _ v, is_Some (marshal_value v)) m)
  then Some (omap marshal_value m)
  else None.

(** Go's [int64] arithmetic: results are taken modulo 2^64 into
    [-2^63, 2^63). *)
Definition wrap64 (z : Z) : Z :=
  (z + 2 ^ 63) mod 2 ^ 64 - 2 ^ 63.

(** ** The log levels (both logger variants declare the same) *)

Definition LogLevel := string.

Definition LevelDebug : LogLevel := "DEBUG".
Definition LevelInfo : LogLevel := "INFO".
Definition LevelWarn : LogLevel := "WARN".
Definition LevelError : LogLevel := "ERROR".
Definition LevelFatal : LogLevel := "FATAL".

(** The table built inside [shouldLog]. *)
Definition levels : gmap string Z :=
  <[LevelDebug := 0%Z]> (<[LevelInfo := 1%Z]> (<[LevelWarn := 2%Z]>
  (<[LevelError := 3%Z]> (<[LevelFatal := 4%Z]> ∅)))).

(** [levels[level]]: a Go map read gives the zero value for a missing key. *)
Definition rank (level : LogLevel) : Z := default 0%Z (levels !! level).

(** The sinks a logger writes to. *)
Inductive Writer :=
| Stdout
| File (path : string).

#[global] Instance Writer_eq_dec : EqDecision Writer.
Proof. solve_decision. Defined.

(** One JSON line as it reaches a sink; a field left out by [omitempty]
    is [None].  [l_trace_id] exists only in the variant that keeps a trace
    id in the logger. *)
Record LogLine := {
  l_timestamp : string;
  l_level : LogLevel;
  l_message : string;
  l_context : option (gmap string jval);
  l_trace_id : option string;
  l_service : option string
}.

(** What a logging call does to the outside. *)
Inductive event :=
| EvWrite (w : Writer) (line : LogLine)
| EvStderr (msg : string)
| EvExit (code : Z).

(** [omitempty] on a string field. *)
Definition omit_empty (s : string) : option string :=
  if decide (s = "") then None else Some s.

(** The loop over [l.writers]: one [Write] per sink, in order; a failed
    write is reported on the standard error stream and the loop goes on. *)
Fixpoint write_all (write_err : Writer → option string)
    (ws : list Writer) (line : LogLine) : list event :=
  match ws with
  | [] => []
  | w :: ws' =>
      EvWrite w line ::
      match write_err w with
      | Some e => EvStderr ("Failed to write log: " ++ e) :: write_all write_err ws' line
      | None => write_all write_err ws' line
      end
  end.

(** The sinks written to by a run, in order, and the lines they got. *)
Definition sink_writes (evs : list event) : list Writer :=
  omap (λ e, match e with EvWrite w _ => Some w | _ => None end) evs.

Definition written_lines (evs : list event) : list LogLine :=
  omap (λ e, match e with EvWrite _ ln => Some ln | _ => None end) evs.

(** Whether a run called [os.Exit]. *)
Definition is_exit (e : event) : bool :=
  match e with EvExit _ => true | _ => false end.

Definition exits (evs : list event) : bool := existsb is_exit evs.

(** The loop of [Close] over [l.writers] (both logger variants).  Every
    sink is an [*os.File] and so an [io.Closer]; the loop returns at the
    first [Close] that fails.  The result lists the sinks [Close] was
    called on, in order, and the error [Close] returns. *)
Fixpoint close_all (close_err : Writer → option string) (ws : list Writer)
    : list Writer * option string :=
  match ws with
  | [] => ([], None)
  | w :: ws' =>
      match close_err w with
      | Some e => ([w], Some ("failed to close writer: " ++ e))
      | None => let '(cl, r) := close_all close_err ws' in (w :: cl, r)
      end
  end.

(** ** pkg/logger/logger.go: the logger that reads trace and request ids
    from the call's [context.Context] *)

Module LoggerCtx.

(** The keys of type [ctxKey]. *)
Definition TraceIDKey : string := "trace_id".
Definition RequestIDKey : string := "request_id".

(** A [context.Context] as the logger sees it: the values stored under
    keys of type [ctxKey].  [None] is the nil context, which [log]
    replaces by [context.TODO()], a context without values. *)
Definition Context := option (gmap string value).

Record LogEntry := {
  Timestamp : string;
  Level : LogLevel;
  Message : string;
  Context_ : gmap string value;
  Service : string
}.

Record JSONLogger := {
  writers : list Writer;
  service : string;
  minLevel : LogLevel
}.

(** [shouldLog]: [levels[level] >= levels[l.minLevel]]. *)
Definition shouldLog (l : JSONLogger) (level : LogLevel) : bool :=
  bool_decide (rank (minLevel l) ≤ rank level)%Z.

(** [json.Marshal(entry)] with the struct tags of [LogEntry]. *)
Definition json_Marshal (e : LogEntry) : option LogLine :=
  match marshal_map (Context_ e) with
  | None => None
  | Some c =>
      Some {| l_timestamp := Timestamp e;
              l_level := Level e;
              l_message := Message e;
              l_context := if decide (Context_ e = ∅) then None else Some c;
              l_trace_id := None;
              l_service := omit_empty (Service e) |}
  end.

(** [v, ok := ctx.Value(key).(string)]. *)
Definition ctx_string (ctx : gmap string value) (key : string) : option string :=
  match ctx !! key with
  | Some (VStr s) => Some s
  | _ => None
  end.

(** The two guarded assignments into [contextFields]. *)
Definition put_id (key field : string) (ctx : gmap string value)
    (fields : gmap string value) : gmap string value :=
  match ctx_string ctx key with
  | Some s => if decide (s = "") then fields else <[field := VStr s]> fields
  | None => fields
  end.

Definition context_fields (ctx : gmap string value) : gmap string value :=
  put_id RequestIDKey "request_id" ctx (put_id TraceIDKey "trace_id" ctx ∅).

Section Calls.
(** The surroundings of a call: [fmt.Sprintf], the result of [Write] on
    each sink ([Some e] is a failed write), and the clock reading
    [time.Now().UTC().Format(time.RFC3339)]. *)
Variable Sprintf : string → list value → string.
Variable write_err : Writer → option string.
Variable now : string.

(** [JSONLogger.log]. *)
Definition log (l : JSONLogger) (ctx : Context) (level : LogLevel)
    (msg : string) (args : list value) : list event :=
  if negb (shouldLog l level) then []
  else
    let msg := if bool_decide (0 < length args) then Sprintf msg args else msg in
    let ctx := default ∅ ctx in
    let entry := {| Timestamp := now; Level := level; Message := msg;
                    Context_ := context_fields ctx; Service := service l |} in
    match json_Marshal entry with
    | None => [EvStderr "Failed to marshal log entry"]
    | Some line =>
        write_all write_err (writers l) line ++
        (if decide (level = LevelFatal) then [EvExit 1] else [])
    end.

Definition Info l ctx msg args := log l ctx LevelInfo msg args.
Definition Error l ctx msg args := log l ctx LevelError msg args.
Definition Warn l ctx msg args := log l ctx LevelWarn msg args.
Definition Debug l ctx msg args := log l ctx LevelDebug msg args.
Definition Fatal l ctx msg args := log l ctx LevelFatal msg args.
End Calls.

(** [for k, v := range payload { contextFields[k] = v }]. *)
Definition merge_payload (payload contextFields : gmap string value) : gmap string value :=
  foldl (λ acc kv, <[kv.1 := kv.2]> acc) contextFields (map_to_list payload).

(** [JSONLogger.InfoJSON].  Unlike [log] it does not replace a nil
    context: [ctx.Value] on the nil interface is a run-time panic, which
    is the result [None]; nothing has been written by then. *)
Definition InfoJSON (write_err : Writer → option string) (now : string)
    (l : JSONLogger) (ctx : Context) (payload : gmap string value)
    : option (list event) :=
  if negb (shouldLog l LevelInfo) then Some []
  else
    match ctx with
    | None => None
    | Some ctx =>
        let contextFields := merge_payload payload (context_fields ctx) in
        let entry := {| Timestamp := now; Level := LevelInfo; Message := "";
                        Context_ := contextFields; Service := service l |} in
        Some match json_Marshal entry with
             | None => [EvStderr "Failed to marshal log entry"]
             | Some line => write_all write_err (writers l) line
             end
    end.

(** [JSONLogger.Close]. *)
Definition Close (close_err : Writer → option string) (l : JSONLogger)
    : list Writer * option string :=
  close_all close_err (writers l).

(** [Config], [DefaultConfig], [Config.Validate] and [NewJSONLogger];
    [mkdir_err] and [open_err] are what [os.MkdirAll] and [os.OpenFile]
    answer. *)
Record Config := {
  LogFilePath : string;
  ServiceName : string;
  EnableConsole : bool;
  EnableFile : bool;
  MinLevel : LogLevel
}.

Definition DefaultConfig (serviceName : string) : Config :=
  {| LogFilePath := "logs/app.log"; ServiceName := serviceName;
     EnableConsole := true; EnableFile := true; MinLevel := LevelInfo |}.

Definition Validate (c : Config) : option string :=
  if negb (EnableConsole c) && negb (EnableFile c)
  then Some "at least one output (console or file) must be enabled"
  else if EnableFile c && bool_decide (LogFilePath c = "")
  then Some "log file path required when file output is enabled"
  else None.

Definition NewJSONLogger (mkdir_err open_err : option string)
    (config : option Config) : JSONLogger + string :=
  match config with
  | None => inr "Config not found"
  | Some config =>
      match Validate config with
      | Some e => inr ("invalid config: " ++ e)
      | None =>
          let writers0 := if EnableConsole config then [Stdout] else [] in
          let opened :=
            if EnableFile config then
              match mkdir_err with
              | Some e => inr ("failed to create logs directory: " ++ e)
              | None =>
                  match open_err with
                  | Some e => inr ("failed to open log file: " ++ e)
                  | None => inl (writers0 ++ [File (LogFilePath config)])%list
                  end
              end
            else inl writers0 in
          match opened with
          | inr e => inr e
          | inl ws =>
              inl {| writers := ws; service := ServiceName config;
                     minLevel := MinLevel config |}
          end
      end
  end.

(** [NewDefaultLogger]: the result and what is printed on the standard
    error stream. *)
Definition NewDefaultLogger (mkdir_err open_err : option string) (serviceName : string)
    : (JSONLogger + string) * list event :=
  match NewJSONLogger mkdir_err open_err (Some (DefaultConfig serviceName)) with
  | inr e => (inr e, [EvStderr ("Failed to create JSON logger, using simple logger: " ++ e)])
  | inl l => (inl l, [])
  end.

End LoggerCtx.

(** ** unnamed/part_006: the logger that carries its own context fields and
    trace id, and derives child loggers *)

Module LoggerFields.

(** Locations in the store. *)
Abbreviation loc := nat (only parsing).

Record LogEntry := {
  Timestamp : string;
  Level : LogLevel;
  Message : string;
  Context : option loc;
  TraceID : string;
  Service : string
}.

(** The struct behind a [*JSONLogger].  [context] is a Go map, that is a
    reference: [None] is the nil map, [Some p] the map object at [p]. *)
Record JSONLogger := {
  writers : list Writer;
  context : option loc;
  traceID : string;
  service : string;
  minLevel : LogLevel
}.

(** The objects reachable through pointers, and what the program has
    done to the outside so far. *)
Record Store := {
  loggers : gmap loc JSONLogger;
  maps : gmap loc (gmap string value);
  out : list event
}.

Definition set_loggers (f : gmap loc JSONLogger → gmap loc JSONLogger) (s : Store) : Store :=
  {| loggers := f (loggers s); maps := maps s; out := out s |}.
Definition set_maps (f : gmap loc (gmap string value) → gmap loc (gmap string value))
    (s : Store) : Store :=
  {| loggers := loggers s; maps := f (maps s); out := out s |}.
Definition emit (evs : list event) (s : Store) : Store :=
  {| loggers := loggers s; maps := maps s; out := out s ++ evs |}.

(** How a call ends: it returns, it panics, or the process exits. *)
Inductive outcome (A : Type) :=
| Ret (a : A)
| Panicked (msg : string)
| Exited (code : Z).
Arguments Ret {A} a.
Arguments Panicked {A} msg.
Arguments Exited {A} code.

Definition M (A : Type) : Type := Store → outcome A * Store.

#[export] Instance M_ret : MRet M := λ A a s, (Ret a, s).
#[export] Instance M_bind : MBind M := λ A B f c s,
  match c s with
  | (Ret a, s') => f a s'
  | (Panicked msg, s') => (Panicked msg, s')
  | (Exited code, s') => (Exited code, s')
  end.

Definition exit_ {A} (code : Z) : M A := λ s, (Exited code, emit [EvExit code] s).
Definition output (evs : list event) : M unit := λ s, (Ret tt, emit evs s).

Definition nil_deref : string := "invalid memory address or nil pointer dereference".
Definition nil_map_write : string := "assignment to entry in nil map".

(** [*l]: reading the struct a logger pointer refers to. *)
Definition read_logger (l : loc) : M JSONLogger := λ s,
  match loggers s !! l with
  | Some lg => (Ret lg, s)
  | None => (Panicked nil_deref, s)
  end.

(** Reading a map: the nil map reads as the empty map. *)
Definition read_map (c : option loc) : M (gmap string value) := λ s,
  match c with
  | None => (Ret ∅, s)
  | Some p => (Ret (default ∅ (maps s !! p)), s)
  end.

(** [make(map[string]interface{})]: a new, empty map object. *)
Definition make_map : M loc := λ s,
  let p := fresh (dom (maps s)) in
  (Ret p, set_maps (insert p ∅) s).

(** [&JSONLogger{...}]: a new struct. *)
Definition new_logger (lg : JSONLogger) : M loc := λ s,
  let p := fresh (dom (loggers s)) in
  (Ret p, set_loggers (insert p lg) s).

(** [*l = lg]: assigning to a field of the struct at [l]. *)
Definition write_logger (l : loc) (lg : JSONLogger) : M unit := λ s,
  (Ret tt, set_loggers (insert l lg) s).

(** [m[k] = v]: writing to the nil map panics. *)
Definition map_assign (c : option loc) (k : string) (v : value) : M unit := λ s,
  match c with
  | None => (Panicked nil_map_write, s)
  | Some p => (Ret tt, set_maps (alter (insert k v) p) s)
  end.

(** [for k, v := range src { dst[k] = v }], over the entries of [src]. *)
Fixpoint assign_each (dst : option loc) (kvs : list (string * value)) : M unit :=
  match kvs with
  | [] => mret tt
  | (k, v) :: rest => map_assign dst k v ;; assign_each dst rest
  end.

(** [shouldLog]. *)
Definition shouldLog (lg : JSONLogger) (level : LogLevel) : bool :=
  bool_decide (rank (minLevel lg) ≤ rank level)%Z.

(** [copyContext]: nil for a context without fields, else a new map
    holding the same entries. *)
Definition copyContext (l : loc) : M (option loc) :=
  lg ← read_logger l;
  m ← read_map (context lg);
  if decide (size m = 0) then mret None
  else
    copied ← make_map;
    assign_each (Some copied) (map_to_list m);;
    mret (Some copied).

(** [clone]: a new struct with the same writers and a copied context. *)
Definition clone (l : loc) : M loc :=
  lg ← read_logger l;
  c ← copyContext l;
  new_logger {| writers := writers lg; context := c; traceID := traceID lg;
                service := service lg; minLevel := minLevel lg |}.

(** [json.Marshal(entry)], which reads the map [entry.Context] points to. *)
Definition json_Marshal (e : LogEntry) : M (option LogLine) :=
  m ← read_map (Context e);
  mret (match marshal_map m with
        | None => None
        | Some c =>
            Some {| l_timestamp := Timestamp e;
                    l_level := Level e;
                    l_message := Message e;
                    l_context := if decide (size m = 0) then None else Some c;
                    l_trace_id := omit_empty (TraceID e);
                    l_service := omit_empty (Service e) |}
        end).

Section Calls.
Variable Sprintf : string → list value → string.
Variable write_err : Writer → option string.
Variable now : string.

(** [JSONLogger.log]. *)
Definition log (l : loc) (level : LogLevel) (msg : string) (args : list value) : M unit :=
  lg ← read_logger l;
  if negb (shouldLog lg level) then mret tt
  else
    let msg := if bool_decide (0 < length args) then Sprintf msg args else msg in
    c ← copyContext l;
    let entry := {| Timestamp := now; Level := level; Message := msg;
                    Context := c; TraceID := traceID lg; Service := service lg |} in
    line ← json_Marshal entry;
    match line with
    | None => output [EvStderr "Failed to marshal log entry"]
    | Some line =>
        output (write_all write_err (writers lg) line);;
        if decide (level = LevelFatal) then exit_ 1 else mret tt
    end.

Definition Info l msg args := log l LevelInfo msg args.
Definition Error l msg args := log l LevelError msg args.
Definition Warn l msg args := log l LevelWarn msg args.
Definition Debug l msg args := log l LevelDebug msg args.
Definition Fatal l msg args := log l LevelFatal msg args.
End Calls.

(** [WithContext]. *)
Definition WithContext (l : loc) (fields : gmap string value) : M loc :=
  newLogger ← clone l;
  nl ← read_logger newLogger;
  assign_each (context nl) (map_to_list fields);;
  mret newLogger.

(** [WithTraceID]. *)
Definition WithTraceID (l : loc) (traceID' : string) : M loc :=
  newLogger ← clone l;
  nl ← read_logger newLogger;
  write_logger newLogger
    {| writers := writers nl; context := context nl; traceID := traceID';
       service := service nl; minLevel := minLevel nl |};;
  mret newLogger.

(** [WithField]. *)
Definition WithField (l : loc) (key : string) (v : value) : M loc :=
  newLogger ← clone l;
  nl ← read_logger newLogger;
  map_assign (context nl) key v;;
  mret newLogger.

(** [Config] and [Config.Validate]. *)
Record Config := {
  LogFilePath : string;
  ServiceName : string;
  EnableConsole : bool;
  EnableFile : bool;
  MinLevel : LogLevel
}.

Definition DefaultConfig (serviceName : string) : Config :=
  {| LogFilePath := "logs/app.log"; ServiceName := serviceName;
     EnableConsole := true; EnableFile := true; MinLevel := LevelInfo |}.

Definition Validate (c : Config) : option string :=
  if negb (EnableConsole c) && negb (EnableFile c)
  then Some "at least one output (console or file) must be enabled"
  else if EnableFile c && bool_decide (LogFilePath c = "")
  then Some "log file path required when file output is enabled"
  else None.

(** [NewJSONLogger]; [mkdir_err] and [open_err] are what [os.MkdirAll]
    and [os.OpenFile] answer.  The result is the new logger or the
    error message. *)
Definition NewJSONLogger (mkdir_err open_err : option string)
    (config : option Config) : M (loc + string) :=
  match config with
  | None => mret (inr "Config not found")
  | Some config =>
      match Validate config with
      | Some e => mret (inr ("invalid config: " ++ e))
      | None =>
          let writers0 := if EnableConsole config then [Stdout] else [] in
          let opened :=
            if EnableFile config then
              match mkdir_err with
              | Some e => inr ("failed to create logs directory: " ++ e)
              | None =>
                  match open_err with
                  | Some e => inr ("failed to open log file: " ++ e)
                  | None => inl (writers0 ++ [File (LogFilePath config)])%list
                  end
              end
            else inl writers0 in
          match opened with
          | inr e => mret (inr e)
          | inl ws =>
              c ← make_map;
              l ← new_logger {| writers := ws; context := Some c; traceID := "";
                                service := ServiceName config;
                                minLevel := MinLevel config |};
              mret (inl l)
          end
      end
  end.

Definition empty_store : Store := {| loggers := ∅; maps := ∅; out := [] |}.

(** The fields a logger carries, read through its pointers. *)
Definition fields_of (s : Store) (l : loc) : gmap string value :=
  match loggers s !! l with
  | Some lg =>
      match context lg with
      | Some p => default ∅ (maps s !! p)
      | None => ∅
      end
  | None => ∅
  end.

(** The fields written by a loop of assignments, starting from [m]. *)
Definition fill (kvs : list (string * value)) (m : gmap string value) : gmap string value :=
  foldl (λ acc kv, <[kv.1 := kv.2]> acc) m kvs.

(** A logger pointer that can be used: it refers to a struct, and the
    context of that struct, unless nil, refers to a map. *)
Definition usable (s : Store) (l : loc) : Prop :=
  ∃ lg, loggers s !! l = Some lg ∧ ∀ p, context lg = Some p → is_Some (maps s !! p).

(** The three ways to derive a child logger. *)
Inductive derivation :=
| ByContext (fields : gmap string value)
| ByField (key : string) (v : value)
| ByTraceID (traceID' : string).

Definition derive (d : derivation) (l : loc) : M loc :=
  match d with
  | ByContext fields => WithContext l fields
  | ByField key v => WithField l key v
  | ByTraceID t => WithTraceID l t
  end.

(** The fields a derivation adds. *)
Definition added (d : derivation) : gmap string value :=
  match d with
  | ByContext fields => fields
  | ByField key v => {[key := v]}
  | ByTraceID _ => ∅
  end.

(** The struct of a child of [lg] with the context reference [c] and
    the trace id [t]. *)
Definition child_struct (lg : JSONLogger) (c : option loc) (t : string) : JSONLogger :=
  {| writers := writers lg; context := c; traceID := t;
     service := service lg; minLevel := minLevel lg |}.

(** The trace id of the child a derivation makes. *)
Definition trace_after (d : derivation) (lg : JSONLogger) : string :=
  match d with
  | ByTraceID t => t
  | _ => traceID lg
  end.

(** The line [log] serialises, from the logger's struct and fields. *)
Definition line_of (lg : JSONLogger) (fields : gmap string value)
    (now : string) (level : LogLevel) (msg : string) : option LogLine :=
  match marshal_map fields with
  | None => None
  | Some c =>
      Some {| l_timestamp := now; l_level := level; l_message := msg;
              l_context := if decide (size fields = 0) then None else Some c;
              l_trace_id := omit_empty (traceID lg);
              l_service := omit_empty (service lg) |}
  end.

(** What a call of [log] writes and how it ends, from the logger's
    struct and fields. *)
Definition log_events (write_err : Writer → option string) (lg : JSONLogger)
    (fields : gmap string value) (now : string) (level : LogLevel) (msg : string)
    : list event :=
  if negb (shouldLog lg level) then []
  else
    match line_of lg fields now level msg with
    | None => [EvStderr "Failed to marshal log entry"]
    | Some line =>
        (write_all write_err (writers lg) line ++
         (if decide (level = LevelFatal) then [EvExit 1] else []))%list
    end.

Definition log_result (lg : JSONLogger) (fields : gmap string value)
    (now : string) (level : LogLevel) (msg : string) : outcome unit :=
  if negb (shouldLog lg level) then Ret tt
  else
    match line_of lg fields now level msg with
    | None => Ret tt
    | Some _ => if decide (level = LevelFatal) then Exited 1 else Ret tt
    end.

(** A store with one logger, which carries the field user=ann. *)
Definition sample_store : Store :=
  {| loggers := {[0 := {| writers := [Stdout; File "logs/app.log"]; context := Some 0;
                          traceID := ""; service := "svc"; minLevel := LevelInfo |}]};
     maps := {[0 := {["user" := VStr "ann"]}]};
     out := [] |}.

(** [JSONLogger.InfoJSON]: the payload is laid over a copy of the
    logger's fields, or over a new map when the logger has none. *)
Definition InfoJSON (write_err : Writer → option string) (now : string)
    (l : loc) (payload : gmap string value) : M unit :=
  lg ← read_logger l;
  if negb (shouldLog lg LevelInfo) then mret tt
  else
    c ← copyContext l;
    c ← match c with
        | Some p => mret p
        | None => make_map
        end;
    assign_each (Some c) (map_to_list payload);;
    let entry := {| Timestamp := now; Level := LevelInfo; Message := "";
                    Context := Some c; TraceID := traceID lg; Service := service lg |} in
    line ← json_Marshal entry;
    match line with
    | None => output [EvStderr "Failed to marshal log entry"]
    | Some line => output (write_all write_err (writers lg) line)
    end.

(** [JSONLogger.Close]: the sinks closed, in order, and the error. *)
Definition Close (close_err : Writer → option string) (l : loc)
    : M (list Writer * option string) :=
  lg ← read_logger l;
  mret (close_all close_err (writers lg)).

(** [NewDefaultLogger]. *)
Definition NewDefaultLogger (mkdir_err open_err : option string) (serviceName : string)
    : M (loc + string) :=
  r ← NewJSONLogger mkdir_err open_err (Some (DefaultConfig serviceName));
  match r with
  | inr e =>
      output [EvStderr ("Failed to create JSON logger, using simple logger: " ++ e)];;
      mret (inr e)
  | inl l => mret (inl l)
  end.

(** A call of the package's exported functions and methods from outside
    the package. *)
Inductive api_call :=
| CallNewJSONLogger (mkdir_err open_err : option string) (config : option Config)
| CallNewDefaultLogger (mkdir_err open_err : option string) (serviceName : string)
| CallDerive (d : derivation) (l : loc)
| CallLog (Sprintf : string → list value → string) (write_err : Writer → option string)
    (now : string) (l : loc) (level : LogLevel) (msg : string) (args : list value)
| CallInfoJSON (write_err : Writer → option string) (now : string) (l : loc)
    (payload : gmap string value)
| CallClose (close_err : Writer → option string) (l : loc).

(** The store after a call, however the call ends. *)
Definition store_after (a : api_call) (s : Store) : Store :=
  match a with
  | CallNewJSONLogger mkdir_err open_err config =>
      snd (NewJSONLogger mkdir_err open_err config s)
  | CallNewDefaultLogger mkdir_err open_err serviceName =>
      snd (NewDefaultLogger mkdir_err open_err serviceName s)
  | CallDerive d l => snd (derive d l s)
  | CallLog Sprintf write_err now l level msg args =>
      snd (log Sprintf write_err now l level msg args s)
  | CallInfoJSON write_err now l payload => snd (InfoJSON write_err now l payload s)
  | CallClose close_err l => snd (Close close_err l s)
  end.

(** The store after a sequence of calls, starting with no logger. *)
Definition after (calls : list api_call) : Store :=
  foldl (λ s a, store_after a s) empty_store calls.

(** No logger of the store carries a field, and every logger can be
    used. *)
Definition fieldless (s : Store) : Prop :=
  ∀ l lg, loggers s !! l = Some lg → usable s l ∧ fields_of s l = ∅.

End LoggerFields.

(** ** pkg/env/env.go and unnamed/part_004: the settings read from the
    environment *)

Module EnvVars.

(** *** [strconv.Atoi], as the Go library defines it on a 64-bit target *)

Inductive NumError :=
| ErrSyntax
| ErrRange.

Definition maxUint64 : Z := 2 ^ 64 - 1.

(** [ch - '0'], for a byte that is a decimal digit. *)
Definition digit_of (c : ascii) : option Z :=
  let n := Z.of_nat (nat_of_ascii c) in
  if bool_decide (48 ≤ n ≤ 57)%Z then Some (n - 48)%Z else None.

(** The digit loop of [ParseUint(s, 10, 64)]: a byte that is no digit is
    a syntax error, a value beyond 64 bits a range error, reported as soon
    as it is seen. *)
Fixpoint parse_uint (s : string) (n : Z) : Z + NumError :=
  match s with
  | EmptyString => inl n
  | String c rest =>
      match digit_of c with
      | None => inr ErrSyntax
      | Some d =>
          if bool_decide (maxUint64 `div` 10 + 1 ≤ n)%Z then inr ErrRange
          else
            let n1 := (n * 10 + d)%Z in
            if bool_decide (maxUint64 < n1)%Z then inr ErrRange
            else parse_uint rest n1
      end
  end.

Definition ParseUint (s : string) : Z + NumError :=
  match s with
  | EmptyString => inr ErrSyntax
  | _ => parse_uint s 0
  end.

(** [ParseInt(s, 10, 0)]: an optional sign, then [ParseUint], then the
    check against the 64-bit signed range. *)
Definition ParseInt (s : string) : Z + NumError :=
  match s with
  | EmptyString => inr ErrSyntax
  | String c rest =>
      let neg := bool_decide (c = "-"%char) in
      let s' := if bool_decide (c = "+"%char) || neg then rest else s in
      match ParseUint s' with
      | inr ErrSyntax => inr ErrSyntax
      | inr ErrRange => inr ErrRange
      | inl un =>
          if negb neg && bool_decide (2 ^ 63 ≤ un)%Z then inr ErrRange
          else if neg && bool_decide (2 ^ 63 < un)%Z then inr ErrRange
          else inl (if neg then - un else un)%Z
      end
  end.

(** [Atoi] is [ParseInt(s, 10, 0)]; its fast path for short strings
    computes the same result. *)
Definition Atoi (s : string) : Z + NumError := ParseInt s.

(** *** unnamed/part_004 *)

(** [time.Millisecond], in nanoseconds. *)
Definition Millisecond : Z := 1000000.

(** [parseMsDuration]: [inl None] is [(nil, nil)], [inl (Some d)] is
    [(&d, nil)], [inr e] is [(nil, e)].  The product is an [int64]
    product. *)
Definition parseMsDuration (val : string) : option Z + NumError :=
  if decide (val = "") then inl None
  else
    match Atoi val with
    | inr e => inr e
    | inl ms => inl (Some (wrap64 (ms * Millisecond)))
    end.

(** The process environment.  [os.Getenv] gives the empty string for a
    variable that is not set. *)
Definition Getenv (e : gmap string string) (key : string) : string :=
  default "" (e !! key).

(** [GetEnvOrDefault] (pkg/env/env.go). *)
Definition GetEnvOrDefault (e : gmap string string) (key defaultValue : string) : string :=
  let v := Getenv e key in
  if decide (v ≠ "") then v else defaultValue.

(** What [godotenv.Load()] finds: no readable, well-formed [.env] file,
    or the variables of the file. *)
Inductive Dotfile :=
| DotError (msg : string)
| DotVars (vars : gmap string string).

(** [LoadENV] (pkg/env/env.go): [godotenv.Load()] sets the variables of
    the file that the environment does not have yet, and reports a file
    it cannot read. *)
Definition LoadENV (f : Dotfile) (e : gmap string string) : option string * gmap string string :=
  match f with
  | DotError msg => (Some msg, e)
  | DotVars vars => (None, e ∪ vars)
  end.

Record Variables := {
  env : string;
  dbURI : string;
  db : string;
  port : string;
  moduleName : string;
  readTimeoutMs : option Z;
  writeTimeoutMs : option Z;
  shutdownTimeoutMs : option Z;
  idleTimeoutMs : option Z;
  readHeaderTimeoutMs : option Z
}.

Inductive LoadError :=
| DotenvFailed (msg : string)
| BadDuration (e : NumError).

(** [LoadENVVariables]. *)
Definition LoadENVVariables (f : Dotfile) (e0 : gmap string string) : Variables + LoadError :=
  match LoadENV f e0 with
  | (Some msg, _) => inr (DotenvFailed msg)
  | (None, e) =>
      match parseMsDuration (GetEnvOrDefault e "READ_TIMEOUT_MS" "") with
      | inr err => inr (BadDuration err)
      | inl readTimeoutMs' =>
      match parseMsDuration (GetEnvOrDefault e "WRITE_TIMEOUT_MS" "") with
      | inr err => inr (BadDuration err)
      | inl writeTimeoutMs' =>
      match parseMsDuration (GetEnvOrDefault e "SHUTDOWN_TIMEOUT_MS" "") with
      | inr err => inr (BadDuration err)
      | inl shutdownTimeoutMs' =>
      match parseMsDuration (GetEnvOrDefault e "IDLE_TIMEOUT_MS" "") with
      | inr err => inr (BadDuration err)
      | inl idleTimeoutMs' =>
      match parseMsDuration (GetEnvOrDefault e "READ_HEADER_TIMEOUT_MS" "") with
      | inr err => inr (BadDuration err)
      | inl readHeaderTimeoutMs' =>
          inl {| env := GetEnvOrDefault e "ENV" "development";
                 dbURI := GetEnvOrDefault e "DB_URI" "";
                 db := GetEnvOrDefault e "DB" "";
                 port := GetEnvOrDefault e "PORT" ":8080";
                 moduleName := GetEnvOrDefault e "MODULE_NAME" "";
                 readTimeoutMs := readTimeoutMs';
                 writeTimeoutMs := writeTimeoutMs';
                 shutdownTimeoutMs := shutdownTimeoutMs';
                 idleTimeoutMs := idleTimeoutMs';
                 readHeaderTimeoutMs := readHeaderTimeoutMs' |}
      end end end end end
  end.

(** The accessors. *)
Definition Env (v : Variables) : string := env v.
Definition DB_URI (v : Variables) : string := dbURI v.
Definition DB (v : Variables) : string := db v.
Definition Port (v : Variables) : string := port v.
Definition MODULE_NAME (v : Variables) : string := moduleName v.
Definition READ_TIMEOUT_MS (v : Variables) : option Z := readTimeoutMs v.
Definition WRITE_TIMEOUT_MS (v : Variables) : option Z := writeTimeoutMs v.
Definition SHUTDOWN_TIMEOUT_MS (v : Variables) : option Z := shutdownTimeoutMs v.
Definition IDLE_TIMEOUT_MS (v : Variables) : option Z := idleTimeoutMs v.
Definition READ_HEADER_TIMEOUT_MS (v : Variables) : option Z := readHeaderTimeoutMs v.

(** *** What the specification's words mean *)

(** The integer a string of decimal digits writes, continuing from [n];
    [None] when a byte is no digit. *)
Fixpoint digits_value (s : string) (n : Z) : option Z :=
  match s with
  | EmptyString => Some n
  | String c rest =>
      match digit_of c with
      | None => None
      | Some d => digits_value rest (n * 10 + d)%Z
      end
  end.

(** A numeric value: a decimal numeral with an optional sign, and the
    integer it denotes, of any size. *)
Definition numeral (s : string) : option Z :=
  match s with
  | EmptyString => None
  | String c rest =>
      if bool_decide (c = "-"%char) then
        match rest with
        | EmptyString => None
        | _ => Z.opp <$> digits_value rest 0
        end
      else if bool_decide (c = "+"%char) then
        match rest with
        | EmptyString => None
        | _ => digits_value rest 0
        end
      else digits_value s 0
  end.

(** The timeout variables. *)
Definition timeout_keys : list string :=
  ["READ_TIMEOUT_MS"; "WRITE_TIMEOUT_MS"; "SHUTDOWN_TIMEOUT_MS";
   "IDLE_TIMEOUT_MS"; "READ_HEADER_TIMEOUT_MS"].

(** The largest number of milliseconds whose nanoseconds fit 64 bits. *)
Definition max_ms : Z := 9223372036854.

(** A timeout value the arithmetic is exact on: empty, or a numeral of
    magnitude at most [max_ms]. *)
Definition exact_ms (s : string) : Prop :=
  s = "" ∨ ∃ v, numeral s = Some v ∧ (- max_ms ≤ v ≤ max_ms)%Z.

(** The duration a seeded timeout value stands for: unset when empty,
    else so many milliseconds, in nanoseconds. *)
Definition seeded_duration (s : string) : option Z :=
  if decide (s = "") then None
  else (λ v, v * Millisecond)%Z <$> numeral s.

(** Reading [key] gives the seeded value when one is set and not empty,
    and [dflt] when the variable is unset or empty. *)
Definition reads_back (e : gmap string string) (key dflt got : string) : Prop :=
  (∀ s, e !! key = Some s → s ≠ "" → got = s) ∧
  ((e !! key = None ∨ e !! key = Some "") → got = dflt).

(** The variables the loader recognises. *)
Definition recognized_keys : list string :=
  ["ENV"; "DB_URI"; "DB"; "PORT"; "MODULE_NAME"] ++ timeout_keys.

(** An environment that sets every recognised variable, the read timeout
    to a number of milliseconds whose nanoseconds do not fit 64 bits. *)
Definition overflow_env : gmap string string :=
  list_to_map
    [("ENV", "production"); ("DB_URI", "mongodb://db:27017"); ("DB", "app");
     ("PORT", ":9090"); ("MODULE_NAME", "boilerplate");
     ("READ_TIMEOUT_MS", "9223372036855"); ("WRITE_TIMEOUT_MS", "15000");
     ("SHUTDOWN_TIMEOUT_MS", "10000"); ("IDLE_TIMEOUT_MS", "60000");
     ("READ_HEADER_TIMEOUT_MS", "10000")].

(** A timeout value [LoadENVVariables] accepts: empty, or a numeral that
    fits a 64-bit signed integer. *)
Definition accepted_ms (s : string) : Prop :=
  s = "" ∨ ∃ v, numeral s = Some v ∧ (- 2 ^ 63 ≤ v < 2 ^ 63)%Z.

End EnvVars.

(** ** pkg/response/response.go, unnamed/part_003 and cmd/server/main.go:
    the response envelope and the auth routes *)

Module Http.

(** A JSON document.  An object lists its members in the order the
    encoder writes them: struct fields as declared, map keys sorted. *)
#[warnings="-register-all"]
Inductive json :=
| JsNull
| JsBool (b : bool)
| JsNum (z : Z)
| JsStr (s : string)
| JsObj (members : list (string * json)).

Definition member (j : json) (key : string) : option json :=
  match j with
  | JsObj ms => snd <$> List.find (λ kv, bool_decide (kv.1 = key)) ms
  | _ => None
  end.

Definition keys (j : json) : list string :=
  match j with
  | JsObj ms => fst <$> ms
  | _ => []
  end.

(** [url.Values] and [Values.Get]: the first value of the key, or the
    empty string. *)
Definition Values_Get (v : gmap string (list string)) (key : string) : string :=
  match v !! key with
  | Some (x :: _) => x
  | _ => ""
  end.

(** The parts of an [*http.Request] the code reads; [Query] is
    [r.URL.Query()]. *)
Record Request := {
  Method : string;
  Path : string;
  Query : gmap string (list string)
}.

(** What has been written to the body: an encoded JSON document (with
    its newline) or plain text. *)
Inductive chunk :=
| Doc (j : json)
| Text (s : string).

(** An [http.ResponseWriter]: the header map, the status code once the
    header is written, and the body so far. *)
Record ResponseWriter := {
  Header : gmap string string;
  status : option Z;
  body : list chunk
}.

Definition new_writer : ResponseWriter :=
  {| Header := ∅; status := None; body := [] |}.

Definition Header_Set (k v : string) (w : ResponseWriter) : ResponseWriter :=
  {| Header := <[k := v]> (Header w); status := status w; body := body w |}.

(** [checkWriteHeaderCode] of net/http: the first [WriteHeader] of a
    response panics on a code outside 100..999.  The codes the packages
    below pass are constants within this range; where the caller chooses
    the code ([SendJSON]), the properties are stated for codes that pass. *)
Definition checkWriteHeaderCode (code : Z) : bool :=
  bool_decide (100 ≤ code)%Z && bool_decide (code ≤ 999)%Z.

(** [bodyAllowedForStatus] of net/http: a response with one of these
    statuses carries no body, and the server refuses a [Write] after it. *)
Definition bodyAllowedForStatus (status : Z) : bool :=
  if bool_decide (100 ≤ status)%Z && bool_decide (status ≤ 199)%Z then false
  else if bool_decide (status = 204)%Z then false
  else if bool_decide (status = 304)%Z then false
  else true.

(** [WriteHeader], for a code that passes [checkWriteHeaderCode]: only the
    first call sets the status. *)
Definition WriteHeader (code : Z) (w : ResponseWriter) : ResponseWriter :=
  match status w with
  | Some _ => w
  | None => {| Header := Header w; status := Some code; body := body w |}
  end.

(** [Write]: writes the header with status 200 first if none was written. *)
Definition Write (c : list chunk) (w : ResponseWriter) : ResponseWriter :=
  let w := WriteHeader 200 w in
  {| Header := Header w; status := status w; body := body w ++ c |}.

(** The line feed [fmt.Fprintln] ends its output with. *)
Definition newline : string := String "010"%char EmptyString.

(** [http.Error]: the two headers, the status, and the message written
    with [fmt.Fprintln], that is, followed by a line feed. *)
Definition http_Error (msg : string) (code : Z) (w : ResponseWriter) : ResponseWriter :=
  Write [Text (msg ++ newline)]
    (WriteHeader code
      (Header_Set "X-Content-Type-Options" "nosniff"
        (Header_Set "Content-Type" "text/plain; charset=utf-8" w))).

(** *** pkg/response/response.go *)

(** What the handlers put into the [Data interface{}] field. *)
Inductive Data :=
| DataStrings (m : gmap string string)
| DataValues (m : gmap string value).

Record Response := {
  Success : bool;
  Message : string;
  Data_ : option Data;
  Error : string
}.

Definition json_of_jval (v : jval) : json :=
  match v with
  | JNull => JsNull
  | JBool b => JsBool b
  | JNum z => JsNum z
  | JStr s => JsStr s
  end.

(** The encoder writes the keys of a map in sorted order. *)
Definition sorted_members (m : gmap string json) : list (string * json) :=
  merge_sort (λ a b : string * json, Is_true (String.leb a.1 b.1)) (map_to_list m).

Definition encode_data (d : Data) : option json :=
  match d with
  | DataStrings m => Some (JsObj (sorted_members (JsStr <$> m)))
  | DataValues m =>
      match marshal_map m with
      | Some jm => Some (JsObj (sorted_members (json_of_jval <$> jm)))
      | None => None
      end
  end.

(** [json.NewEncoder(w).Encode(response)] with the struct tags of
    [Response]. *)
Definition encode_response (r : Response) : option json :=
  match (match Data_ r with
         | None => Some []
         | Some d => (λ j, [("data", j)]) <$> encode_data d
         end) with
  | None => None
  | Some data =>
      Some (JsObj ([("success", JsBool (Success r)); ("message", JsStr (Message r))]
                   ++ data
                   ++ (if decide (Error r = "") then [] else [("error", JsStr (Error r))]))%list)
  end.

(** [SendJSON]. *)
Definition SendJSON (statusCode : Z) (response : Response) (w : ResponseWriter)
    : ResponseWriter :=
  let w := Header_Set "Content-Type" "application/json" w in
  let w := WriteHeader statusCode w in
  match encode_response response with
  | Some j => Write [Doc j] w
  | None => http_Error "Failed to encode response" 500 w
  end.

(** [SendSuccess], [SendCreated], [SendUnprocessableEntity]. *)
Definition SendSuccess (message : string) (data : option Data) : ResponseWriter → ResponseWriter :=
  SendJSON 200 {| Success := true; Message := message; Data_ := data; Error := "" |}.

Definition SendCreated (message : string) (data : option Data) : ResponseWriter → ResponseWriter :=
  SendJSON 201 {| Success := true; Message := message; Data_ := data; Error := "" |}.

Definition SendUnprocessableEntity (message : string) (validationErrors : option Data)
    : ResponseWriter → ResponseWriter :=
  let message := if decide (message = "") then "Unprocessable Entity" else message in
  SendJSON 422 {| Success := false; Message := message; Data_ := validationErrors;
                  Error := "Validation failed" |}.

(** *** unnamed/part_003: the handlers of package [auth] *)

Definition Handler := Request → ResponseWriter → ResponseWriter.

Definition loginHandler : Handler := λ r w,
  let userData : gmap string value :=
    <["user_id" := VInt 123]> (<["email" := VStr "user@example.com"]>
    (<["token" := VStr "jwt-token-here"]> ∅)) in
  SendSuccess "Login successful" (Some (DataValues userData)) w.

Definition registerHandler : Handler := λ r w,
  if decide (Values_Get (Query r) "error" = "validation") then
    let validationErrors : gmap string string :=
      <["email" := "Email is required"]>
      (<["password" := "Password must be at least 8 characters"]> ∅) in
    SendUnprocessableEntity "Validation failed" (Some (DataStrings validationErrors)) w
  else
    let userData : gmap string value :=
      <["user_id" := VInt 124]> (<["email" := VStr "newuser@example.com"]>
      (<["message" := VStr "Please verify your email"]> ∅)) in
    SendCreated "User registered successfully" (Some (DataValues userData)) w.

(** *** The router, as far as static routes go

    The routing engine ([chi]) is a library.  A router is the table of
    its routes; mounting a router under a prefix adds its routes with the
    prefix in front.  A request whose method is not in the engine's table
    of methods gets 405 before its path is looked at; otherwise a request
    whose path has a route for another method gets 405, and a path
    without route 404. *)
Record Route := {
  r_method : string;
  r_pattern : string;
  r_handler : Handler
}.

Definition NewRouter : list Route := [].

Definition Get (pattern : string) (h : Handler) (m : list Route) : list Route :=
  (m ++ [{| r_method := "GET"; r_pattern := pattern; r_handler := h |}])%list.

Definition Post (pattern : string) (h : Handler) (m : list Route) : list Route :=
  (m ++ [{| r_method := "POST"; r_pattern := pattern; r_handler := h |}])%list.

Definition Mount (prefix : string) (sub : list Route) (m : list Route) : list Route :=
  let under (rt : Route) : Route :=
    {| r_method := r_method rt; r_pattern := prefix ++ r_pattern rt;
       r_handler := r_handler rt |} in
  (m ++ (under <$> sub))%list.

(** [methodMap] of chi: the methods the engine routes. *)
Definition methodMap : list string :=
  ["CONNECT"; "DELETE"; "GET"; "HEAD"; "OPTIONS"; "PATCH"; "POST"; "PUT"; "TRACE"].

(** The engine's handlers for a method that is not allowed and for a path
    that is not found ([http.NotFound]). *)
Definition methodNotAllowedHandler : Handler := λ r w, Write [] (WriteHeader 405 w).

Definition NotFound : Handler := λ r w, http_Error "404 page not found" 404 w.

(** [Mux.routeHTTP]. *)
Definition ServeHTTP (m : list Route) : Handler := λ r w,
  if bool_decide (Method r ∈ methodMap) then
    match List.find (λ rt, bool_decide (r_pattern rt = Path r) &&
                           bool_decide (r_method rt = Method r)) m with
    | Some rt => r_handler rt r w
    | None =>
        if existsb (λ rt, bool_decide (r_pattern rt = Path r)) m
        then methodNotAllowedHandler r w
        else NotFound r w
    end
  else methodNotAllowedHandler r w.

(** [auth.Router()] (unnamed/part_003). *)
Definition Router : list Route :=
  Post "/register" registerHandler (Post "/login" loginHandler NewRouter).

(** [app()] (cmd/server/main.go). *)
Definition app : list Route :=
  Mount "/auth" Router
    (Get "/ping" (λ r w, Write [Text "pong"] w) NewRouter).

(** *** pkg/response/response.go: the other helpers *)

Definition SendAccepted (message : string) : ResponseWriter → ResponseWriter :=
  SendJSON 202 {| Success := true; Message := message; Data_ := None; Error := "" |}.

Definition SendNoContent (w : ResponseWriter) : ResponseWriter := WriteHeader 204 w.

(** [SendBadRequest]: of the variadic [errors] only the first is used. *)
Definition SendBadRequest (message : string) (errors : list string)
    : ResponseWriter → ResponseWriter :=
  let message := if decide (message = "") then "Bad Request" else message in
  let errorStr := if bool_decide (0 < length errors) then default "" (head errors) else "" in
  SendJSON 400 {| Success := false; Message := message; Data_ := None; Error := errorStr |}.

Definition SendUnauthorized (message : string) : ResponseWriter → ResponseWriter :=
  let message := if decide (message = "") then "Unauthorized" else message in
  SendJSON 401 {| Success := false; Message := message; Data_ := None;
                  Error := "Authentication required" |}.

Definition SendForbidden (message : string) : ResponseWriter → ResponseWriter :=
  let message := if decide (message = "") then "Forbidden" else message in
  SendJSON 403 {| Success := false; Message := message; Data_ := None;
                  Error := "Access denied" |}.

Definition SendNotFound (message : string) : ResponseWriter → ResponseWriter :=
  let message := if decide (message = "") then "Not Found" else message in
  SendJSON 404 {| Success := false; Message := message; Data_ := None;
                  Error := "Resource not found" |}.

(** [joinMethods]: the loop with its index. *)
Fixpoint joinMethods_from (i : nat) (methods : list string) (result : string) : string :=
  match methods with
  | [] => result
  | method :: rest =>
      let result := if bool_decide (0 < i) then result ++ ", " else result in
      joinMethods_from (S i) rest (result ++ method)
  end.

Definition joinMethods (methods : list string) : string := joinMethods_from 0 methods "".

Definition SendMethodNotAllowed (allowedMethods : list string) (w : ResponseWriter)
    : ResponseWriter :=
  let message := "Method Not Allowed" in
  let w := if bool_decide (0 < length allowedMethods)
           then Header_Set "Allow" (joinMethods allowedMethods) w
           else w in
  SendJSON 405 {| Success := false; Message := message; Data_ := None;
                  Error := "HTTP method not allowed for this endpoint" |} w.

Definition SendConflict (message : string) : ResponseWriter → ResponseWriter :=
  let message := if decide (message = "") then "Conflict" else message in
  SendJSON 409 {| Success := false; Message := message; Data_ := None;
                  Error := "Resource conflict" |}.

Definition SendTooManyRequests (message : string) : ResponseWriter → ResponseWriter :=
  let message := if decide (message = "") then "Too Many Requests" else message in
  SendJSON 429 {| Success := false; Message := message; Data_ := None;
                  Error := "Rate limit exceeded" |}.

Definition SendInternalServerError (message : string) : ResponseWriter → ResponseWriter :=
  let message := if decide (message = "") then "Internal Server Error" else message in
  SendJSON 500 {| Success := false; Message := message; Data_ := None;
                  Error := "An internal server error occurred" |}.

Definition SendNotImplemented (message : string) : ResponseWriter → ResponseWriter :=
  let message := if decide (message = "") then "Not Implemented" else message in
  SendJSON 501 {| Success := false; Message := message; Data_ := None;
                  Error := "Feature not implemented" |}.

Definition SendBadGateway (message : string) : ResponseWriter → ResponseWriter :=
  let message := if decide (message = "") then "Bad Gateway" else message in
  SendJSON 502 {| Success := false; Message := message; Data_ := None;
                  Error := "Bad gateway" |}.

Definition SendServiceUnavailable (message : string) : ResponseWriter → ResponseWriter :=
  let message := if decide (message = "") then "Service Unavailable" else message in
  SendJSON 503 {| Success := false; Message := message; Data_ := None;
                  Error := "Service temporarily unavailable" |}.

Definition SendGatewayTimeout (message : string) : ResponseWriter → ResponseWriter :=
  let message := if decide (message = "") then "Gateway Timeout" else message in
  SendJSON 504 {| Success := false; Message := message; Data_ := None;
                  Error := "Gateway timeout" |}.

(** The helpers that take a message and nothing else, each with the
    status it sends. *)
Definition message_helpers : list (Z * (string → ResponseWriter → ResponseWriter)) :=
  [(401%Z, SendUnauthorized); (403%Z, SendForbidden); (404%Z, SendNotFound);
   (409%Z, SendConflict); (429%Z, SendTooManyRequests);
   (500%Z, SendInternalServerError); (501%Z, SendNotImplemented);
   (502%Z, SendBadGateway); (503%Z, SendServiceUnavailable);
   (504%Z, SendGatewayTimeout)].

End Http.

(** ** unnamed/part_007 (package errors), pkg/helpers/helpers.go and
    pkg/router/router.go: handlers guarded by their method *)

Module RouterMux.

(** *** package errors *)

Definition BadRequest (message : string) (w : Http.ResponseWriter) : Http.ResponseWriter :=
  let message := if decide (message = "") then "Bad Request !" else message in
  Http.http_Error message 400 w.

Definition MethodNotAllowed (w : Http.ResponseWriter) : Http.ResponseWriter :=
  Http.http_Error "Method Not Allowed !" 405 w.

Definition InternalServerError (message : string) (w : Http.ResponseWriter)
    : Http.ResponseWriter :=
  let message := if decide (message = "") then "Internal Server Error !" else message in
  Http.http_Error message 500 w.

(** *** package helpers *)

(** [ValidateMethod]: the string returned and what has been written. *)
Definition ValidateMethod (method : string) (w : Http.ResponseWriter) (req : Http.Request)
    : string * Http.ResponseWriter :=
  if decide (Http.Method req ≠ method)
  then ("Method Not Allowed", MethodNotAllowed w)
  else ("", w).

(** *** package router *)

(** An [http.HandlerFunc] handed to the router; [None] is the nil func.
    Serving a request gives the writer afterwards, or [None] when the
    call of a nil func panics. *)
Definition HandlerFunc := option Http.Handler.
Definition Served := Http.Request → Http.ResponseWriter → option Http.ResponseWriter.

Definition call (handler : HandlerFunc) : Served := λ req w,
  match handler with
  | Some h => Some (h req w)
  | None => None
  end.

(** The closure the three [AddCustom...Handler] methods register. *)
Definition guarded (method : string) (handler : HandlerFunc) : Served := λ req w,
  let '(err, w) := ValidateMethod method w req in
  if decide (err ≠ "") then Some w else call handler req w.

Section Mux.
(** [http.ServeMux] and its [HandleFunc] belong to the library. *)
Variable ServeMux : Type.
Variable HandleFunc : string → Served → ServeMux → ServeMux.

Definition AddCustomGetHandler (urlPath : string) (handler : HandlerFunc) : ServeMux → ServeMux :=
  HandleFunc urlPath (guarded "GET" handler).

Definition AddCustomPostHandler (urlPath : string) (handler : HandlerFunc) : ServeMux → ServeMux :=
  HandleFunc urlPath (guarded "POST" handler).

Definition AddCustomDeleteHandler (urlPath : string) (handler : HandlerFunc) : ServeMux → ServeMux :=
  HandleFunc urlPath (guarded "DELETE" handler).

Definition AddUnsupportedMethodHandler (urlPath : string) : ServeMux → ServeMux :=
  HandleFunc urlPath (λ req w, Some (MethodNotAllowed w)).

Definition AddCustomHandler (method urlPath : string) (handler : HandlerFunc)
    : ServeMux → ServeMux :=
  if decide (method = "GET") then AddCustomGetHandler urlPath handler
  else if decide (method = "POST") then AddCustomPostHandler urlPath handler
  else if decide (method = "DELETE") then AddCustomDeleteHandler urlPath handler
  else AddUnsupportedMethodHandler urlPath.
End Mux.

End RouterMux.

(** ** unnamed/part_009 (pkg/server/middleware.go): the middlewares the
    package writes itself *)

Module Middleware.

(** *** Header names ([net/textproto]) *)

(** [validHeaderFieldByte]: the bytes of an HTTP token. *)
Definition validHeaderFieldByte (c : ascii) : bool :=
  let n := nat_of_ascii c in
  (n =? 33)%nat || ((35 <=? n)%nat && (n <=? 39)%nat) || (n =? 42)%nat || (n =? 43)%nat ||
  (n =? 45)%nat || (n =? 46)%nat || ((48 <=? n)%nat && (n <=? 57)%nat) ||
  ((65 <=? n)%nat && (n <=? 90)%nat) || ((94 <=? n)%nat && (n <=? 122)%nat) ||
  (n =? 124)%nat || (n =? 126)%nat.

(** The rewriting loop of [canonicalMIMEHeaderKey]: a letter at the start
    or after a hyphen in upper case, every other letter in lower case. *)
Fixpoint canonical_case (upper : bool) (s : string) : string :=
  match s with
  | EmptyString => EmptyString
  | String c rest =>
      let n := nat_of_ascii c in
      let c' :=
        if upper && (97 <=? n)%nat && (n <=? 122)%nat then ascii_of_nat (n - 32)
        else if negb upper && (65 <=? n)%nat && (n <=? 90)%nat then ascii_of_nat (n + 32)
        else c in
      String c' (canonical_case (bool_decide (c' = "-"%char)) rest)
  end.

(** [CanonicalMIMEHeaderKey]: a name with a byte outside the token bytes
    is left as it is. *)
Definition CanonicalMIMEHeaderKey (s : string) : string :=
  if forallb validHeaderFieldByte (list_ascii_of_string s) then canonical_case true s else s.

(** [Header.Get] and [Header.Set]. *)
Definition Header_Get (h : gmap string (list string)) (key : string) : string :=
  Http.Values_Get h (CanonicalMIMEHeaderKey key).

Definition Header_Set (key v : string) (w : Http.ResponseWriter) : Http.ResponseWriter :=
  Http.Header_Set (CanonicalMIMEHeaderKey key) v w.

(** *** Requests and their contexts *)

(** The values of a [context.Context].  A key is found only under a key
    of the same type and the same content, so the values are kept by the
    type of their key: that of package [server], that of package
    [logger]. *)
Definition Ctx := gmap string (gmap string value).

Definition server_ctxKey : string := "server.ctxKey".
Definition logger_ctxKey : string := "logger.ctxKey".

Definition TraceIDKey : string := "trace_id".
Definition RequestIDKey : string := "request_id".

(** [context.WithValue(ctx, key, v)] and [ctx.Value(key)], for a key of
    type [ty]. *)
Definition WithValue (ctx : Ctx) (ty key : string) (v : value) : Ctx :=
  <[ty := <[key := v]> (default ∅ (ctx !! ty))]> ctx.

Definition Value (ctx : Ctx) (ty key : string) : option value :=
  ctx !! ty ≫= (λ m, m !! key).

(** What the logger of pkg/logger finds in a context: the values under
    keys of its own type. *)
Definition logger_view (ctx : Ctx) : LoggerCtx.Context :=
  Some (default ∅ (ctx !! logger_ctxKey)).

(** The parts of an [*http.Request] the middlewares read. *)
Record Request := {
  Method : string;
  Path : string;
  Header : gmap string (list string);
  RemoteAddr : string;
  Context : Ctx
}.

(** [r.WithContext(ctx)]. *)
Definition WithContext (r : Request) (ctx : Ctx) : Request :=
  {| Method := Method r; Path := Path r; Header := Header r;
     RemoteAddr := RemoteAddr r; Context := ctx |}.

(** A handler: the writer afterwards and what it logged. *)
Definition Handler := Request → Http.ResponseWriter → Http.ResponseWriter * list event.

Definition Middleware := Handler → Handler.

(** [TraceIDMiddleware]; [uuid] is what [uuid.New().String()] gives for
    this request. *)
Definition TraceIDMiddleware (uuid : string) : Middleware := λ next r w,
  let traceID := Header_Get (Header r) "X-Trace-ID" in
  let traceID := if decide (traceID = "") then uuid else traceID in
  let w := Header_Set "X-Trace-ID" traceID w in
  let ctx := WithValue (Context r) server_ctxKey TraceIDKey (VStr traceID) in
  next (WithContext r ctx) w.

(** [v, _ := r.Context().Value(key).(string)]. *)
Definition Value_string (ctx : Ctx) (ty key : string) : string :=
  match Value ctx ty key with
  | Some (VStr s) => s
  | _ => ""
  end.

Section Logger.
(** The surroundings: the sinks' answers, the clock, the time the
    handler took as [Duration.String] prints it, and the number of bytes
    of a body. *)
Variable write_err : Writer → option string.
Variable now : string.
Variable duration : string.
Variable bytes_of : list Http.chunk → Z.

(** The payload of the access log entry. *)
Definition access_payload (r : Request) (status size : Z) : gmap string value :=
  let realIP := Header_Get (Header r) "X-Forwarded-For" in
  let realIP := if decide (realIP = "") then Header_Get (Header r) "X-Real-IP" else realIP in
  let realIP := if decide (realIP = "") then RemoteAddr r else realIP in
  let traceID := Value_string (Context r) server_ctxKey TraceIDKey in
  let requestID := Value_string (Context r) server_ctxKey RequestIDKey in
  let userAgent := Header_Get (Header r) "User-Agent" in
  <["event" := VStr "http_request"]> (<["method" := VStr (Method r)]>
  (<["path" := VStr (Path r)]> (<["status" := VInt status]>
  (<["size" := VInt size]> (<["duration" := VStr duration]>
  (<["ip" := VStr realIP]> (<["trace_id" := VStr traceID]>
  (<["request_id" := VStr requestID]> (<["userAgent" := VStr userAgent]> ∅))))))))).

(** [LoggerMiddleware].  The handler writes through a wrapper that
    records the status and the bytes of this call and passes everything
    on to [w]; the request's context is never nil. *)
Definition LoggerMiddleware (log : LoggerCtx.JSONLogger) : Middleware := λ next r w,
  let '(ww, evs) := next r {| Http.Header := Http.Header w; Http.status := None;
                              Http.body := [] |} in
  let w := {| Http.Header := Http.Header ww;
              Http.status := match Http.status w with
                             | Some s => Some s
                             | None => Http.status ww
                             end;
              Http.body := (Http.body w ++ Http.body ww)%list |} in
  let payload := access_payload r (default 0%Z (Http.status ww)) (bytes_of (Http.body ww)) in
  (w, (evs ++ default [] (LoggerCtx.InfoJSON write_err now log (logger_view (Context r))
                            payload))%list).
End Logger.

(** [CORSMiddleware]. *)
Definition CORSMiddleware (allowedOrigins allowedMethods allowedHeaders : string)
    : Middleware := λ next r w,
  let w := Header_Set "Access-Control-Allow-Origin" allowedOrigins w in
  let w := Header_Set "Access-Control-Allow-Methods" allowedMethods w in
  let w := Header_Set "Access-Control-Allow-Headers" allowedHeaders w in
  let w := Header_Set "Access-Control-Allow-Credentials" "true" w in
  if decide (Method r = "OPTIONS") then (Http.WriteHeader 200 w, [])
  else next r w.

(** [ContentTypeMiddleware] and [JSONContentTypeMiddleware]. *)
Definition ContentTypeMiddleware (contentType : string) : Middleware := λ next r w,
  if decide (Method r = "GET") then next r w
  else if decide (Header_Get (Header r) "Content-Type" ≠ contentType)
  then (Http.http_Error "Unsupported Media Type" 415 w, [])
  else next r w.

Definition JSONContentTypeMiddleware : Middleware :=
  ContentTypeMiddleware "application/json".

(** [SetContentTypeMiddleware]. *)
Definition SetContentTypeMiddleware (contentType : string) : Middleware := λ next r w,
  let w := Header_Set "Content-Type" contentType w in
  next r w.

(** The handler of [/ping] in [NewApp] (unnamed/part_002): it logs with
    the request's context and writes "pong". *)
Definition pingHandler (Sprintf : string → list value → string)
    (write_err : Writer → option string) (now : string) (log : LoggerCtx.JSONLogger)
    : Handler := λ r w,
  let evs := LoggerCtx.Info Sprintf write_err now log (logger_view (Context r))
               "Ping endpoint called" [] in
  (Http.Write [Http.Text "pong"] w, evs).

End Middleware.

(** ** pkg/server/server.go: validation, start and graceful shutdown *)

Module Server.

(** Go error values: the sentinel [http.ErrServerClosed], an error made
    by [errors.New] or by a hook or the listener, and an error wrapped by
    [fmt.Errorf("...: %w", err)]. *)
Inductive error :=
| ErrServerClosed
| ErrNew (msg : string)
| ErrWrap (prefix : string) (inner : error).

(** [errors.Is(err, http.ErrServerClosed)]: follows the chain of wrapped
    errors. *)
Fixpoint is_server_closed (e : error) : bool :=
  match e with
  | ErrServerClosed => true
  | ErrNew _ => false
  | ErrWrap _ inner => is_server_closed inner
  end.

Inductive Signal :=
| SIGINT
| SIGTERM.

(** An argument of a logging call. *)
Inductive arg :=
| AStr (s : string)
| AErr (e : error)
| ADur (d : Z)
| ASig (s : Signal)
| AInt (n : nat).

(** What the server does that can be seen from outside, in order. *)
Inductive action :=
| Log (level : LogLevel) (format : string) (args : list arg)
| Spawn
| StartupHook
| ShutdownHook
| ListenAndServe
| Send (e : error)
| Notify
| Recv (e : error)
| RecvSignal (s : Signal)
| SrvShutdown
| SrvClose
| Delivered (s : Signal).

#[global] Instance error_eq_dec : EqDecision error.
Proof. solve_decision. Defined.
#[global] Instance Signal_eq_dec : EqDecision Signal.
Proof. solve_decision. Defined.
#[global] Instance arg_eq_dec : EqDecision arg.
Proof. solve_decision. Defined.
#[global] Instance action_eq_dec : EqDecision action.
Proof. solve_decision. Defined.

(** A value of the [logger.Logger] interface that is not nil. *)
Inductive LoggerRef :=
| LoggerObj (id : nat).

(** [Middleware] (unnamed/part_008): a func value; [None] is the nil
    func. *)
Definition Middleware := option (Http.Handler → Http.Handler).

(** [HTTPRouter] (unnamed/part_008) wraps a [chi.Router], seen here as
    the [http.Handler] it is.  [None] is the nil interface, which the zero
    value [&HTTPRouter{}] holds. *)
Record HTTPRouter := {
  chi : option Http.Handler
}.

(** [HTTPRouter.Handler]. *)
Definition Handler (r : HTTPRouter) : option Http.Handler := chi r.

(** A router as [New] and the route methods build it, here with the
    routes of [Http.app]. *)
Definition app_router : HTTPRouter := {| chi := Some (Http.ServeHTTP Http.app) |}.

(** [ServerConfig].  A hook is what calling it returns ([None] is a nil
    error); a nil hook, a nil [App] and a nil [Logger] are [None]. *)
Record ServerConfig := {
  App : option HTTPRouter;
  Port : string;
  Middlewares : list Middleware;
  ReadTimeout : Z;
  WriteTimeout : Z;
  IdleTimeout : Z;
  ReadHeaderTimeout : Z;
  ShutdownTimeout : Z;
  OnStartup : option (option error);
  OnShutdown : option (option error);
  Logger : option LoggerRef
}.

Definition with_logger (lg : option LoggerRef) (c : ServerConfig) : ServerConfig :=
  {| App := App c; Port := Port c; Middlewares := Middlewares c;
     ReadTimeout := ReadTimeout c; WriteTimeout := WriteTimeout c;
     IdleTimeout := IdleTimeout c; ReadHeaderTimeout := ReadHeaderTimeout c;
     ShutdownTimeout := ShutdownTimeout c; OnStartup := OnStartup c;
     OnShutdown := OnShutdown c; Logger := lg |}.

Definition with_shutdown_hook (h : option (option error)) (c : ServerConfig) : ServerConfig :=
  {| App := App c; Port := Port c; Middlewares := Middlewares c;
     ReadTimeout := ReadTimeout c; WriteTimeout := WriteTimeout c;
     IdleTimeout := IdleTimeout c; ReadHeaderTimeout := ReadHeaderTimeout c;
     ShutdownTimeout := ShutdownTimeout c; OnStartup := OnStartup c;
     OnShutdown := h; Logger := Logger c |}.

(** *** Straight-line code: the actions so far, and whether the code
    returned or panicked *)

Inductive result (A : Type) :=
| Done (a : A)
| Panic.
Arguments Done {A} a.
Arguments Panic {A}.

Definition Run (A : Type) : Type := list action * result A.

#[export] Instance Run_ret : MRet Run := λ A a, ([], Done a).
#[export] Instance Run_bind : MBind Run := λ A B f c,
  match c with
  | (evs, Done a) => let '(evs', r) := f a in ((evs ++ evs')%list, r)
  | (evs, Panic) => (evs, Panic)
  end.

(** A method call on [c.Logger]: on the nil interface it panics. *)
Definition logcall (c : ServerConfig) (level : LogLevel) (format : string)
    (args : list arg) : Run unit :=
  match Logger c with
  | Some _ => ([Log level format args], Done tt)
  | None => ([], Panic)
  end.

(** [ServerConfig.Validate]. *)
Definition Validate (c : ServerConfig) : Run (option error) :=
  logcall c LevelInfo "Validating server configuration..." [];;
  if decide (App c = None) then
    logcall c LevelError "App cannot be nil" [];;
    mret (Some (ErrNew "app cannot be nil"))
  else if decide (Port c = "") then
    logcall c LevelError "Port cannot be empty" [];;
    mret (Some (ErrNew "port cannot be empty"))
  else if decide (ShutdownTimeout c ≤ 0)%Z then
    logcall c LevelError "Shutdown timeout must be positive" [];;
    mret (Some (ErrNew "shutdown timeout must be positive"))
  else if decide (Logger c = None) then
    logcall c LevelError "Logger cannot be empty" [];;
    mret (Some (ErrNew "Logger cannot be empty"))
  else
    logcall c LevelInfo "Server configuration validated successfully" [];;
    mret None.

(** [chain] of chi: the middlewares applied to the endpoint, the last
    one first, so that the first one is outermost.  Calling a nil
    middleware panics ([None]). *)
Fixpoint chain (middlewares : list Middleware) (endpoint : Http.Handler)
    : option Http.Handler :=
  match middlewares with
  | [] => Some endpoint
  | mw :: rest =>
      match chain rest endpoint with
      | Some h =>
          match mw with
          | Some f => Some (f h)
          | None => None
          end
      | None => None
      end
  end.

(** [server.Use(middlewares...)] and [server.Mount("/", handler)] on the
    router [New] has just made.  On a mux without routes [Use] only stores
    the middlewares.  [Mount] panics on a nil handler; else it registers
    the handler for every path and builds the handler of the mux: the
    middlewares around the routing function, which answers a method
    outside its table itself and hands every other request to the handler
    mounted.  The result is the handler of the router. *)
Definition Use_and_Mount (middlewares : list Middleware) (handler : option Http.Handler)
    : Run Http.Handler :=
  match handler with
  | None => ([], Panic)
  | Some h =>
      match chain middlewares
              (λ r w, if bool_decide (Http.Method r ∈ Http.methodMap) then h r w
                      else Http.methodNotAllowedHandler r w) with
      | Some served => ([], Done served)
      | None => ([], Panic)
      end
  end.

(** [prepareRouter]: the handler of the router it returns.  [app.Handler()]
    on a nil [app] panics. *)
Definition prepareRouter (c : ServerConfig) : Run Http.Handler :=
  (if bool_decide (0 < length (Middlewares c)) then
     logcall c LevelInfo "Preparing router with %d middleware(s)..."
       [AInt (length (Middlewares c))]
   else
     logcall c LevelInfo "Preparing router with no middleware" []);;
  match App c with
  | Some app => Use_and_Mount (Middlewares c) (Handler app)
  | None => ([], Panic)
  end.

(** [BuildAndStartServer] up to the [go] statement: [inl e] is the early
    return of [e], [inr h] means the server value, with the handler [h],
    and the error channel exist and the goroutine is about to be started. *)
Definition before_spawn (c : ServerConfig) : Run (error + Http.Handler) :=
  logcall c LevelInfo "Starting BuildAndStartServer..." [];;
  err ← Validate c;
  match err with
  | Some e =>
      logcall c LevelError "Invalid server configuration: %v" [AErr e];;
      mret (inl (ErrWrap "invalid server configuration: " e))
  | None =>
      router ← prepareRouter c;
      logcall c LevelInfo "Creating HTTP server on port %s" [AStr (Port c)];;
      mret (inr router)
  end.

(** *** The two threads of [BuildAndStartServer]

    The calling thread and the goroutine are followed one step at a
    time; a step is the code between two points where a thread calls
    out or touches a channel.  The order in which the two threads take
    their steps, and the arrival of signals, are up to the scheduler. *)

(** Where the calling thread stands. *)
Inductive main_pc :=
| MStart
| MNotify
| MSelect
| MHook
| MShutdown
| MClose (err : error)
| MReturned (r : option error)
| MPanicked.

(** Where the goroutine stands. *)
Inductive go_pc :=
| GNone
| GStart
| GHook
| GSend (e : error)
| GReady
| GListening
| GDone.

Record State := {
  mpc : main_pc;
  gpc : go_pc;
  serverErrors : option error;
  stopChan : option Signal;
  notified : bool;
  closed : bool;
  killed : bool;
  trace : list action
}.

Definition init : State :=
  {| mpc := MStart; gpc := GNone; serverErrors := None; stopChan := None;
     notified := false; closed := false; killed := false; trace := [] |}.

(** What the surroundings answer: the failure of the listener, if it
    fails on its own, and the results of [srv.Shutdown] and [srv.Close]. *)
Record World := {
  listen_fails : option error;
  shutdown_err : option error;
  close_err : option error
}.

Inductive tick :=
| TMain (prefer_error : bool)
| TGo
| TSignal (s : Signal).

Definition upd_main (pc : main_pc) (evs : list action) (st : State) : State :=
  {| mpc := pc; gpc := gpc st; serverErrors := serverErrors st; stopChan := stopChan st;
     notified := notified st; closed := closed st; killed := killed st;
     trace := trace st ++ evs |}.

Definition upd_go (pc : go_pc) (evs : list action) (st : State) : State :=
  {| mpc := mpc st; gpc := pc; serverErrors := serverErrors st; stopChan := stopChan st;
     notified := notified st; closed := closed st; killed := killed st;
     trace := trace st ++ evs |}.

Definition set_serverErrors (v : option error) (st : State) : State :=
  {| mpc := mpc st; gpc := gpc st; serverErrors := v; stopChan := stopChan st;
     notified := notified st; closed := closed st; killed := killed st;
     trace := trace st |}.

Definition set_stopChan (v : option Signal) (st : State) : State :=
  {| mpc := mpc st; gpc := gpc st; serverErrors := serverErrors st; stopChan := v;
     notified := notified st; closed := closed st; killed := killed st;
     trace := trace st |}.

Definition set_flags (notified' closed' killed' : bool) (st : State) : State :=
  {| mpc := mpc st; gpc := gpc st; serverErrors := serverErrors st; stopChan := stopChan st;
     notified := notified'; closed := closed'; killed := killed';
     trace := trace st |}.

(** The [case err := <-serverErrors] branch of the [select]. *)
Definition take_error (e : error) (st : State) : State :=
  upd_main (MReturned (Some e))
    [Recv e; Log LevelError "Server error received: %v" [AErr e]]
    (set_serverErrors None st).

(** The [case sig := <-stopChan] branch, up to the shutdown hook. *)
Definition take_signal (c : ServerConfig) (s : Signal) (st : State) : State :=
  upd_main MHook
    [RecvSignal s;
     Log LevelInfo "Received signal: %v, initiating graceful shutdown..." [ASig s];
     Log LevelInfo "Creating shutdown context with timeout: %v" [ADur (ShutdownTimeout c)]]
    (set_stopChan None st).

(** One step of the calling thread; [None] when it is blocked or has
    ended.  [prefer_error] is the choice the [select] makes when both
    channels are ready. *)
Definition step_main (c : ServerConfig) (w : World) (prefer_error : bool)
    (st : State) : option State :=
  match mpc st with
  | MStart =>
      match before_spawn c with
      | (evs, Panic) => Some (set_flags (notified st) (closed st) true (upd_main MPanicked evs st))
      | (evs, Done (inl e)) => Some (upd_main (MReturned (Some e)) evs st)
      | (evs, Done (inr _)) => Some (upd_go GStart [Spawn] (upd_main MNotify evs st))
      end
  | MNotify =>
      Some (set_flags true (closed st) (killed st)
             (upd_main MSelect
                [Log LevelInfo "Setting up signal handling for graceful shutdown..." [];
                 Notify] st))
  | MSelect =>
      match serverErrors st, stopChan st with
      | Some e, Some s => Some (if prefer_error then take_error e st else take_signal c s st)
      | Some e, None => Some (take_error e st)
      | None, Some s => Some (take_signal c s st)
      | None, None => None
      end
  | MHook =>
      match OnShutdown c with
      | None => Some (upd_main MShutdown [] st)
      | Some r =>
          Some (upd_main MShutdown
                  ([Log LevelInfo "Executing shutdown hooks..." []; ShutdownHook] ++
                   match r with
                   | Some e => [Log LevelError "Shutdown hook failed: %v" [AErr e]]
                   | None => []
                   end)%list st)
      end
  | MShutdown =>
      let st := set_flags (notified st) true (killed st) st in
      let evs := [Log LevelInfo "Shutting down server (timeout: %v)..."
                    [ADur (ShutdownTimeout c)]; SrvShutdown] in
      match shutdown_err w with
      | Some err =>
          Some (upd_main (MClose err)
                  (evs ++ [Log LevelError "Graceful shutdown failed, forcing close: %v"
                             [AErr err]])%list st)
      | None =>
          Some (upd_main (MReturned None)
                  (evs ++ [Log LevelInfo "Server stopped gracefully" []])%list st)
      end
  | MClose err =>
      match close_err w with
      | Some closeErr =>
          Some (upd_main (MReturned (Some (ErrWrap "failed to close server: " closeErr)))
                  [SrvClose; Log LevelError "Failed to close server: %v" [AErr closeErr]] st)
      | None =>
          Some (upd_main (MReturned (Some (ErrWrap "forced shutdown due to: " err)))
                  [SrvClose] st)
      end
  | MReturned _ | MPanicked => None
  end.

(** One step of the goroutine. *)
Definition step_go (c : ServerConfig) (w : World) (st : State) : option State :=
  match gpc st with
  | GNone | GDone => None
  | GStart =>
      let evs := [Log LevelInfo "HTTP server starting on %s" [AStr (Port c)]] in
      match OnStartup c with
      | Some _ =>
          Some (upd_go GHook (evs ++ [Log LevelInfo "Executing startup hook..." []])%list st)
      | None => Some (upd_go GReady evs st)
      end
  | GHook =>
      match OnStartup c with
      | Some (Some e) =>
          Some (upd_go (GSend (ErrWrap "startup hook failed: " e))
                  [StartupHook; Log LevelError "Startup hook failed: %v" [AErr e]] st)
      | _ => Some (upd_go GReady [StartupHook] st)
      end
  | GSend e =>
      match serverErrors st with
      | None => Some (upd_go GDone [Send e] (set_serverErrors (Some e) st))
      | Some _ => None
      end
  | GReady =>
      Some (upd_go GListening
              [Log LevelInfo "Server is ready to accept connections on %s" [AStr (Port c)];
               Log LevelInfo "ListenAndServe called" [];
               ListenAndServe] st)
  | GListening =>
      if closed st then Some (upd_go GDone [] st)
      else
        match listen_fails w with
        | None => None
        | Some e =>
            if is_server_closed e then Some (upd_go GDone [] st)
            else Some (upd_go (GSend (ErrWrap "server failed: " e))
                         [Log LevelError "Server failed: %v" [AErr e]] st)
        end
  end.

(** The arrival of a signal: before [signal.Notify] it ends the process;
    afterwards it is put into [stopChan], or dropped when the channel is
    full. *)
Definition step_signal (s : Signal) (st : State) : option State :=
  if notified st then
    Some (upd_main (mpc st) [Delivered s]
            (match stopChan st with
             | None => set_stopChan (Some s) st
             | Some _ => st
             end))
  else
    Some (set_flags (notified st) (closed st) true (upd_main (mpc st) [Delivered s] st)).

Definition step (c : ServerConfig) (w : World) (t : tick) (st : State) : option State :=
  if killed st then None
  else
    match t with
    | TMain b => step_main c w b st
    | TGo => step_go c w st
    | TSignal s => step_signal s st
    end.

(** A schedule is a list of ticks; a tick that cannot move leaves the
    state as it is. *)
Definition tick_once (c : ServerConfig) (w : World) (st : State) (t : tick) : State :=
  default st (step c w t st).

Definition run (c : ServerConfig) (w : World) (sched : list tick) (st : State) : State :=
  foldl (tick_once c w) st sched.

(** What [BuildAndStartServer] returned, once it has. *)
Definition returned (st : State) : option (option error) :=
  match mpc st with
  | MReturned r => Some r
  | _ => None
  end.

(** The configuration passes [Validate]. *)
Definition valid (c : ServerConfig) : Prop :=
  App c ≠ None ∧ Port c ≠ "" ∧ (0 < ShutdownTimeout c)%Z ∧ Logger c ≠ None.

(** [prepareRouter] can build the router: the app wraps a router and no
    middleware is nil. *)
Definition mountable (c : ServerConfig) : Prop :=
  is_Some (App c ≫= Handler) ∧ Forall is_Some (Middlewares c).

(** A schedule without signals. *)
Definition quiet (sched : list tick) : Prop :=
  Forall (λ t, match t with TSignal _ => False | _ => True end) sched.

(** The two threads taking turns, [n] times. *)
Fixpoint turns (n : nat) : list tick :=
  match n with
  | O => []
  | S n' => TMain true :: TGo :: turns n'
  end.

(** The shutdown hook and the request to close the listener, in the order
    they happened. *)
Definition is_shutdown_step (a : action) : bool :=
  match a with
  | ShutdownHook | SrvShutdown => true
  | _ => false
  end.

Definition shutdown_steps (tr : list action) : list action :=
  List.filter is_shutdown_step tr.

(** What the two threads and the channels hold, without the trace. *)
Definition control (st : State)
    : main_pc * go_pc * option error * option Signal * bool * bool * bool :=
  (mpc st, gpc st, serverErrors st, stopChan st, notified st, closed st, killed st).

(** What the shutdown path returns, from the answers of [srv.Shutdown]
    and [srv.Close]. *)
Definition shutdown_result (w : World) : option error :=
  match shutdown_err w with
  | None => None
  | Some err =>
      match close_err w with
      | Some closeErr => Some (ErrWrap "failed to close server: " closeErr)
      | None => Some (ErrWrap "forced shutdown due to: " err)
      end
  end.

(** A configuration that passes validation and whose startup hook fails. *)
Definition failing_start : ServerConfig :=
  {| App := Some app_router; Port := ":8080"; Middlewares := [];
     ReadTimeout := 15000000000; WriteTimeout := 15000000000;
     IdleTimeout := 60000000000; ReadHeaderTimeout := 10000000000;
     ShutdownTimeout := 10000000000;
     OnStartup := Some (Some (ErrNew "database unreachable"));
     OnShutdown := Some None;
     Logger := Some (LoggerObj 0) |}.

(** The same with a startup hook that succeeds and a shutdown hook that
    fails. *)
Definition failing_stop : ServerConfig :=
  {| App := Some app_router; Port := ":8080"; Middlewares := [];
     ReadTimeout := 15000000000; WriteTimeout := 15000000000;
     IdleTimeout := 60000000000; ReadHeaderTimeout := 10000000000;
     ShutdownTimeout := 10000000000;
     OnStartup := Some None;
     OnShutdown := Some (Some (ErrNew "cache not flushed"));
     Logger := Some (LoggerObj 0) |}.

Definition calm : World :=
  {| listen_fails := None; shutdown_err := None; close_err := None |}.

(** The error the goroutine sends when the startup hook fails with [e]. *)
Definition hook_error (e : error) : error := ErrWrap "startup hook failed: " e.

(** The shutdown hook's part of [shutdown_steps]: one call when a hook is
    supplied. *)
Definition hook_part (c : ServerConfig) : list action :=
  match OnShutdown c with
  | Some _ => [ShutdownHook]
  | None => []
  end.

(** The shutdown hook, the report of its failure in the log, and the
    request to close the listener, in the order they happened. *)
Definition is_shutdown_report (a : action) : bool :=
  match a with
  | ShutdownHook | SrvShutdown => true
  | Log level format _ =>
      bool_decide (level = LevelError) && bool_decide (format = "Shutdown hook failed: %v")
  | _ => false
  end.

Definition shutdown_report (tr : list action) : list action :=
  List.filter is_shutdown_report tr.

(** The shutdown hook's part of [shutdown_report]: the call and, when the
    hook returns an error, the log call with that error. *)
Definition report_part (c : ServerConfig) : list action :=
  match OnShutdown c with
  | Some (Some e) => [ShutdownHook; Log LevelError "Shutdown hook failed: %v" [AErr e]]
  | Some None => [ShutdownHook]
  | None => []
  end.

(** Where the calling thread stands decides what has happened of the
    shutdown: nothing before the hook, the hook alone before the close is
    requested, and the hook followed by the request afterwards. *)
Definition shutdown_inv (c : ServerConfig) (st : State) : Prop :=
  match mpc st with
  | MStart | MNotify | MSelect | MHook | MPanicked => shutdown_steps (trace st) = []
  | MShutdown => shutdown_steps (trace st) = hook_part c
  | MClose _ => shutdown_steps (trace st) = (hook_part c ++ [SrvShutdown])%list
  | MReturned _ =>
      shutdown_steps (trace st) = [] ∨
      shutdown_steps (trace st) = (hook_part c ++ [SrvShutdown])%list
  end.

(** The same with the report of the hook's failure. *)
Definition report_inv (c : ServerConfig) (st : State) : Prop :=
  match mpc st with
  | MStart | MNotify | MSelect | MHook | MPanicked => shutdown_report (trace st) = []
  | MShutdown => shutdown_report (trace st) = report_part c
  | MClose _ => shutdown_report (trace st) = (report_part c ++ [SrvShutdown])%list
  | MReturned _ =>
      shutdown_report (trace st) = [] ∨
      shutdown_report (trace st) = (report_part c ++ [SrvShutdown])%list
  end.

(** The listener has been started, no signal is pending and the calling
    thread waits in its [select]. *)
Definition serving (st : State) : Prop :=
  mpc st = MSelect ∧ gpc st = GListening ∧ serverErrors st = None ∧
  stopChan st = None ∧ notified st = true ∧ killed st = false ∧
  shutdown_steps (trace st) = [].

(** A signal, then the calling thread alone. *)
Definition signal_then_main (s : Signal) : list tick :=
  [TSignal s; TMain true; TMain true; TMain true; TMain true].

(** *** [DefaultServerConfig] *)

(** [time.Second], in nanoseconds. *)
Definition Second : Z := 1000000000.

(** [DefaultServerConfig].  [logger] is a [*logger.Logger]: [None] is the
    nil pointer, [Some None] a pointer to the nil interface.  A timeout is
    a [*time.Duration]. *)
Definition DefaultServerConfig (app : option HTTPRouter) (port : string)
    (middlewares : list Middleware)
    (logger : option (option LoggerRef))
    (readTimeout writeTimeout shutdownTimeout idleTimeout readHeaderTimeout : option Z)
    : Run (ServerConfig + error) :=
  match logger with
  | None => mret (inr (ErrNew "ERROR: Logger is required"))
  | Some lg =>
      let rt := match readTimeout with Some d => d | None => 15 * Second end%Z in
      let wt := match writeTimeout with Some d => d | None => 15 * Second end%Z in
      let st := match shutdownTimeout with Some d => d | None => 10 * Second end%Z in
      let it := match idleTimeout with Some d => d | None => 60 * Second end%Z in
      let rht := match readHeaderTimeout with Some d => d | None => 10 * Second end%Z in
      match lg with
      | Some _ => ([Log LevelInfo "Initializing ServerConfig for port %s" [AStr port]], Done tt)
      | None => ([], Panic)
      end;;
      mret (inl {| App := app; Port := port; Middlewares := middlewares;
                   ReadTimeout := rt; WriteTimeout := wt; IdleTimeout := it;
                   ReadHeaderTimeout := rht; ShutdownTimeout := st;
                   OnStartup := None; OnShutdown := None; Logger := lg |})
  end.

(** The call of [DefaultServerConfig] in [main] (unnamed/part_001,
    cmd/server/main.go): the port and the timeouts are those of the
    settings. *)
Definition config_of_settings (v : EnvVars.Variables) (app : option HTTPRouter)
    (middlewares : list Middleware) (logger : option (option LoggerRef))
    : Run (ServerConfig + error) :=
  DefaultServerConfig app (EnvVars.Port v) middlewares logger
    (EnvVars.READ_TIMEOUT_MS v) (EnvVars.WRITE_TIMEOUT_MS v) (EnvVars.SHUTDOWN_TIMEOUT_MS v)
    (EnvVars.IDLE_TIMEOUT_MS v) (EnvVars.READ_HEADER_TIMEOUT_MS v).

(** *** What each thread does besides logging *)

Definition is_log (a : action) : bool :=
  match a with
  | Log _ _ _ => true
  | _ => false
  end.

(** The calls and channel operations of the calling thread, in order. *)
Definition is_main_step (a : action) : bool :=
  match a with
  | Spawn | Notify | Recv _ | RecvSignal _ | ShutdownHook | SrvShutdown | SrvClose => true
  | _ => false
  end.

Definition main_steps (tr : list action) : list action := List.filter is_main_step tr.

(** The calls and channel operations of the goroutine, in order. *)
Definition is_go_step (a : action) : bool :=
  match a with
  | StartupHook | ListenAndServe | Send _ => true
  | _ => false
  end.

Definition go_steps (tr : list action) : list action := List.filter is_go_step tr.

(** The startup hook does not fail: there is none, or it returns nil. *)
Definition hook_ok (c : ServerConfig) : Prop := ∀ e, OnStartup c ≠ Some (Some e).

(** The startup hook's part of [go_steps]: one call when a hook is
    supplied. *)
Definition start_part (c : ServerConfig) : list action :=
  match OnStartup c with
  | Some _ => [StartupHook]
  | None => []
  end.

(** What the goroutine does before it sends an error or ends: the hook
    alone when the hook fails, else the hook, if any, and the listener. *)
Definition go_before_send (c : ServerConfig) : list action :=
  match OnStartup c with
  | Some (Some _) => [StartupHook]
  | _ => (start_part c ++ [ListenAndServe])%list
  end.

(** The errors the goroutine can send: the failure of the startup hook,
    or the failure of the listener when it is not [http.ErrServerClosed]. *)
Definition go_sends (c : ServerConfig) (w : World) (e : error) : Prop :=
  match OnStartup c with
  | Some (Some e0) => e = hook_error e0
  | _ => ∃ e1, listen_fails w = Some e1 ∧ is_server_closed e1 = false ∧
               e = ErrWrap "server failed: " e1
  end.

(** The call of [srv.Close], made when [srv.Shutdown] fails. *)
Definition close_part (w : World) : list action :=
  match shutdown_err w with
  | Some _ => [SrvClose]
  | None => []
  end.

(** What the calling thread has done, by where it stands.  It panics
    before anything is started, on a nil logger or when the router cannot
    be prepared.  It returns in one of three ways: before anything is
    started, with the validation error; out of the [select] with the error
    received from the goroutine; or, after a signal, through the shutdown
    hook, [srv.Shutdown] and, if that failed, [srv.Close], with the result
    of the shutdown. *)
Definition main_account (c : ServerConfig) (w : World) (pc : main_pc)
    (steps : list action) : Prop :=
  match pc with
  | MStart => steps = []
  | MPanicked => steps = [] ∧ (Logger c = None ∨ valid c ∧ ¬ mountable c)
  | MNotify => steps = [Spawn] ∧ valid c
  | MSelect => steps = [Spawn; Notify] ∧ valid c
  | MHook => valid c ∧ ∃ s, steps = [Spawn; Notify; RecvSignal s]
  | MShutdown =>
      valid c ∧ ∃ s, steps = ([Spawn; Notify; RecvSignal s] ++ hook_part c)%list
  | MClose err =>
      valid c ∧ shutdown_err w = Some err ∧
      ∃ s, steps = ([Spawn; Notify; RecvSignal s] ++ hook_part c ++ [SrvShutdown])%list
  | MReturned r =>
      (steps = [] ∧ ¬ valid c ∧
       ∃ e, r = Some (ErrWrap "invalid server configuration: " e) ∧
            snd (Validate c) = Done (Some e)) ∨
      (valid c ∧ ∃ e, steps = [Spawn; Notify; Recv e] ∧ r = Some e) ∨
      (valid c ∧ r = shutdown_result w ∧
       ∃ s, steps = ([Spawn; Notify; RecvSignal s] ++ hook_part c ++ [SrvShutdown]
                     ++ close_part w)%list)
  end.

Definition main_inv (c : ServerConfig) (w : World) (st : State) : Prop :=
  main_account c w (mpc st) (main_steps (trace st)) ∧
  (∀ s, stopChan st = Some s → Delivered s ∈ trace st) ∧
  (∀ s, RecvSignal s ∈ trace st → Delivered s ∈ trace st).

(** What the goroutine has done, by where it stands. *)
Definition go_account (c : ServerConfig) (w : World) (pc : go_pc)
    (steps : list action) : Prop :=
  match pc with
  | GNone | GStart => steps = []
  | GHook => steps = [] ∧ OnStartup c ≠ None
  | GReady => steps = start_part c ∧ hook_ok c
  | GListening => steps = go_before_send c ∧ hook_ok c
  | GSend e => steps = go_before_send c ∧ go_sends c w e
  | GDone =>
      (steps = go_before_send c ∧ hook_ok c) ∨
      ∃ e, steps = (go_before_send c ++ [Send e])%list ∧ go_sends c w e
  end.

(** The goroutine's account, and what the error channel holds: it is
    empty as long as the goroutine runs, and what the calling thread
    receives from it has been sent. *)
Definition go_inv (c : ServerConfig) (w : World) (st : State) : Prop :=
  go_account c w (gpc st) (go_steps (trace st)) ∧
  (gpc st ≠ GDone → serverErrors st = None) ∧
  (∀ e, serverErrors st = Some e → Send e ∈ trace st) ∧
  (∀ e, Recv e ∈ trace st → Send e ∈ trace st) ∧
  (gpc st ≠ GNone → valid c) ∧
  (mpc st = MStart → gpc st = GNone).

(** A configuration that passes validation, without hooks. *)
Definition plain_config : ServerConfig :=
  {| App := Some app_router; Port := ":8080"; Middlewares := [];
     ReadTimeout := 15000000000; WriteTimeout := 15000000000;
     IdleTimeout := 60000000000; ReadHeaderTimeout := 10000000000;
     ShutdownTimeout := 10000000000;
     OnStartup := None; OnShutdown := None;
     Logger := Some (LoggerObj 0) |}.

(** A world whose listener cannot bind its port. *)
Definition port_taken : World :=
  {| listen_fails := Some (ErrNew "listen tcp :8080: bind: address already in use");
     shutdown_err := None; close_err := None |}.

End Server.

(** ** unnamed/part_000 and unnamed/part_005: the first version of the
    settings and of the server *)

Module Legacy.

(** [Variables] and [LoadENVVariables] of package libraries: the result
    is the settings, or the message [log.Fatalf] prints before it ends the
    process. *)
Record Variables := {
  env : string;
  dbURI : string;
  db : string;
  port : string
}.

Definition getEnvOrDefault (e : gmap string string) (key defaultValue : string) : string :=
  let value := EnvVars.Getenv e key in
  if decide (value ≠ "") then value else defaultValue.

Definition LoadENVVariables (f : EnvVars.Dotfile) (e0 : gmap string string)
    : Variables + string :=
  match EnvVars.LoadENV f e0 with
  | (Some msg, _) => inr ("Error loading .env file: " ++ msg)
  | (None, e) =>
      inl {| env := getEnvOrDefault e "ENV" "development";
             dbURI := getEnvOrDefault e "DB_URI" "";
             db := getEnvOrDefault e "DB" "";
             port := getEnvOrDefault e "PORT" ":8080" |}
  end.

Definition Port (v : Variables) : string := port v.

(** What [BuildAndStartServer] does that can be seen from outside. *)
Inductive action :=
| Notify
| Fatalf (msg : string)
| Println (msg : string)
| ListenAndServe (addr : string)
| RecvSignal (s : Server.Signal)
| Sleep
| Delivered (s : Server.Signal).

(** Where [BuildAndStartServer] stands: before [signal.Notify], before
    the settings are loaded, inside [http.ListenAndServe], at
    [<-stopChan], returned, or ended by [log.Fatalf]. *)
Inductive pc :=
| Start
| Loading
| Serving
| Waiting
| Returned
| Exited (code : Z).

Record State := {
  at_ : pc;
  stopChan : option Server.Signal;
  notified : bool;
  killed : bool;
  trace : list action
}.

Definition init : State :=
  {| at_ := Start; stopChan := None; notified := false; killed := false; trace := [] |}.

(** The surroundings: the dotfile, the process environment, and whether
    the listener ever fails ([http.ListenAndServe] returns only then). *)
Record World := {
  dotfile : EnvVars.Dotfile;
  environ : gmap string string;
  listen_fails : bool
}.

Inductive tick :=
| TMain
| TSignal (s : Server.Signal).

Definition move (p : pc) (evs : list action) (st : State) : State :=
  {| at_ := p; stopChan := stopChan st; notified := notified st; killed := killed st;
     trace := trace st ++ evs |}.

(** One step of [BuildAndStartServer]; [None] when it is blocked or has
    ended. *)
Definition step_main (w : World) (st : State) : option State :=
  match at_ st with
  | Start =>
      Some {| at_ := Loading; stopChan := stopChan st; notified := true;
              killed := killed st; trace := trace st ++ [Notify] |}
  | Loading =>
      match LoadENVVariables (dotfile w) (environ w) with
      | inr msg => Some (move (Exited 1) [Fatalf msg] st)
      | inl env =>
          Some (move Serving [Println "Starting server on port"; ListenAndServe (Port env)] st)
      end
  | Serving => if listen_fails w then Some (move Waiting [] st) else None
  | Waiting =>
      match stopChan st with
      | Some s =>
          Some {| at_ := Returned; stopChan := None; notified := notified st;
                  killed := killed st;
                  trace := trace st ++ [RecvSignal s; Println "Shutting down"; Sleep] |}
      | None => None
      end
  | Returned | Exited _ => None
  end.

(** The arrival of a signal: before [signal.Notify] it ends the process;
    afterwards it is put into [stopChan], or dropped when the channel is
    full. *)
Definition step_signal (s : Server.Signal) (st : State) : option State :=
  if notified st then
    Some {| at_ := at_ st;
            stopChan := match stopChan st with None => Some s | Some s0 => Some s0 end;
            notified := true; killed := killed st; trace := trace st ++ [Delivered s] |}
  else
    Some {| at_ := at_ st; stopChan := stopChan st; notified := false; killed := true;
            trace := trace st ++ [Delivered s] |}.

Definition step (w : World) (t : tick) (st : State) : option State :=
  if killed st then None
  else
    match at_ st with
    | Exited _ => None
    | _ =>
        match t with
        | TMain => step_main w st
        | TSignal s => step_signal s st
        end
    end.

Definition tick_once (w : World) (st : State) (t : tick) : State :=
  default st (step w t st).

Definition run (w : World) (sched : list tick) (st : State) : State :=
  foldl (tick_once w) st sched.

(** The process is alive: neither ended by a signal nor by [log.Fatalf]. *)
Definition alive (st : State) : Prop :=
  killed st = false ∧ ∀ code, at_ st ≠ Exited code.

(** What holds at every moment: a signal ends the process only before
    [signal.Notify]; the listener is started only with settings that were
    loaded; [<-stopChan] is reached only when the listener has failed; and
    the function returns only after it took a delivered signal from the
    channel. *)
Definition legacy_inv (w : World) (st : State) : Prop :=
  (killed st = true → notified st = false) ∧
  (at_ st ≠ Start → notified st = true) ∧
  (∀ s, stopChan st = Some s → Delivered s ∈ trace st) ∧
  (∀ addr, ListenAndServe addr ∈ trace st →
     ∃ v, LoadENVVariables (dotfile w) (environ w) = inl v ∧ addr = Port v) ∧
  match at_ st with
  | Start | Loading => ∀ addr, ListenAndServe addr ∉ trace st
  | Serving => ∃ v, LoadENVVariables (dotfile w) (environ w) = inl v
  | Waiting => listen_fails w = true
  | Returned => listen_fails w = true ∧ ∃ s, Delivered s ∈ trace st
  | Exited code =>
      code = 1%Z ∧ (∃ msg, LoadENVVariables (dotfile w) (environ w) = inr msg) ∧
      ∀ addr, ListenAndServe addr ∉ trace st
  end.

(** A world whose dotfile loads and whose listener keeps running. *)
Definition steady : World :=
  {| dotfile := EnvVars.DotVars ∅; environ := ∅; listen_fails := false |}.

End Legacy.

(** * Properties *)

(** ** Levels and sinks *)

(** The five levels are ranked in the order DEBUG, INFO, WARN, ERROR,
    FATAL, and every other string ranks as low as DEBUG. *)
Lemma rank_levels :
  rank LevelDebug = 0%Z ∧ rank LevelInfo = 1%Z ∧ rank LevelWarn = 2%Z ∧
  rank LevelError = 3%Z ∧ rank LevelFatal = 4%Z.
Proof. repeat split; vm_compute; reflexivity. Qed.

Lemma rank_bounds (level : LogLevel) : (0 ≤ rank level ≤ 4)%Z.
Proof.
  unfold rank, levels.
  repeat (rewrite lookup_insert; case_decide; [simpl; lia|]).
  rewrite lookup_empty. simpl. lia.
Qed.

(** The write loop calls [Write] once on each sink, in the order of the
    list, whether or not a write fails. *)
Lemma sink_writes_write_all (write_err : Writer → option string) ws line :
  sink_writes (write_all write_err ws line) = ws.
Proof.
  induction ws as [|w ws IH]; [reflexivity|].
  cbn [write_all]. destruct (write_err w);
    (transitivity (w :: sink_writes (write_all write_err ws line));
     [reflexivity | by f_equal]).
Qed.

Lemma written_lines_write_all (write_err : Writer → option string) ws line :
  written_lines (write_all write_err ws line) = replicate (length ws) line.
Proof.
  induction ws as [|w ws IH]; [reflexivity|].
  cbn [write_all length replicate]. destruct (write_err w);
    (transitivity (line :: written_lines (write_all write_err ws line));
     [reflexivity | by f_equal]).
Qed.

Lemma exits_write_all (write_err : Writer → option string) ws line :
  exits (write_all write_err ws line) = false.
Proof.
  induction ws as [|w ws IH]; [reflexivity|].
  cbn [write_all]. destruct (write_err w);
    (transitivity (exits (write_all write_err ws line)); [reflexivity | done]).
Qed.

Lemma sink_writes_app evs1 evs2 :
  sink_writes (evs1 ++ evs2) = (sink_writes evs1 ++ sink_writes evs2)%list.
Proof. unfold sink_writes. apply omap_app. Qed.

Lemma written_lines_app evs1 evs2 :
  written_lines (evs1 ++ evs2) = (written_lines evs1 ++ written_lines evs2)%list.
Proof. unfold written_lines. apply omap_app. Qed.

Lemma exits_app evs1 evs2 : exits (evs1 ++ evs2) = exits evs1 || exits evs2.
Proof. unfold exits. apply existsb_app. Qed.

(** ** pkg/logger/logger.go *)

(** The context fields of an entry are strings, so the entry always
    serialises. *)
Lemma put_id_strings key field ctx fields :
  map_Forall (λ _ v, is_Some (marshal_value v)) fields →
  map_Forall (λ _ v, is_Some (marshal_value v)) (LoggerCtx.put_id key field ctx fields).
Proof.
  intros H. unfold LoggerCtx.put_id.
  destruct (LoggerCtx.ctx_string ctx key) as [s|]; [|done].
  case_decide; [done|].
  apply map_Forall_insert_2; [by eexists|done].
Qed.

Lemma context_fields_marshal ctx :
  is_Some (marshal_map (LoggerCtx.context_fields ctx)).
Proof.
  unfold marshal_map. rewrite decide_True; [by eexists|].
  unfold LoggerCtx.context_fields.
  do 2 apply put_id_strings. apply map_Forall_empty.
Qed.

Lemma json_Marshal_entry now level msg ctx svc :
  is_Some (LoggerCtx.json_Marshal
    {| LoggerCtx.Timestamp := now; LoggerCtx.Level := level; LoggerCtx.Message := msg;
       LoggerCtx.Context_ := LoggerCtx.context_fields ctx; LoggerCtx.Service := svc |}).
Proof.
  unfold LoggerCtx.json_Marshal. simpl.
  destruct (context_fields_marshal ctx) as [c ->]. by eexists.
Qed.

(** C1. With minimum level [L] configured, a call at severity [S] whose
    rank is below the rank of [L] writes to no sink, and a call whose rank
    is at least the rank of [L] calls [Write] exactly once on each
    configured sink, in the order of the sink list, with one and the same
    line.  The ranks are those of the fixed order
    DEBUG < INFO < WARN < ERROR < FATAL. *)
Theorem log_filters_by_level
    (Sprintf : string → list value → string) (write_err : Writer → option string)
    (now : string) (l : LoggerCtx.JSONLogger) (ctx : LoggerCtx.Context)
    (S : LogLevel) (msg : string) (args : list value) :
  (rank LevelDebug < rank LevelInfo < rank LevelWarn)%Z ∧
  (rank LevelWarn < rank LevelError < rank LevelFatal)%Z ∧
  ((rank S < rank (LoggerCtx.minLevel l))%Z →
     sink_writes (LoggerCtx.log Sprintf write_err now l ctx S msg args) = []) ∧
  ((rank (LoggerCtx.minLevel l) ≤ rank S)%Z →
     sink_writes (LoggerCtx.log Sprintf write_err now l ctx S msg args)
       = LoggerCtx.writers l ∧
     ∃ line,
       written_lines (LoggerCtx.log Sprintf write_err now l ctx S msg args)
         = replicate (length (LoggerCtx.writers l)) line ∧
       l_level line = S).
Proof.
  split; [vm_compute; done|]. split; [vm_compute; done|].
  unfold LoggerCtx.log, LoggerCtx.shouldLog. split.
  - intros Hlt. rewrite bool_decide_eq_false_2 by lia. reflexivity.
  - intros Hle. rewrite bool_decide_eq_true_2 by lia. simpl.
    match goal with |- context [LoggerCtx.json_Marshal ?e] =>
      destruct (json_Marshal_entry now S
        (if bool_decide (0 < length args) then Sprintf msg args else msg)
        (default ∅ ctx) (LoggerCtx.service l)) as [line Hline]
    end.
    rewrite Hline. split.
    + rewrite sink_writes_app, sink_writes_write_all.
      destruct (decide (S = LevelFatal)); exact (app_nil_r _).
    + exists line. split.
      * rewrite written_lines_app, written_lines_write_all.
        destruct (decide (S = LevelFatal)); exact (app_nil_r _).
      * unfold LoggerCtx.json_Marshal in Hline. simpl in Hline.
        destruct (marshal_map _); [|done]. by inversion Hline.
Qed.

Lemma log_filters_by_level_witness :
  let l := {| LoggerCtx.writers := [Stdout; File "logs/app.log"];
              LoggerCtx.service := "svc"; LoggerCtx.minLevel := LevelWarn |} in
  sink_writes (LoggerCtx.log (λ s _, s) (λ _, None) "2026-01-01T00:00:00Z" l None
                 LevelInfo "skipped" []) = [] ∧
  sink_writes (LoggerCtx.log (λ s _, s) (λ _, None) "2026-01-01T00:00:00Z" l None
                 LevelError "kept" []) = [Stdout; File "logs/app.log"].
Proof.
  intros l.
  pose proof (log_filters_by_level (λ s _, s) (λ _, None) "2026-01-01T00:00:00Z" l None
                LevelInfo "skipped" []) as (_ & _ & Hlow & _).
  pose proof (log_filters_by_level (λ s _, s) (λ _, None) "2026-01-01T00:00:00Z" l None
                LevelError "kept" []) as (_ & _ & _ & Hhigh).
  split.
  - apply Hlow. vm_compute. reflexivity.
  - apply Hhigh. vm_compute. intros H. discriminate H.
Defined.

(** ** unnamed/part_006: the store *)

Section LoggerFieldsFacts.
Import LoggerFields.

Lemma alter_known {A} (f : A → A) (m : gmap loc A) p x :
  m !! p = Some x → alter f p m = <[p := f x]> m.
Proof.
  intros H. apply map_eq. intros q. rewrite lookup_alter, lookup_insert.
  case_decide; [by rewrite H|done].
Qed.

(** Assigning to a map that exists cannot panic; it rewrites that map
    and nothing else. *)
Lemma assign_each_some kvs p m s :
  maps s !! p = Some m →
  assign_each (Some p) kvs s = (Ret tt, set_maps (insert p (fill kvs m)) s).
Proof.
  revert m s. induction kvs as [|[k v] rest IH]; intros m s Hp.
  - simpl. unfold mret, M_ret, set_maps. destruct s as [lg mp o]. simpl in *.
    by rewrite insert_id.
  - cbn [assign_each]. unfold mbind, M_bind, map_assign.
    rewrite (IH (<[k := v]> m)).
    + unfold set_maps. simpl. rewrite (alter_known _ _ _ m Hp).
      by rewrite insert_insert_eq.
    + unfold set_maps. simpl. rewrite (alter_known _ _ _ m Hp).
      apply lookup_insert_eq.
Qed.

(** Assigning to the nil map panics at the first entry, and does nothing
    when there is no entry. *)
Lemma assign_each_nil kvs s :
  assign_each None kvs s =
    match kvs with
    | [] => (Ret tt, s)
    | _ => (Panicked nil_map_write, s)
    end.
Proof. destruct kvs as [|[k v] rest]; reflexivity. Qed.

(** A loop over the entries of [src] leaves [src] laid over the old
    content. *)
Lemma fill_union kvs m :
  NoDup kvs.*1 → fill kvs m = list_to_map kvs ∪ m.
Proof.
  revert m. induction kvs as [|[k v] rest IH]; intros m Hnd.
  - simpl. by rewrite (left_id_L ∅ (∪)).
  - inversion Hnd as [|? ? Hk Hrest]; subst.
    cbn [fill foldl fst snd]. fold (fill rest (<[k:=v]> m)).
    rewrite IH by done. simpl.
    rewrite <- insert_union_l, insert_union_r; [done|].
    by apply not_elem_of_list_to_map_1.
Qed.

Lemma fill_map_to_list (src m : gmap string value) :
  fill (map_to_list src) m = src ∪ m.
Proof.
  rewrite fill_union by apply NoDup_fst_map_to_list.
  by rewrite list_to_map_to_list.
Qed.

Lemma fields_of_eq s l lg :
  loggers s !! l = Some lg →
  fields_of s l = match context lg with
                  | Some p => default ∅ (maps s !! p)
                  | None => ∅
                  end.
Proof. intros H. unfold fields_of. by rewrite H. Qed.

(** [copyContext] in full: nil without allocation for a logger without
    fields, else a new map with the same fields. *)
Lemma copyContext_spec s l lg :
  loggers s !! l = Some lg →
  copyContext l s =
    if decide (fields_of s l = ∅) then (Ret None, s)
    else (Ret (Some (fresh (dom (maps s)))),
          set_maps (insert (fresh (dom (maps s))) (fields_of s l)) s).
Proof.
  intros Hl. unfold copyContext, mbind, M_bind, read_logger. rewrite Hl.
  rewrite (fields_of_eq _ _ _ Hl).
  unfold read_map.
  set (m := match context lg with Some p => default ∅ (maps s !! p) | None => ∅ end).
  assert (Hm : (match context lg with
                | Some p => (Ret (default ∅ (maps s !! p)), s)
                | None => (Ret ∅, s)
                end) = (Ret m, s)) by (unfold m; by destruct (context lg)).
  rewrite Hm. clear Hm.
  destruct (decide (size m = 0)) as [Hz|Hnz].
  - rewrite decide_True by (by apply map_size_empty_iff). reflexivity.
  - rewrite decide_False by (by apply map_size_non_empty_iff).
    unfold make_map.
    rewrite (assign_each_some _ _ ∅) by (unfold set_maps; simpl; apply lookup_insert_eq).
    unfold mret, M_ret, set_maps. simpl.
    rewrite insert_insert_eq, fill_map_to_list, (right_id_L ∅ (∪)). reflexivity.
Qed.

End LoggerFieldsFacts.

Section LoggerFieldsDerive.
Import LoggerFields.

Lemma insert_twice {A} (m : gmap nat A) i x y : <[i := x]> (<[i := y]> m) = <[i := x]> m.
Proof. apply insert_insert_eq. Qed.

Lemma alter_inserted {A} (f : A → A) (m : gmap nat A) i x :
  alter f i (<[i := x]> m) = <[i := f x]> m.
Proof. apply alter_insert_eq. Qed.

(** [clone] in full. *)
Lemma clone_spec s l lg :
  loggers s !! l = Some lg →
  clone l s =
    if decide (fields_of s l = ∅) then
      (Ret (fresh (dom (loggers s))),
       set_loggers (insert (fresh (dom (loggers s))) (child_struct lg None (traceID lg))) s)
    else
      (Ret (fresh (dom (loggers s))),
       set_loggers (insert (fresh (dom (loggers s)))
                      (child_struct lg (Some (fresh (dom (maps s)))) (traceID lg)))
         (set_maps (insert (fresh (dom (maps s))) (fields_of s l)) s)).
Proof.
  intros Hl. unfold clone, mbind, M_bind. unfold read_logger at 1. rewrite Hl.
  rewrite (copyContext_spec _ _ _ Hl).
  destruct (decide (fields_of s l = ∅)); reflexivity.
Qed.

(** What a derivation does to the store and how it ends, in full.  The
    child's struct is new; so is its map, when it has one. *)
Lemma derive_spec s l lg d :
  loggers s !! l = Some lg →
  derive d l s =
    if decide (fields_of s l = ∅) then
      (if decide (added d = ∅) then Ret (fresh (dom (loggers s)))
       else Panicked nil_map_write,
       set_loggers (insert (fresh (dom (loggers s)))
                      (child_struct lg None (trace_after d lg))) s)
    else
      (Ret (fresh (dom (loggers s))),
       set_loggers (insert (fresh (dom (loggers s)))
                      (child_struct lg (Some (fresh (dom (maps s)))) (trace_after d lg)))
         (set_maps (insert (fresh (dom (maps s))) (added d ∪ fields_of s l)) s)).
Proof.
  intros Hl.
  destruct d as [fields|key v|t]; cbn [derive added trace_after];
    unfold WithContext, WithField, WithTraceID, mbind, M_bind;
    rewrite (clone_spec _ _ _ Hl);
    destruct (decide (fields_of s l = ∅)) as [He|Hne];
    unfold read_logger, set_loggers at 1; cbn [loggers maps out];
    rewrite ?lookup_insert_eq; cbn [context child_struct].
  - (* WithContext, parent without fields *)
    rewrite assign_each_nil.
    destruct (decide (fields = ∅)) as [->|Hf].
    + rewrite map_to_list_empty. reflexivity.
    + destruct (map_to_list fields) eqn:Hl'; [|reflexivity].
      by apply map_to_list_empty_iff in Hl'.
  - (* WithContext, parent with fields *)
    rewrite (assign_each_some _ _ (fields_of s l))
      by (cbn [maps]; apply lookup_insert_eq).
    unfold mret, M_ret, set_maps, set_loggers. cbn [loggers maps out context child_struct].
    by rewrite insert_twice, fill_map_to_list.
  - (* WithField, parent without fields *)
    rewrite decide_False by apply insert_non_empty. reflexivity.
  - (* WithField, parent with fields *)
    unfold map_assign, mret, M_ret, set_maps, set_loggers. cbn [loggers maps out context child_struct].
    rewrite alter_inserted.
    by rewrite (insert_union_singleton_l (fields_of s l)).
  - (* WithTraceID, parent without fields *)
    rewrite decide_True by done.
    unfold write_logger, mret, M_ret, set_loggers. cbn [loggers maps out context child_struct].
    by rewrite insert_twice.
  - (* WithTraceID, parent with fields *)
    unfold write_logger, mret, M_ret, set_loggers, set_maps. cbn [loggers maps out context child_struct].
    by rewrite insert_twice, (left_id_L ∅ (∪)).
Qed.

Lemma fresh_logger_new s q (lg : JSONLogger) :
  loggers s !! q = Some lg → fresh (dom (loggers s)) ≠ q.
Proof.
  intros H <-. apply (is_fresh (dom (loggers s))).
  apply elem_of_dom. by eexists.
Qed.

Lemma fresh_map_new s p (m : gmap string value) :
  maps s !! p = Some m → fresh (dom (maps s)) ≠ p.
Proof.
  intros H <-. apply (is_fresh (dom (maps s))).
  apply elem_of_dom. by eexists.
Qed.

(** A derivation leaves every struct and every map that existed before
    as it was, and writes nothing. *)
Lemma derive_frame s l lg d r s' :
  loggers s !! l = Some lg →
  derive d l s = (r, s') →
  (∀ q lg', loggers s !! q = Some lg' → loggers s' !! q = Some lg') ∧
  (∀ p m, maps s !! p = Some m → maps s' !! p = Some m) ∧
  out s' = out s.
Proof.
  intros Hl Hd. rewrite (derive_spec _ _ _ _ Hl) in Hd.
  destruct (decide (fields_of s l = ∅)); inversion Hd; subst; clear Hd;
    unfold set_loggers, set_maps; cbn [loggers maps out]; (split; [|split; [|done]]).
  - intros q lg' Hq. rewrite lookup_insert_ne; [done|by eapply fresh_logger_new].
  - done.
  - intros q lg' Hq. rewrite lookup_insert_ne; [done|by eapply fresh_logger_new].
  - intros p m Hp. rewrite lookup_insert_ne; [done|by eapply fresh_map_new].
Qed.

Lemma fields_of_frame s s' l lg :
  usable s l →
  loggers s !! l = Some lg →
  (∀ q lg', loggers s !! q = Some lg' → loggers s' !! q = Some lg') →
  (∀ p m, maps s !! p = Some m → maps s' !! p = Some m) →
  fields_of s' l = fields_of s l.
Proof.
  intros (lg0 & Hl0 & Hc) Hl Hlg Hmp.
  rewrite Hl in Hl0. inversion Hl0; subst lg0.
  rewrite (fields_of_eq _ _ _ Hl), (fields_of_eq _ _ _ (Hlg _ _ Hl)).
  destruct (context lg) as [p|]; [|done].
  destruct (Hc p eq_refl) as [m Hm]. by rewrite Hm, (Hmp _ _ Hm).
Qed.

End LoggerFieldsDerive.

Section LoggerFieldsLog.
Import LoggerFields.
Variable Sprintf : string → list value → string.
Variable write_err : Writer → option string.
Variable now : string.

(** [log] in full: its result and its output depend on the logger's
    struct and on the fields its context holds, and on nothing else in
    the store. *)
Lemma log_spec s l lg level msg args :
  loggers s !! l = Some lg →
  let msg' := if bool_decide (0 < length args) then Sprintf msg args else msg in
  fst (log Sprintf write_err now l level msg args s)
    = log_result lg (fields_of s l) now level msg' ∧
  out (snd (log Sprintf write_err now l level msg args s))
    = (out s ++ log_events write_err lg (fields_of s l) now level msg')%list.
Proof.
  intros Hl msg'. unfold log, log_result, log_events, mbind, M_bind.
  unfold read_logger. rewrite Hl.
  destruct (shouldLog lg level); cbn [negb].
  2: { unfold mret, M_ret. cbn. by rewrite app_nil_r. }
  rewrite (copyContext_spec _ _ _ Hl). fold msg'.
  unfold json_Marshal, mbind, M_bind, read_map, mret, M_ret, line_of.
  destruct (decide (fields_of s l = ∅)) as [He|Hne].
  - rewrite He. cbn [Context Timestamp Level Message TraceID Service].
    destruct (marshal_map ∅) as [c|]; cbn.
    + destruct (decide (level = LevelFatal)); cbn;
        by rewrite <- ?app_assoc, ?app_nil_r.
    + done.
  - cbn [Context Timestamp Level Message TraceID Service maps set_maps].
    rewrite lookup_insert_eq.
    change (default ∅ (Some (fields_of s l))) with (fields_of s l).
    destruct (marshal_map (fields_of s l)) as [c|]; cbn.
    + destruct (decide (level = LevelFatal)); cbn;
        by rewrite <- ?app_assoc, ?app_nil_r.
    + done.
Qed.

(** Two stores that agree on a logger's struct, fields and past output
    make its calls end alike and write alike. *)
Lemma log_same s s' l lg level msg args :
  loggers s !! l = Some lg →
  loggers s' !! l = Some lg →
  fields_of s' l = fields_of s l →
  out s' = out s →
  fst (log Sprintf write_err now l level msg args s')
    = fst (log Sprintf write_err now l level msg args s) ∧
  out (snd (log Sprintf write_err now l level msg args s'))
    = out (snd (log Sprintf write_err now l level msg args s)).
Proof.
  intros Hl Hl' Hf Ho.
  destruct (log_spec s l lg level msg args Hl) as [-> ->].
  destruct (log_spec s' l lg level msg args Hl') as [-> ->].
  by rewrite Hf, Ho.
Qed.

End LoggerFieldsLog.

(** ** Deriving child loggers (unnamed/part_006) *)

Section LoggerFieldsClaims.
Import LoggerFields.

(** A logger made by [NewJSONLogger] can be used and carries no field. *)
Lemma NewJSONLogger_fresh mkdir_err open_err cfg s l s' :
  NewJSONLogger mkdir_err open_err cfg s = (Ret (inl l), s') →
  usable s' l ∧ fields_of s' l = ∅.
Proof.
  unfold NewJSONLogger. destruct cfg as [cfg|]; [|discriminate].
  destruct (Validate cfg); [discriminate|].
  set (ws := if EnableFile cfg then _ else _).
  destruct ws as [ws|e]; [|discriminate].
  unfold mbind, M_bind, make_map, new_logger, mret, M_ret, set_maps, set_loggers.
  cbn [loggers maps out]. intros H. inversion H; subst; clear H.
  unfold usable, fields_of. cbn [loggers maps out].
  rewrite lookup_insert_eq. cbn [context]. rewrite lookup_insert_eq. split; [|done].
  eexists. split; [done|]. cbn [context]. intros p Hp. inversion Hp; subst.
  rewrite lookup_insert_eq. by eexists.
Qed.

End LoggerFieldsClaims.

(** C2. Deriving a child with [WithContext], [WithField] or [WithTraceID]
    leaves the parent as it was, however the derivation ends: the parent's
    struct and fields, and every other struct and map of the store, are
    unchanged, and a call of [log] on the parent ends and writes after the
    derivation exactly as before it, so its entry carries the same context.
    A child that is returned is a new struct with the parent's sink list,
    service and minimum level; its context is nil or a map that did not
    exist before and is not the parent's, holding the parent's fields with
    the added ones laid over them.  [WithTraceID] always returns a child,
    and so do the other two on a parent that carries a field. *)
Theorem derive_leaves_parent_unchanged
    (s : LoggerFields.Store) (l : nat) (d : LoggerFields.derivation)
    (r : LoggerFields.outcome nat) (s' : LoggerFields.Store) :
  LoggerFields.usable s l →
  LoggerFields.derive d l s = (r, s') →
  ∃ lg,
    LoggerFields.loggers s !! l = Some lg ∧
    LoggerFields.loggers s' !! l = Some lg ∧
    LoggerFields.fields_of s' l = LoggerFields.fields_of s l ∧
    (∀ q lg', LoggerFields.loggers s !! q = Some lg' →
              LoggerFields.loggers s' !! q = Some lg') ∧
    (∀ p m, LoggerFields.maps s !! p = Some m → LoggerFields.maps s' !! p = Some m) ∧
    LoggerFields.out s' = LoggerFields.out s ∧
    (∀ Sprintf write_err now level msg args,
       fst (LoggerFields.log Sprintf write_err now l level msg args s')
         = fst (LoggerFields.log Sprintf write_err now l level msg args s) ∧
       LoggerFields.out (snd (LoggerFields.log Sprintf write_err now l level msg args s'))
         = LoggerFields.out (snd (LoggerFields.log Sprintf write_err now l level msg args s))) ∧
    (∀ child, r = LoggerFields.Ret child →
       child ≠ l ∧ LoggerFields.loggers s !! child = None ∧
       ∃ lgc,
         LoggerFields.loggers s' !! child = Some lgc ∧
         LoggerFields.writers lgc = LoggerFields.writers lg ∧
         LoggerFields.service lgc = LoggerFields.service lg ∧
         LoggerFields.minLevel lgc = LoggerFields.minLevel lg ∧
         LoggerFields.traceID lgc = LoggerFields.trace_after d lg ∧
         (∀ p, LoggerFields.context lgc = Some p →
               LoggerFields.maps s !! p = None ∧ LoggerFields.context lg ≠ Some p) ∧
         LoggerFields.fields_of s' child
           = LoggerFields.added d ∪ LoggerFields.fields_of s l) ∧
    ((LoggerFields.fields_of s l ≠ ∅ ∨ LoggerFields.added d = ∅) →
       ∃ child, r = LoggerFields.Ret child).
Proof.
  intros Hu Hd. pose proof Hu as (lg & Hl & Hctx). exists lg.
  destruct (derive_frame _ _ _ _ _ _ Hl Hd) as (Hlg & Hmp & Hout).
  pose proof (fields_of_frame _ _ _ _ Hu Hl Hlg Hmp) as Hf.
  split; [done|]. split; [by apply Hlg|]. split; [done|].
  split; [done|]. split; [done|]. split; [done|]. split.
  { intros. apply (log_same _ _ _ s s' l lg); [done|by apply Hlg|done|done]. }
  rewrite (derive_spec _ _ _ _ Hl) in Hd.
  assert (Hq : LoggerFields.loggers s !! fresh (dom (LoggerFields.loggers s)) = None)
    by (apply not_elem_of_dom, is_fresh).
  assert (Hp : LoggerFields.maps s !! fresh (dom (LoggerFields.maps s)) = None)
    by (apply not_elem_of_dom, is_fresh).
  destruct (decide (LoggerFields.fields_of s l = ∅)) as [He|Hne].
  - split.
    + intros child ->. inversion Hd as [[Hr Hs]].
      destruct (decide (LoggerFields.added d = ∅)) as [Ha|]; [|discriminate].
      inversion Hr; subst child. clear Hr.
      split; [intros Heq; rewrite Heq in Hq; congruence|]. split; [done|].
      eexists. unfold LoggerFields.set_loggers. cbn [LoggerFields.loggers].
      split; [apply lookup_insert_eq|]. repeat (split; [reflexivity|]).
      split; [intros p; discriminate|].
      rewrite Ha, He, (left_id_L ∅ (∪)).
      unfold LoggerFields.fields_of. cbn [LoggerFields.loggers].
      by rewrite lookup_insert_eq.
    + intros [Hne|Ha]; [done|]. rewrite decide_True in Hd by done.
      inversion Hd. by eexists.
  - split.
    + intros child ->. inversion Hd as [[Hr Hs]]. clear Hd.
      split; [intros Heq; rewrite Heq in Hq; congruence|]. split; [done|].
      eexists. unfold LoggerFields.set_loggers, LoggerFields.set_maps.
      cbn [LoggerFields.loggers LoggerFields.maps].
      split; [apply lookup_insert_eq|]. repeat (split; [reflexivity|]).
      split.
      * intros p Hpp. inversion Hpp; subst p. split; [done|].
        intros Hc. destruct (Hctx _ Hc) as [m Hm]. congruence.
      * generalize (LoggerFields.added d ∪ LoggerFields.fields_of s l). intros m.
        unfold LoggerFields.fields_of. cbn [LoggerFields.loggers LoggerFields.maps].
        rewrite lookup_insert_eq. cbn [LoggerFields.context LoggerFields.child_struct].
        by rewrite lookup_insert_eq.
    + intros _. inversion Hd. by eexists.
Qed.

Lemma derive_leaves_parent_unchanged_witness :
  let d := LoggerFields.ByField "request" (VInt 7) in
  let r := LoggerFields.derive d 0 LoggerFields.sample_store in
  LoggerFields.usable LoggerFields.sample_store 0 ∧
  LoggerFields.fields_of (snd r) 0 = LoggerFields.fields_of LoggerFields.sample_store 0 ∧
  LoggerFields.out (snd r) = LoggerFields.out LoggerFields.sample_store ∧
  ∃ child, fst r = LoggerFields.Ret child.
Proof.
  intros d r.
  assert (Hu : LoggerFields.usable LoggerFields.sample_store 0).
  { eexists. split; [vm_compute; reflexivity|].
    intros p Hp. inversion Hp; subst p. eexists. vm_compute. reflexivity. }
  destruct (derive_leaves_parent_unchanged LoggerFields.sample_store 0 d (fst r) (snd r)
              Hu (surjective_pairing _))
    as (lg & _ & _ & Hf & _ & _ & Ho & _ & _ & Htotal).
  split; [exact Hu|]. split; [exact Hf|]. split; [exact Ho|].
  apply Htotal. left. vm_compute. intros H. discriminate H.
Defined.

(** C10, as stated, fails: [WithContext] with an empty field map returns
    a child from a logger that carries no field, here the logger
    [NewJSONLogger] has just made. *)
Lemma WithContext_succeeds_without_fields :
  ¬ (∀ (s : LoggerFields.Store) (l : nat) (fields : gmap string value)
       (child : nat) (s' : LoggerFields.Store),
       LoggerFields.usable s l →
       LoggerFields.WithContext l fields s = (LoggerFields.Ret child, s') →
       LoggerFields.fields_of s l ≠ ∅).
Proof.
  intros H.
  pose (r := LoggerFields.NewJSONLogger None None
               (Some (LoggerFields.DefaultConfig "svc")) LoggerFields.empty_store).
  assert (Hr : r = (LoggerFields.Ret (inl 0), snd r)) by (vm_compute; reflexivity).
  destruct (NewJSONLogger_fresh _ _ _ _ _ _ Hr) as [Hu Hf].
  apply (H (snd r) 0 ∅ 1 (snd (LoggerFields.WithContext 0 ∅ (snd r))) Hu); [|exact Hf].
  vm_compute. reflexivity.
Qed.

(** C10, amended. From a logger that carries no field (such as one just
    made by [NewJSONLogger]), [copyContext] returns nil, the clone's
    context is nil, [WithField] panics with a write to a nil map, and so
    does [WithContext] whenever it is given at least one field;
    [WithContext] with no field returns a child whose context is nil.  From
    a logger that carries a field both always return a child.  So a
    derivation that adds a field succeeds exactly on the loggers that
    already carry one. *)
Theorem derive_needs_parent_fields (s : LoggerFields.Store) (l : nat) :
  LoggerFields.usable s l →
  (LoggerFields.fields_of s l = ∅ →
     fst (LoggerFields.copyContext l s) = LoggerFields.Ret None ∧
     (∃ q lgc, fst (LoggerFields.clone l s) = LoggerFields.Ret q ∧
               LoggerFields.loggers (snd (LoggerFields.clone l s)) !! q = Some lgc ∧
               LoggerFields.context lgc = None) ∧
     (∀ key v, fst (LoggerFields.WithField l key v s)
                 = LoggerFields.Panicked LoggerFields.nil_map_write) ∧
     (∀ fields, fields ≠ ∅ →
                fst (LoggerFields.WithContext l fields s)
                  = LoggerFields.Panicked LoggerFields.nil_map_write) ∧
     (∃ child lgc,
        fst (LoggerFields.WithContext l ∅ s) = LoggerFields.Ret child ∧
        LoggerFields.loggers (snd (LoggerFields.WithContext l ∅ s)) !! child = Some lgc ∧
        LoggerFields.context lgc = None)) ∧
  (LoggerFields.fields_of s l ≠ ∅ →
     (∀ key v, ∃ child, fst (LoggerFields.WithField l key v s) = LoggerFields.Ret child) ∧
     (∀ fields, ∃ child, fst (LoggerFields.WithContext l fields s) = LoggerFields.Ret child)) ∧
  (∀ d, LoggerFields.added d ≠ ∅ →
        ((∃ child, fst (LoggerFields.derive d l s) = LoggerFields.Ret child)
         ↔ LoggerFields.fields_of s l ≠ ∅)).
Proof.
  intros (lg & Hl & Hctx).
  assert (Hwf : ∀ key v, LoggerFields.WithField l key v s
                         = LoggerFields.derive (LoggerFields.ByField key v) l s) by done.
  assert (Hwc : ∀ fields, LoggerFields.WithContext l fields s
                          = LoggerFields.derive (LoggerFields.ByContext fields) l s) by done.
  split; [|split].
  - intros He. split; [|split; [|split; [|split]]].
    + rewrite (copyContext_spec _ _ _ Hl), decide_True by done. reflexivity.
    + rewrite (clone_spec _ _ _ Hl), decide_True by done.
      eexists _, _. split; [reflexivity|].
      unfold LoggerFields.set_loggers. cbn [snd LoggerFields.loggers].
      split; [apply lookup_insert_eq|reflexivity].
    + intros key v. rewrite Hwf, (derive_spec _ _ _ _ Hl), decide_True by done.
      cbn [fst LoggerFields.added].
      rewrite decide_False by apply insert_non_empty. reflexivity.
    + intros fields Hne. rewrite Hwc, (derive_spec _ _ _ _ Hl), decide_True by done.
      cbn [fst LoggerFields.added]. by rewrite decide_False.
    + rewrite Hwc, (derive_spec _ _ _ _ Hl), decide_True by done.
      cbn [fst snd LoggerFields.added]. rewrite decide_True by done.
      eexists _, _. split; [reflexivity|].
      unfold LoggerFields.set_loggers. cbn [LoggerFields.loggers].
      split; [apply lookup_insert_eq|reflexivity].
  - intros Hne. split.
    + intros key v. rewrite Hwf, (derive_spec _ _ _ _ Hl), decide_False by done.
      by eexists.
    + intros fields. rewrite Hwc, (derive_spec _ _ _ _ Hl), decide_False by done.
      by eexists.
  - intros d Hadd. rewrite (derive_spec _ _ _ _ Hl).
    destruct (decide (LoggerFields.fields_of s l = ∅)) as [He|Hne].
    + rewrite decide_False by done. cbn [fst]. split; [intros [child Hc]; discriminate|done].
    + cbn [fst]. split; [done|]. intros _. by eexists.
Qed.

Lemma derive_needs_parent_fields_witness :
  let s := snd (LoggerFields.NewJSONLogger None None
                  (Some (LoggerFields.DefaultConfig "svc")) LoggerFields.empty_store) in
  LoggerFields.usable s 0 ∧
  LoggerFields.fields_of s 0 = ∅ ∧
  fst (LoggerFields.WithField 0 "request" (VInt 7) s)
    = LoggerFields.Panicked LoggerFields.nil_map_write.
Proof.
  intros s.
  assert (Hu : LoggerFields.usable s 0).
  { eexists. split; [vm_compute; reflexivity|].
    intros p Hp. inversion Hp; subst p. eexists. vm_compute. reflexivity. }
  assert (Hf : LoggerFields.fields_of s 0 = ∅) by (vm_compute; reflexivity).
  destruct (derive_needs_parent_fields s 0 Hu) as (Hempty & _ & _).
  destruct (Hempty Hf) as (_ & _ & Hfield & _).
  split; [exact Hu|]. split; [exact Hf|]. apply Hfield.
Defined.

(** ** Which calls end the process *)

(** FATAL passes every filter: no minimum level ranks above it. *)
Lemma fatal_passes (minLevel : LogLevel) : (rank minLevel ≤ rank LevelFatal)%Z.
Proof. pose proof (rank_bounds minLevel). replace (rank LevelFatal) with 4%Z; [lia|done]. Qed.




Lemma fields_Fatal_exits_iff_serialises
    (Sprintf : string → list value → string) (write_err : Writer → option string)
    (now : string) (s : LoggerFields.Store) (l : nat) (lg : LoggerFields.JSONLogger)
    (msg : string) (args : list value) :
  LoggerFields.loggers s !! l = Some lg →
  fst (LoggerFields.Fatal Sprintf write_err now l msg args s) = LoggerFields.Exited 1
    ↔ is_Some (marshal_map (LoggerFields.fields_of s l)).
Proof.
  intros Hl. unfold LoggerFields.Fatal.
  destruct (log_spec Sprintf write_err now s l lg LevelFatal msg args Hl) as [-> _].
  unfold LoggerFields.log_result, LoggerFields.shouldLog, LoggerFields.line_of.
  rewrite bool_decide_eq_true_2 by apply fatal_passes. cbn [negb].
  destruct (marshal_map _) as [c|].
  - rewrite decide_True by done. split; [by eexists|done].
  - split; [discriminate|]. intros [c Hc]. discriminate.
Qed.

(** ** Settings (pkg/env/env.go, unnamed/part_004) *)

Lemma wrap64_exact (z : Z) : (- 2 ^ 63 ≤ z < 2 ^ 63)%Z → wrap64 z = z.
Proof. intros H. unfold wrap64. rewrite Z.mod_small; lia. Qed.

Lemma digit_of_range (c : ascii) (d : Z) :
  EnvVars.digit_of c = Some d → (0 ≤ d ≤ 9)%Z.
Proof.
  unfold EnvVars.digit_of. case_bool_decide as Hr; [|discriminate].
  intros Hd. inversion Hd. lia.
Qed.

Lemma digits_value_ge (s : string) (n v : Z) :
  (0 ≤ n)%Z → EnvVars.digits_value s n = Some v → (n ≤ v)%Z.
Proof.
  revert n. induction s as [|c rest IH]; intros n Hn; cbn [EnvVars.digits_value].
  - intros Hv. inversion Hv. lia.
  - destruct (EnvVars.digit_of c) as [d|] eqn:Hd; [|discriminate].
    pose proof (digit_of_range _ _ Hd) as Hdr. intros Hv.
    apply IH in Hv; lia.
Qed.

(** The digit loop of [ParseUint] against the plain value of the digits:
    it fails on a byte that is no digit, and otherwise gives the value when
    it fits 64 bits and a range error when it does not. *)
Lemma parse_uint_spec (s : string) (n : Z) :
  (0 ≤ n ≤ EnvVars.maxUint64)%Z →
  match EnvVars.digits_value s n with
  | None => ∃ e, EnvVars.parse_uint s n = inr e
  | Some v =>
      EnvVars.parse_uint s n
        = if bool_decide (v ≤ EnvVars.maxUint64)%Z then inl v else inr EnvVars.ErrRange
  end.
Proof.
  revert n. induction s as [|c rest IH]; intros n Hn;
    cbn [EnvVars.digits_value EnvVars.parse_uint].
  - by rewrite bool_decide_eq_true_2 by lia.
  - destruct (EnvVars.digit_of c) as [d|] eqn:Hd; [|by eexists].
    pose proof (digit_of_range _ _ Hd) as Hdr.
    change (EnvVars.maxUint64 `div` 10 + 1)%Z with 1844674407370955162%Z.
    change EnvVars.maxUint64 with 18446744073709551615%Z in *.
    assert (Hbig : (18446744073709551615 < n * 10 + d)%Z →
              match EnvVars.digits_value rest (n * 10 + d) with
              | None => ∃ e, @inr Z _ EnvVars.ErrRange = inr e
              | Some v =>
                  @inr Z _ EnvVars.ErrRange =
                    if bool_decide (v ≤ 18446744073709551615)%Z
                    then inl v else inr EnvVars.ErrRange
              end).
    { intros Hlt. destruct (EnvVars.digits_value rest (n * 10 + d)) as [v|] eqn:Hv;
        [|by eexists].
      apply digits_value_ge in Hv; [|lia].
      by rewrite bool_decide_eq_false_2 by lia. }
    case_bool_decide as Hcut; [apply Hbig; lia|].
    case_bool_decide as Hmax; [apply Hbig; lia|].
    apply IH. lia.
Qed.

(** [Atoi] against the numeral a string writes: no numeral, no result; a
    numeral gives its value when that fits the 64-bit signed range and a
    range error when it does not. *)
Lemma Atoi_spec (s : string) :
  match EnvVars.numeral s with
  | None => ∃ e, EnvVars.Atoi s = inr e
  | Some v =>
      EnvVars.Atoi s
        = if bool_decide (- 2 ^ 63 ≤ v < 2 ^ 63)%Z then inl v else inr EnvVars.ErrRange
  end.
Proof.
  unfold EnvVars.Atoi, EnvVars.ParseInt, EnvVars.numeral.
  destruct s as [|c rest]; [by eexists|].
  assert (Hu : ∀ t, t ≠ EmptyString →
            match EnvVars.digits_value t 0 with
            | None => ∃ e, EnvVars.ParseUint t = inr e
            | Some v => (0 ≤ v)%Z ∧
                EnvVars.ParseUint t
                  = if bool_decide (v ≤ EnvVars.maxUint64)%Z
                    then inl v else inr EnvVars.ErrRange
            end).
  { intros t Ht. pose proof (parse_uint_spec t 0) as H.
    assert (H0 : (0 ≤ 0 ≤ EnvVars.maxUint64)%Z) by (vm_compute; split; discriminate).
    specialize (H H0).
    destruct t as [|c' t']; [done|]. unfold EnvVars.ParseUint.
    destruct (EnvVars.digits_value (String c' t') 0) as [v|] eqn:Hv; [|done].
    split; [|done]. by apply digits_value_ge in Hv. }
  change EnvVars.maxUint64 with 18446744073709551615%Z in Hu.
  change (2 ^ 63)%Z with 9223372036854775808%Z.
  destruct (bool_decide (c = "-"%char)) eqn:Hneg.
  - (* a minus sign *)
    rewrite orb_true_r. destruct rest as [|c' rest']; [by eexists|].
    specialize (Hu (String c' rest') ltac:(done)).
    destruct (EnvVars.digits_value (String c' rest') 0) as [v|]; cbn [fmap option_fmap option_map].
    + destruct Hu as [Hv ->]. cbn [negb andb].
      repeat case_bool_decide; try lia; reflexivity.
    + destruct Hu as [e ->]. destruct e; by eexists.
  - rewrite orb_false_r. destruct (bool_decide (c = "+"%char)) eqn:Hplus.
    + (* a plus sign *)
      destruct rest as [|c' rest']; [by eexists|].
      specialize (Hu (String c' rest') ltac:(done)).
      destruct (EnvVars.digits_value (String c' rest') 0) as [v|].
      * destruct Hu as [Hv ->]. cbn [negb andb].
        repeat case_bool_decide; try lia; reflexivity.
      * destruct Hu as [e ->]. destruct e; by eexists.
    + (* no sign *)
      specialize (Hu (String c rest) ltac:(done)).
      destruct (EnvVars.digits_value (String c rest) 0) as [v|].
      * destruct Hu as [Hv ->]. cbn [negb andb].
        repeat case_bool_decide; try lia; reflexivity.
      * destruct Hu as [e ->]. destruct e; by eexists.
Qed.

Lemma GetEnvOrDefault_empty_default (e : gmap string string) (key : string) :
  EnvVars.GetEnvOrDefault e key "" = EnvVars.Getenv e key.
Proof.
  unfold EnvVars.GetEnvOrDefault. cbn zeta. case_decide as H; [done|].
  by destruct (decide (EnvVars.Getenv e key = "")) as [->|].
Qed.

Lemma GetEnvOrDefault_reads_back (e : gmap string string) (key dflt : string) :
  EnvVars.reads_back e key dflt (EnvVars.GetEnvOrDefault e key dflt).
Proof.
  unfold EnvVars.reads_back, EnvVars.GetEnvOrDefault, EnvVars.Getenv. cbn zeta. split.
  - intros s Hs Hne. rewrite Hs. cbn. by rewrite decide_True.
  - intros [H|H]; rewrite H; cbn; by rewrite decide_False by (intros Hc; by apply Hc).
Qed.

(** [parseMsDuration] on every kind of value. *)
Lemma parseMsDuration_spec (val : string) :
  EnvVars.parseMsDuration val =
    if decide (val = "") then inl None
    else
      match EnvVars.numeral val with
      | None => inr (match EnvVars.Atoi val with inr e => e | inl _ => EnvVars.ErrSyntax end)
      | Some v =>
          if bool_decide (- 2 ^ 63 ≤ v < 2 ^ 63)%Z
          then inl (Some (wrap64 (v * EnvVars.Millisecond)))
          else inr EnvVars.ErrRange
      end.
Proof.
  unfold EnvVars.parseMsDuration. case_decide as Hval; [done|].
  pose proof (Atoi_spec val) as Hspec.
  destruct (EnvVars.numeral val) as [v|].
  - rewrite Hspec. by case_bool_decide.
  - destruct Hspec as [e ->]. done.
Qed.

Lemma parseMsDuration_exact (val : string) :
  EnvVars.exact_ms val →
  EnvVars.parseMsDuration val = inl (EnvVars.seeded_duration val).
Proof.
  intros Hex. rewrite parseMsDuration_spec. unfold EnvVars.seeded_duration.
  destruct Hex as [->|(v & Hv & Hr)]; [done|].
  case_decide as Hval; [done|]. rewrite Hv. cbn [fmap option_fmap option_map].
  unfold EnvVars.max_ms in Hr.
  rewrite bool_decide_eq_true_2 by lia.
  rewrite wrap64_exact; [done|]. unfold EnvVars.Millisecond. lia.
Qed.

(** Loading fails as soon as one timeout variable holds a value
    [parseMsDuration] refuses. *)
Lemma LoadENVVariables_bad_timeout (vars e : gmap string string) (key : string) (err : EnvVars.NumError) :
  key ∈ EnvVars.timeout_keys →
  EnvVars.parseMsDuration (EnvVars.Getenv (e ∪ vars) key) = inr err →
  ∃ err', EnvVars.LoadENVVariables (EnvVars.DotVars vars) e = inr (EnvVars.BadDuration err').
Proof.
  intros Hkey Hbad. unfold EnvVars.LoadENVVariables, EnvVars.LoadENV.
  rewrite !GetEnvOrDefault_empty_default.
  unfold EnvVars.timeout_keys in Hkey.
  repeat (apply elem_of_cons in Hkey as [->|Hkey];
          [repeat (match goal with
                   | |- context [EnvVars.parseMsDuration (EnvVars.Getenv (e ∪ vars) ?k)] =>
                       destruct (EnvVars.parseMsDuration (EnvVars.Getenv (e ∪ vars) k))
                         as [?|?] eqn:?; try discriminate; try (by eexists)
                   end)|]).
  by apply elem_of_nil in Hkey.
Qed.

(** C7, as stated, fails: "9223372036855" is numeric, and the duration it
    yields is negative, not 9223372036855 milliseconds. *)
Lemma parseMsDuration_overflows :
  ¬ (∀ (val : string) (v : Z),
       EnvVars.numeral val = Some v →
       EnvVars.parseMsDuration val = inl (Some (v * EnvVars.Millisecond)%Z)).
Proof.
  intros H. specialize (H "9223372036855" 9223372036855%Z eq_refl).
  vm_compute in H. discriminate H.
Qed.

(** C7, amended. For a duration-valued variable: the empty value gives
    "unset" without error; a value that is not empty and not a decimal
    numeral (an optional sign and digits) is refused, and configuration
    loading then fails; a numeral [v] of magnitude at most 9223372036854
    gives exactly [v] milliseconds.  Beyond that, a numeral within the
    64-bit range gives [v] times 1000000 nanoseconds wrapped to 64 bits, and
    a numeral outside it is refused with a range error. *)
Theorem parseMsDuration_cases (val : string) :
  (val = "" → EnvVars.parseMsDuration val = inl None) ∧
  (val ≠ "" → EnvVars.numeral val = None →
     (∃ err, EnvVars.parseMsDuration val = inr err) ∧
     ∀ vars e key,
       key ∈ EnvVars.timeout_keys →
       EnvVars.Getenv (e ∪ vars) key = val →
       ∃ err, EnvVars.LoadENVVariables (EnvVars.DotVars vars) e
                = inr (EnvVars.BadDuration err)) ∧
  (∀ v, EnvVars.numeral val = Some v →
     ((- EnvVars.max_ms ≤ v ≤ EnvVars.max_ms)%Z →
        EnvVars.parseMsDuration val = inl (Some (v * EnvVars.Millisecond)%Z)) ∧
     ((- 2 ^ 63 ≤ v < 2 ^ 63)%Z →
        EnvVars.parseMsDuration val = inl (Some (wrap64 (v * EnvVars.Millisecond)))) ∧
     (¬ (- 2 ^ 63 ≤ v < 2 ^ 63)%Z →
        EnvVars.parseMsDuration val = inr EnvVars.ErrRange)).
Proof.
  split; [by intros ->|]. split.
  - intros Hne Hnum.
    assert (Hbad : ∃ err, EnvVars.parseMsDuration val = inr err).
    { rewrite parseMsDuration_spec, decide_False, Hnum by done. by eexists. }
    split; [done|]. intros vars e key Hkey Hval. destruct Hbad as [err Hbad].
    apply (LoadENVVariables_bad_timeout vars e key err); [done|by rewrite Hval].
  - intros v Hnum.
    assert (Hne : val ≠ "") by (intros ->; discriminate).
    rewrite parseMsDuration_spec, decide_False, Hnum by done.
    split; [|split].
    + intros Hr. unfold EnvVars.max_ms in Hr.
      rewrite bool_decide_eq_true_2 by lia.
      rewrite wrap64_exact; [done|]. unfold EnvVars.Millisecond. lia.
    + intros Hr. by rewrite bool_decide_eq_true_2.
    + intros Hr. by rewrite bool_decide_eq_false_2.
Qed.

Lemma parseMsDuration_cases_witness :
  EnvVars.numeral "5000" = Some 5000%Z ∧
  (- EnvVars.max_ms ≤ 5000 ≤ EnvVars.max_ms)%Z ∧
  EnvVars.parseMsDuration "5000" = inl (Some (5000 * EnvVars.Millisecond)%Z) ∧
  "soon" ≠ "" ∧ EnvVars.numeral "soon" = None ∧
  (∃ err, EnvVars.parseMsDuration "soon" = inr err).
Proof.
  assert (Hr : (- EnvVars.max_ms ≤ 5000 ≤ EnvVars.max_ms)%Z)
    by (vm_compute; split; discriminate).
  assert (Hne : "soon" ≠ "") by discriminate.
  destruct (parseMsDuration_cases "5000") as (_ & _ & Hnum).
  destruct (Hnum 5000%Z eq_refl) as (Hexact & _ & _).
  destruct (parseMsDuration_cases "soon") as (_ & Hbad & _).
  destruct (Hbad Hne eq_refl) as [Herr _].
  split; [reflexivity|]. split; [exact Hr|]. split; [exact (Hexact Hr)|].
  split; [exact Hne|]. split; [reflexivity|exact Herr].
Defined.

(** Without a readable dotfile nothing is built: [godotenv.Load] reports
    the missing or malformed file and [LoadENVVariables] returns that
    error. *)
Lemma LoadENVVariables_needs_dotfile (msg : string) (e : gmap string string) :
  EnvVars.LoadENVVariables (EnvVars.DotError msg) e = inr (EnvVars.DotenvFailed msg).
Proof. reflexivity. Qed.

(** C8, as stated, fails: with every recognised variable set to a value
    that is not empty, the settings are built, and the read timeout read
    back is not the seeded number of milliseconds. *)
Lemma timeout_overflow_breaks_round_trip :
  ¬ (∀ (e : gmap string string) (v : EnvVars.Variables),
       (∀ key, key ∈ EnvVars.recognized_keys → ∃ s, e !! key = Some s ∧ s ≠ "") →
       EnvVars.LoadENVVariables (EnvVars.DotVars ∅) e = inl v →
       EnvVars.READ_TIMEOUT_MS v
         = EnvVars.seeded_duration (EnvVars.Getenv e "READ_TIMEOUT_MS")).
Proof.
  intros H.
  destruct (EnvVars.LoadENVVariables (EnvVars.DotVars ∅) EnvVars.overflow_env)
    as [v|err] eqn:Hload; [|vm_compute in Hload; discriminate Hload].
  specialize (H EnvVars.overflow_env v).
  assert (Hset : ∀ key, key ∈ EnvVars.recognized_keys →
                        ∃ s, EnvVars.overflow_env !! key = Some s ∧ s ≠ "").
  { intros key Hkey. unfold EnvVars.recognized_keys, EnvVars.timeout_keys in Hkey.
    cbn [app] in Hkey.
    repeat (apply elem_of_cons in Hkey as [->|Hkey];
            [eexists; split; [vm_compute; reflexivity|discriminate]|]).
    by apply elem_of_nil in Hkey. }
  specialize (H Hset Hload).
  vm_compute in Hload. inversion Hload; subst v. vm_compute in H. discriminate H.
Qed.

(** C8, amended. Once the dotfile is loaded, and with the timeout
    variables empty, unset, or decimal numerals of magnitude at most
    9223372036854, the settings are built, and each accessor reads back
    what the environment (the process environment, completed by the
    dotfile for the variables it lacks) holds: the seeded string when one is set and not empty, else the
    default ("development", ":8080", or the empty string); for a timeout,
    unset when empty or unset, else the seeded number of milliseconds.
    A variable the process environment sets keeps its value. *)
Theorem settings_round_trip (vars e : gmap string string) :
  (∀ key, key ∈ EnvVars.timeout_keys → EnvVars.exact_ms (EnvVars.Getenv (e ∪ vars) key)) →
  (∀ key s, e !! key = Some s → (e ∪ vars) !! key = Some s) ∧
  ∃ v,
    EnvVars.LoadENVVariables (EnvVars.DotVars vars) e = inl v ∧
    EnvVars.reads_back (e ∪ vars) "ENV" "development" (EnvVars.Env v) ∧
    EnvVars.reads_back (e ∪ vars) "DB_URI" "" (EnvVars.DB_URI v) ∧
    EnvVars.reads_back (e ∪ vars) "DB" "" (EnvVars.DB v) ∧
    EnvVars.reads_back (e ∪ vars) "PORT" ":8080" (EnvVars.Port v) ∧
    EnvVars.reads_back (e ∪ vars) "MODULE_NAME" "" (EnvVars.MODULE_NAME v) ∧
    EnvVars.READ_TIMEOUT_MS v
      = EnvVars.seeded_duration (EnvVars.Getenv (e ∪ vars) "READ_TIMEOUT_MS") ∧
    EnvVars.WRITE_TIMEOUT_MS v
      = EnvVars.seeded_duration (EnvVars.Getenv (e ∪ vars) "WRITE_TIMEOUT_MS") ∧
    EnvVars.SHUTDOWN_TIMEOUT_MS v
      = EnvVars.seeded_duration (EnvVars.Getenv (e ∪ vars) "SHUTDOWN_TIMEOUT_MS") ∧
    EnvVars.IDLE_TIMEOUT_MS v
      = EnvVars.seeded_duration (EnvVars.Getenv (e ∪ vars) "IDLE_TIMEOUT_MS") ∧
    EnvVars.READ_HEADER_TIMEOUT_MS v
      = EnvVars.seeded_duration (EnvVars.Getenv (e ∪ vars) "READ_HEADER_TIMEOUT_MS").
Proof.
  intros Hex. split.
  { intros key s Hs. by apply lookup_union_Some_l. }
  unfold EnvVars.LoadENVVariables, EnvVars.LoadENV.
  assert (Hparse : ∀ key, key ∈ EnvVars.timeout_keys →
            EnvVars.parseMsDuration (EnvVars.GetEnvOrDefault (e ∪ vars) key "")
              = inl (EnvVars.seeded_duration (EnvVars.Getenv (e ∪ vars) key))).
  { intros key Hkey. rewrite GetEnvOrDefault_empty_default.
    by apply parseMsDuration_exact, Hex. }
  rewrite !Hparse by (unfold EnvVars.timeout_keys; set_solver).
  eexists. split; [reflexivity|].
  cbn [EnvVars.Env EnvVars.DB_URI EnvVars.DB EnvVars.Port EnvVars.MODULE_NAME
       EnvVars.READ_TIMEOUT_MS EnvVars.WRITE_TIMEOUT_MS EnvVars.SHUTDOWN_TIMEOUT_MS
       EnvVars.IDLE_TIMEOUT_MS EnvVars.READ_HEADER_TIMEOUT_MS
       EnvVars.env EnvVars.dbURI EnvVars.db EnvVars.port EnvVars.moduleName
       EnvVars.readTimeoutMs EnvVars.writeTimeoutMs EnvVars.shutdownTimeoutMs
       EnvVars.idleTimeoutMs EnvVars.readHeaderTimeoutMs].
  repeat (split; [apply GetEnvOrDefault_reads_back|]).
  repeat split; reflexivity.
Qed.

Lemma settings_round_trip_witness :
  let e : gmap string string :=
    list_to_map [("ENV", "production"); ("PORT", ":9090"); ("READ_TIMEOUT_MS", "5000");
                 ("IDLE_TIMEOUT_MS", "")] in
  let vars : gmap string string :=
    list_to_map [("PORT", ":1"); ("DB", "app"); ("WRITE_TIMEOUT_MS", "-250")] in
  ∃ v,
    EnvVars.LoadENVVariables (EnvVars.DotVars vars) e = inl v ∧
    EnvVars.Env v = "production" ∧ EnvVars.Port v = ":9090" ∧
    EnvVars.DB v = "app" ∧ EnvVars.DB_URI v = "" ∧
    EnvVars.READ_TIMEOUT_MS v = Some 5000000000%Z ∧
    EnvVars.WRITE_TIMEOUT_MS v = Some (-250000000)%Z ∧
    EnvVars.IDLE_TIMEOUT_MS v = None.
Proof.
  intros e vars.
  assert (Hex : ∀ key, key ∈ EnvVars.timeout_keys →
                       EnvVars.exact_ms (EnvVars.Getenv (e ∪ vars) key)).
  { intros key Hkey. unfold EnvVars.timeout_keys in Hkey.
    repeat (apply elem_of_cons in Hkey as [->|Hkey];
            [first [ left; vm_compute; reflexivity
                   | right; eexists; split; [vm_compute; reflexivity|];
                     vm_compute; split; discriminate ]|]).
    by apply elem_of_nil in Hkey. }
  destruct (settings_round_trip vars e Hex)
    as (_ & v & Hload & HEnv & HUri & HDb & HPort & _ & HRead & HWrite & _ & HIdle & _).
  exists v. split; [exact Hload|].
  split; [apply (proj1 HEnv "production"); [vm_compute; reflexivity|discriminate]|].
  split; [apply (proj1 HPort ":9090"); [vm_compute; reflexivity|discriminate]|].
  split; [apply (proj1 HDb "app"); [vm_compute; reflexivity|discriminate]|].
  split; [apply (proj2 HUri); left; vm_compute; reflexivity|].
  split; [rewrite HRead; vm_compute; reflexivity|].
  split; [rewrite HWrite; vm_compute; reflexivity|].
  rewrite HIdle. vm_compute. reflexivity.
Defined.

(** ** The auth routes (unnamed/part_003, pkg/response/response.go) *)

(** The assembled router hands a POST to /auth/register to
    [registerHandler]. *)
Lemma app_routes_register (query : gmap string (list string)) (w : Http.ResponseWriter) :
  Http.ServeHTTP Http.app
    {| Http.Method := "POST"; Http.Path := "/auth/register"; Http.Query := query |} w
  = Http.registerHandler
      {| Http.Method := "POST"; Http.Path := "/auth/register"; Http.Query := query |} w.
Proof. reflexivity. Qed.

(** C9. A POST to /auth/register whose query gives [error] the value
    "validation" is answered with status 422 and a JSON body in which
    [success] is false and [data] is an object with exactly the keys
    [email] and [password]; every other POST to /auth/register is answered
    with status 201 and a body in which [success] is true. *)
Theorem register_responses (r : Http.Request) :
  Http.Method r = "POST" →
  Http.Path r = "/auth/register" →
  (Http.Values_Get (Http.Query r) "error" = "validation" →
     Http.status (Http.ServeHTTP Http.app r Http.new_writer) = Some 422%Z ∧
     ∃ j data,
       Http.body (Http.ServeHTTP Http.app r Http.new_writer) = [Http.Doc j] ∧
       Http.keys j = ["success"; "message"; "data"; "error"] ∧
       Http.member j "success" = Some (Http.JsBool false) ∧
       Http.member j "data" = Some data ∧
       Http.keys data = ["email"; "password"]) ∧
  (Http.Values_Get (Http.Query r) "error" ≠ "validation" →
     Http.status (Http.ServeHTTP Http.app r Http.new_writer) = Some 201%Z ∧
     ∃ j,
       Http.body (Http.ServeHTTP Http.app r Http.new_writer) = [Http.Doc j] ∧
       Http.keys j = ["success"; "message"; "data"] ∧
       Http.member j "success" = Some (Http.JsBool true)).
Proof.
  destruct r as [method path query]. cbn [Http.Method Http.Path Http.Query].
  intros -> ->. rewrite app_routes_register. unfold Http.registerHandler.
  cbn [Http.Query]. split; intros Hq.
  - rewrite decide_True by done. split; [vm_compute; reflexivity|].
    eexists _, _. vm_compute. repeat split; reflexivity.
  - rewrite decide_False by done. split; [vm_compute; reflexivity|].
    eexists. vm_compute. repeat split; reflexivity.
Qed.

Lemma register_responses_witness :
  let bad := {| Http.Method := "POST"; Http.Path := "/auth/register";
                Http.Query := {["error" := ["validation"]]} |} in
  let good := {| Http.Method := "POST"; Http.Path := "/auth/register";
                 Http.Query := {["error" := ["other"]]} |} in
  Http.status (Http.ServeHTTP Http.app bad Http.new_writer) = Some 422%Z ∧
  Http.status (Http.ServeHTTP Http.app good Http.new_writer) = Some 201%Z.
Proof.
  intros bad good.
  destruct (register_responses bad eq_refl eq_refl) as [Hbad _].
  destruct (register_responses good eq_refl eq_refl) as [_ Hgood].
  split.
  - apply Hbad. vm_compute. reflexivity.
  - apply Hgood. vm_compute. intros H. discriminate H.
Defined.

(** ** The server (pkg/server/server.go) *)

Section ServerFacts.
Import Server.

Lemma run_app c w sched1 sched2 st :
  run c w (sched1 ++ sched2) st = run c w sched2 (run c w sched1 st).
Proof. unfold run. apply foldl_app. Qed.

Lemma run_cons c w t sched st :
  run c w (t :: sched) st = run c w sched (tick_once c w st t).
Proof. reflexivity. Qed.

(** A property kept by every tick holds along every schedule. *)
Lemma run_invariant c w (P : State → Prop) :
  (∀ st t, P st → P (tick_once c w st t)) →
  ∀ sched st, P st → P (run c w sched st).
Proof.
  intros Hstep sched. induction sched as [|t sched IH]; intros st Hst; [done|].
  rewrite run_cons. apply IH, Hstep, Hst.
Qed.

(** [Validate] with a logger: the first failing check decides, and a
    configuration that passes every check is accepted. *)
Lemma Validate_with_logger c lg :
  Logger c = Some lg →
  snd (Validate c) =
    Done (if decide (App c = None) then Some (ErrNew "app cannot be nil")
          else if decide (Port c = "") then Some (ErrNew "port cannot be empty")
          else if decide (ShutdownTimeout c ≤ 0)%Z
               then Some (ErrNew "shutdown timeout must be positive")
          else None).
Proof.
  intros Hlg. unfold Validate, mbind, Run_bind, mret, Run_ret, logcall. rewrite Hlg.
  repeat case_decide; try reflexivity. congruence.
Qed.

(** [chain] panics exactly when one of the middlewares is nil. *)
Lemma chain_is_Some (middlewares : list Middleware) (endpoint : Http.Handler) :
  is_Some (chain middlewares endpoint) ↔ Forall is_Some middlewares.
Proof.
  induction middlewares as [|mw rest IH]; cbn [chain].
  - split; [constructor|by eexists].
  - rewrite Forall_cons, <- IH.
    destruct (chain rest endpoint) as [h|], mw as [f|]; split.
    + intros _. split; by eexists.
    + intros _. by eexists.
    + by intros [x [=]].
    + by intros [[x [=]] _].
    + by intros [x [=]].
    + by intros [_ [x [=]]].
    + by intros [x [=]].
    + by intros [_ [x [=]]].
Qed.

(** [prepareRouter] with a logger: it logs one line, then returns the
    handler of the router or panics, as the router can be prepared or
    not. *)
Lemma prepareRouter_cases c lg :
  Logger c = Some lg →
  let line := if bool_decide (0 < length (Middlewares c))
              then Log LevelInfo "Preparing router with %d middleware(s)..."
                     [AInt (length (Middlewares c))]
              else Log LevelInfo "Preparing router with no middleware" [] in
  (mountable c ∧ ∃ h, prepareRouter c = ([line], Done h)) ∨
  (¬ mountable c ∧ prepareRouter c = ([line], Panic)).
Proof.
  intros Hl line. subst line.
  unfold prepareRouter, mbind, Run_bind, logcall, mountable. rewrite Hl.
  assert (Hcases :
    (is_Some (App c ≫= Handler) ∧ Forall is_Some (Middlewares c) ∧
     ∃ h, match App c with
          | Some app => Use_and_Mount (Middlewares c) (Handler app)
          | None => ([], Panic)
          end = ([], Done h)) ∨
    (¬ (is_Some (App c ≫= Handler) ∧ Forall is_Some (Middlewares c)) ∧
     match App c with
     | Some app => Use_and_Mount (Middlewares c) (Handler app)
     | None => ([], Panic)
     end = ([], Panic))).
  { destruct (App c) as [app|]; cbn [mbind option_bind].
    2: { right. split; [by intros [[x [=]] _]|done]. }
    unfold Use_and_Mount, Handler. destruct (chi app) as [h|].
    2: { right. split; [by intros [[x [=]] _]|done]. }
    match goal with |- context [chain ?mws ?ep] => pose proof (chain_is_Some mws ep) as Hch end.
    destruct (chain _ _) as [served|].
    - left. split; [by eexists|]. split; [apply Hch; by eexists|by exists served].
    - right. split; [|done]. intros [_ Hall]. apply Hch in Hall. by destruct Hall. }
  destruct Hcases as [(Ha & Hm & h & ->)|(Hno & ->)];
    destruct (bool_decide (0 < length (Middlewares c)));
    first [left; split; [by split|by exists h] | right; by split].
Qed.

Lemma filter_logs (f : action → bool) (evs : list action) :
  (∀ lv fmt args, f (Log lv fmt args) = false) →
  forallb is_log evs = true → List.filter f evs = [].
Proof.
  intros Hf. induction evs as [|a evs IH]; [done|].
  cbn [forallb List.filter]. intros [Ha Hevs]%andb_prop.
  destruct a; try discriminate. rewrite Hf. by apply IH.
Qed.

Lemma logs_not_elem (a : action) (evs : list action) :
  is_log a = false → forallb is_log evs = true → a ∉ evs.
Proof.
  intros Ha Hevs Hin. apply list_elem_of_In in Hin.
  rewrite forallb_forall in Hevs. specialize (Hevs _ Hin). congruence.
Qed.

(** The code before the goroutine is started ends in one of four ways,
    and only logs: it panics at once on a nil logger; it returns the
    wrapped validation error; it panics in [prepareRouter]; or it gets as
    far as the [go] statement. *)
Lemma before_spawn_cases c :
  (Logger c = None ∧ before_spawn c = ([], Panic)) ∨
  (Logger c ≠ None ∧ ¬ valid c ∧
   ∃ evs e, before_spawn c = (evs, Done (inl (ErrWrap "invalid server configuration: " e))) ∧
            snd (Validate c) = Done (Some e) ∧ forallb is_log evs = true) ∨
  (valid c ∧ ¬ mountable c ∧
   ∃ evs, before_spawn c = (evs, Panic) ∧ forallb is_log evs = true) ∨
  (valid c ∧ mountable c ∧
   ∃ evs h, before_spawn c = (evs, Done (inr h)) ∧ forallb is_log evs = true).
Proof.
  destruct (Logger c) as [lg|] eqn:Hl.
  2: { left. split; [done|]. unfold before_spawn, logcall, mbind, Run_bind. by rewrite Hl. }
  right.
  pose proof (prepareRouter_cases c lg Hl) as Hprep. cbv zeta in Hprep.
  unfold valid, before_spawn, Validate, mbind, Run_bind, mret, Run_ret, logcall.
  rewrite Hl.
  destruct (decide (App c = None)) as [Ha|Ha].
  { left. split; [done|]. split; [by intros [? _]|]. by eexists _, _. }
  destruct (decide (Port c = "")) as [Hp|Hp].
  { left. split; [done|]. split; [by intros (_ & ? & _)|]. by eexists _, _. }
  destruct (decide (ShutdownTimeout c ≤ 0)%Z) as [Ht|Ht].
  { left. split; [done|]. split; [intros (_ & _ & ? & _); lia|]. by eexists _, _. }
  rewrite decide_False by done.
  right.
  assert (Hv : App c ≠ None ∧ Port c ≠ "" ∧ (0 < ShutdownTimeout c)%Z ∧ Some lg ≠ None)
    by (repeat split; (done || lia)).
  destruct Hprep as [(Hm & h & ->)|(Hm & ->)].
  - right. split; [exact Hv|]. split; [exact Hm|].
    eexists _, _. split; [reflexivity|]. by case_bool_decide.
  - left. split; [exact Hv|]. split; [exact Hm|].
    eexists. split; [reflexivity|]. by case_bool_decide.
Qed.

(** A configuration that passes validation and whose router can be
    prepared takes [BuildAndStartServer] to the [go] statement, with five
    lines in the log. *)
Lemma before_spawn_valid c :
  valid c → mountable c →
  ∃ evs h, before_spawn c = (evs, Done (inr h)) ∧
         evs = [Log LevelInfo "Starting BuildAndStartServer..." [];
                Log LevelInfo "Validating server configuration..." [];
                Log LevelInfo "Server configuration validated successfully" [];
                (if bool_decide (0 < length (Middlewares c))
                 then Log LevelInfo "Preparing router with %d middleware(s)..."
                        [AInt (length (Middlewares c))]
                 else Log LevelInfo "Preparing router with no middleware" []);
                Log LevelInfo "Creating HTTP server on port %s" [AStr (Port c)]].
Proof.
  intros (Happ & Hport & Hto & Hlg) Hm.
  destruct (Logger c) as [lg|] eqn:Hl; [|done].
  destruct (prepareRouter_cases c lg Hl) as [(_ & h & Hprep)|[? _]]; [|done].
  unfold before_spawn, Validate, mbind, Run_bind, mret, Run_ret, logcall.
  rewrite Hl. rewrite !decide_False by (done || lia). rewrite Hprep.
  by eexists _, _.
Qed.

(** An invalid configuration with a logger makes [BuildAndStartServer]
    return the wrapped validation error before any thread is started. *)
Lemma before_spawn_invalid c lg :
  Logger c = Some lg →
  ¬ valid c →
  ∃ evs e, before_spawn c = (evs, Done (inl (ErrWrap "invalid server configuration: " e))) ∧
           snd (Validate c) = Done (Some e) ∧ forallb is_log evs = true.
Proof.
  intros Hl Hinv.
  destruct (before_spawn_cases c) as [[Hn _]|[(_ & _ & H)|[(Hv & _)|(Hv & _)]]];
    [congruence|exact H|done|done].
Qed.

End ServerFacts.

(** C3 at the failing input: with a nil [Logger], whatever the other
    fields, [Validate] panics at its first statement instead of returning
    an error, and so does [BuildAndStartServer], which calls the logger
    before it validates. *)
Theorem Validate_panics_on_nil_logger
    (c : Server.ServerConfig) (w : Server.World) (b : bool) :
  Server.Validate (Server.with_logger None c) = ([], Server.Panic) ∧
  Server.before_spawn (Server.with_logger None c) = ([], Server.Panic) ∧
  Server.mpc (Server.run (Server.with_logger None c) w [Server.TMain b] Server.init)
    = Server.MPanicked.
Proof. repeat split; reflexivity. Qed.

(** Running a schedule one tick at a time. *)
Ltac settle :=
  cbn [Server.step Server.step_main Server.step_go Server.step_signal
       Server.killed Server.mpc Server.gpc Server.serverErrors Server.stopChan
       Server.notified Server.closed Server.trace
       default from_option id Server.init];
  unfold Server.take_error, Server.take_signal;
  unfold Server.set_flags, Server.set_serverErrors, Server.set_stopChan;
  unfold Server.upd_main, Server.upd_go;
  cbn [Server.killed Server.mpc Server.gpc Server.serverErrors Server.stopChan
       Server.notified Server.closed Server.trace default from_option id].

Ltac one_tick := rewrite run_cons; unfold Server.tick_once; settle.

Section StartupHookReturn.
Import Server.
Variable c : ServerConfig.
Variable w : World.
Variable e : error.
Hypothesis Hvalid : valid c.
Hypothesis Hmount : mountable c.
Hypothesis Hhook : OnStartup c = Some (Some e).

(** Once both threads have ended, nothing moves them. *)
Lemma ended_is_stable r st :
  mpc st = MReturned r → gpc st = GDone → ∀ n : nat, run c w (turns n) st = st.
Proof.
  intros Hm Hg n. induction n as [|n IH]; [done|].
  cbn [turns]. rewrite !run_cons.
  assert (Hmain : tick_once c w st (TMain true) = st).
  { unfold tick_once, step, step_main. rewrite Hm. by destruct (killed st). }
  rewrite Hmain.
  assert (Hgo : tick_once c w st TGo = st).
  { unfold tick_once, step, step_go. rewrite Hg. by destruct (killed st). }
  by rewrite Hgo.
Qed.

Lemma turns_add (n k : nat) : turns (n + k) = (turns n ++ turns k)%list.
Proof. induction n as [|n IH]; [done|]. cbn [turns Nat.add]. by rewrite IH. Qed.

(** With the two threads taking turns and no signal, four rounds are
    enough for [BuildAndStartServer] to return the hook's error. *)
Lemma hook_error_returned (n : nat) :
  (4 ≤ n)%nat → returned (run c w (turns n) init) = Some (Some (hook_error e)).
Proof.
  intros Hn. replace n with (4 + (n - 4)) by lia. rewrite turns_add, run_app.
  assert (H4 : mpc (run c w (turns 4) init) = MReturned (Some (hook_error e)) ∧
               gpc (run c w (turns 4) init) = GDone).
  { cbn [turns]. destruct (before_spawn_valid c Hvalid Hmount) as (evs & h & Hb & _).
    one_tick. rewrite Hb. settle.
    one_tick. rewrite Hhook. settle.
    one_tick. one_tick. rewrite Hhook. settle.
    one_tick. one_tick. one_tick. one_tick.
    by split. }
  destruct H4 as [Hm Hg]. rewrite (ended_is_stable _ _ Hm Hg).
  unfold returned. by rewrite Hm.
Qed.

End StartupHookReturn.

Section ShutdownFacts.
Import Server.
Variable c : ServerConfig.
Variable w : World.

Lemma shutdown_steps_app tr evs :
  shutdown_steps (tr ++ evs) = (shutdown_steps tr ++ shutdown_steps evs)%list.
Proof. unfold shutdown_steps. apply List.filter_app. Qed.

Lemma shutdown_steps_elem a tr :
  a ∈ shutdown_steps tr ↔ (a = ShutdownHook ∨ a = SrvShutdown) ∧ a ∈ tr.
Proof.
  unfold shutdown_steps. rewrite !list_elem_of_In, List.filter_In.
  destruct a; cbn; split; intros [H1 H2]; split; try done; try (by left); try (by right);
    by destruct H1.
Qed.

(** The code before the goroutine is started only logs. *)
Lemma before_spawn_only_logs : shutdown_steps (fst (before_spawn c)) = [].
Proof.
  unfold shutdown_steps.
  destruct (before_spawn_cases c)
    as [[_ ->]|[(_ & _ & evs & e & -> & _ & Hl)
               |[(_ & _ & evs & -> & Hl)|(_ & _ & evs & h & -> & Hl)]]];
    cbn [fst]; [done|..]; by apply filter_logs.
Qed.

Ltac close_shutdown :=
  unfold shutdown_inv, take_error, take_signal, hook_part in *;
  cbn [mpc gpc serverErrors stopChan notified closed killed trace upd_main upd_go
       set_flags set_serverErrors set_stopChan default from_option id] in *;
  rewrite ?shutdown_steps_app;
  repeat match goal with H : shutdown_steps _ = _ |- _ => rewrite H end;
  cbn; rewrite ?app_nil_r; try reflexivity; try (by left); try (by right); try done.

Lemma shutdown_inv_tick st t : shutdown_inv c st → shutdown_inv c (tick_once c w st t).
Proof.
  intros Hinv. unfold tick_once, step. unfold shutdown_inv, hook_part in *.
  destruct st as [m g se sc nt cl kl tr]. cbn [killed].
  destruct kl; [exact Hinv|].
  destruct t as [b| |s].
  - unfold step_main. cbn [mpc serverErrors stopChan].
    destruct m.
    + pose proof before_spawn_only_logs as Hlogs.
      destruct (before_spawn c) as [evs [[err|u]|]]; cbn [fst] in Hlogs; close_shutdown.
    + close_shutdown.
    + destruct se, sc; try destruct b; close_shutdown.
    + destruct (OnShutdown c) as [[err|]|]; close_shutdown.
    + destruct (shutdown_err w), (OnShutdown c); close_shutdown.
    + destruct (close_err w); close_shutdown.
    + exact Hinv.
    + exact Hinv.
  - unfold step_go. cbn [gpc serverErrors closed].
    destruct g, m; try destruct (OnStartup c) as [[x|]|]; try destruct se; try destruct cl;
      try destruct (listen_fails w) as [y|]; try destruct (is_server_closed y);
      close_shutdown; destruct Hinv; close_shutdown.
  - unfold step_signal. cbn [notified stopChan mpc].
    destruct nt, sc, m; close_shutdown; destruct Hinv; close_shutdown.
Qed.

Lemma shutdown_inv_run sched : shutdown_inv c (run c w sched init).
Proof. apply run_invariant; [apply shutdown_inv_tick|reflexivity]. Qed.

Lemma shutdown_report_app tr evs :
  shutdown_report (tr ++ evs) = (shutdown_report tr ++ shutdown_report evs)%list.
Proof. unfold shutdown_report. apply List.filter_app. Qed.

(** The code before the goroutine is started logs nothing about the
    shutdown hook. *)
Lemma before_spawn_no_report : shutdown_report (fst (before_spawn c)) = [].
Proof.
  destruct (Logger c) as [lg|] eqn:Hl.
  2: { unfold before_spawn, logcall, mbind, Run_bind. by rewrite Hl. }
  pose proof (prepareRouter_cases c lg Hl) as Hprep. cbv zeta in Hprep.
  unfold before_spawn, Validate, mbind, Run_bind, mret, Run_ret, logcall. rewrite Hl.
  repeat case_decide; try reflexivity;
    destruct Hprep as [(_ & h & ->)|(_ & ->)]; try case_bool_decide; reflexivity.
Qed.

(** Working out [shutdown_report] on a list that is written out. *)
Ltac eval_report :=
  repeat match goal with
         | |- context [shutdown_report (?a :: ?l)] =>
             let v := eval vm_compute in (shutdown_report (a :: l)) in
             change (shutdown_report (a :: l)) with v
         | |- context [shutdown_report []] =>
             change (shutdown_report []) with (@nil action)
         end.

Ltac close_report :=
  unfold report_inv, take_error, take_signal, report_part in *;
  cbn [mpc gpc serverErrors stopChan notified closed killed trace upd_main upd_go
       set_flags set_serverErrors set_stopChan default from_option id] in *;
  rewrite ?shutdown_report_app;
  repeat match goal with H : shutdown_report _ = _ |- _ => rewrite H end;
  eval_report;
  cbn [app]; rewrite ?app_nil_r; try reflexivity; try (by left); try (by right); try done.

(** The failure of the shutdown hook is logged right after the hook, and
    nowhere else. *)
Lemma report_inv_tick st t : report_inv c st → report_inv c (tick_once c w st t).
Proof.
  intros Hinv. unfold tick_once, step. unfold report_inv, report_part in *.
  destruct st as [m g se sc nt cl kl tr]. cbn [killed].
  destruct kl; [exact Hinv|].
  destruct t as [b| |s].
  - unfold step_main. cbn [mpc serverErrors stopChan].
    destruct m.
    + pose proof before_spawn_no_report as Hlogs.
      destruct (before_spawn c) as [evs [[err|u]|]]; cbn [fst] in Hlogs; close_report.
    + close_report.
    + destruct se, sc; try destruct b; close_report.
    + destruct (OnShutdown c) as [[err|]|]; close_report.
    + destruct (shutdown_err w), (OnShutdown c) as [[err'|]|]; close_report.
    + destruct (close_err w); close_report.
    + exact Hinv.
    + exact Hinv.
  - unfold step_go. cbn [gpc serverErrors closed].
    destruct g, m; try destruct (OnStartup c) as [[x|]|]; try destruct se; try destruct cl;
      try destruct (listen_fails w) as [y|]; try destruct (is_server_closed y);
      close_report; destruct Hinv; close_report.
  - unfold step_signal. cbn [notified stopChan mpc].
    destruct nt, sc, m; close_report; destruct Hinv; close_report.
Qed.

Lemma report_inv_run sched : report_inv c (run c w sched init).
Proof. apply run_invariant; [apply report_inv_tick|reflexivity]. Qed.

End ShutdownFacts.

Section ShutdownHookResult.
Import Server.
Variable c : ServerConfig.
Variable w : World.
Variables r1 r2 : option error.

(** What the shutdown hook returns is never looked at by the control
    flow: two configurations that differ only in that result go through the
    same states, tick by tick. *)
Lemma hook_result_tick st1 st2 t :
  control st1 = control st2 →
  control (tick_once (with_shutdown_hook (Some r1) c) w st1 t)
    = control (tick_once (with_shutdown_hook (Some r2) c) w st2 t).
Proof.
  destruct st1 as [m g se sc nt cl kl tr1], st2 as [m2 g2 se2 sc2 nt2 cl2 kl2 tr2].
  unfold control. cbn [mpc gpc serverErrors stopChan notified closed killed].
  intros H. inversion H; subst. clear H.
  unfold tick_once, step. cbn [killed]. destruct kl2; [reflexivity|].
  destruct t as [b| |s].
  - unfold step_main. cbn [mpc serverErrors stopChan OnShutdown with_shutdown_hook].
    change (before_spawn (with_shutdown_hook (Some r1) c)) with (before_spawn c).
    change (before_spawn (with_shutdown_hook (Some r2) c)) with (before_spawn c).
    destruct m2.
    + destruct (before_spawn c) as [evs [[err|u]|]]; reflexivity.
    + reflexivity.
    + destruct se2, sc2; try destruct b; reflexivity.
    + reflexivity.
    + destruct (shutdown_err w); reflexivity.
    + destruct (close_err w); reflexivity.
    + reflexivity.
    + reflexivity.
  - unfold step_go. cbn [gpc serverErrors closed OnStartup with_shutdown_hook].
    destruct g2; try destruct (OnStartup c) as [[x|]|]; try destruct se2; try destruct cl2;
      try destruct (listen_fails w) as [y|]; try destruct (is_server_closed y);
      reflexivity.
  - unfold step_signal. cbn [notified stopChan mpc].
    destruct nt2, sc2; reflexivity.
Qed.

Lemma hook_result_run sched st1 st2 :
  control st1 = control st2 →
  control (run (with_shutdown_hook (Some r1) c) w sched st1)
    = control (run (with_shutdown_hook (Some r2) c) w sched st2).
Proof.
  revert st1 st2. induction sched as [|t sched IH]; intros st1 st2 H; [done|].
  rewrite !run_cons. by apply IH, hook_result_tick.
Qed.

End ShutdownHookResult.

Section ShutdownFromServing.
Import Server.
Variable c : ServerConfig.
Variable w : World.

(** From a serving state, a signal takes the calling thread through the
    hook and the close, and it returns what [srv.Shutdown] and [srv.Close]
    decide. *)
Lemma signal_shuts_down st s :
  serving st →
  returned (run c w (signal_then_main s) st) = Some (shutdown_result w) ∧
  shutdown_steps (trace (run c w (signal_then_main s) st))
    = (hook_part c ++ [SrvShutdown])%list ∧
  closed (run c w (signal_then_main s) st) = true.
Proof.
  intros (Hm & Hg & Hse & Hsc & Hnt & Hk & Hsteps).
  destruct st as [m g se sc nt cl kl tr]. cbn in Hm, Hg, Hse, Hsc, Hnt, Hk.
  cbn [trace] in Hsteps. subst. unfold signal_then_main, shutdown_result, hook_part.
  one_tick. one_tick. one_tick.
  destruct (OnShutdown c) as [[err|]|]; settle;
    one_tick; destruct (shutdown_err w) as [serr|]; settle;
    one_tick; try destruct (close_err w) as [cerr|]; settle;
    unfold run; cbn [foldl trace];
    (split; [reflexivity|]); (split; [|reflexivity]);
    rewrite ?shutdown_steps_app, Hsteps; reflexivity.
Qed.

(** What is added to the trace on the way: the hook, the report of its
    failure if it failed, and the request to close. *)
Lemma signal_shutdown_trace st s :
  serving st →
  ∃ evs, trace (run c w (signal_then_main s) st) = (trace st ++ evs)%list ∧
         shutdown_report evs = (report_part c ++ [SrvShutdown])%list.
Proof.
  intros (Hm & Hg & Hse & Hsc & Hnt & Hk & _).
  destruct st as [m g se sc nt cl kl tr]. cbn in Hm, Hg, Hse, Hsc, Hnt, Hk.
  subst. unfold signal_then_main, report_part.
  one_tick. one_tick. one_tick.
  destruct (OnShutdown c) as [[err|]|]; settle;
    one_tick; destruct (shutdown_err w) as [serr|]; settle;
    one_tick; try destruct (close_err w) as [cerr|]; settle;
    unfold run; cbn [foldl trace];
    rewrite <- ?app_assoc; (eexists; split; [reflexivity|]);
    vm_compute; reflexivity.
Qed.

End ShutdownFromServing.

(** C5. Along every schedule the shutdown hook and the request to close
    the listener happen at most once each and in this order, and once the
    close has been requested the hook, when one is supplied, has been
    invoked exactly once before it.  The result of the hook is immaterial:
    with any two results the two threads go through the same states, so
    [BuildAndStartServer] returns the same value.  From a state in which
    the listener has been started and the calling thread waits, a
    termination signal makes the calling thread invoke the hook once,
    request the close and return what [srv.Shutdown] and [srv.Close]
    decide, nil when the close succeeds, whatever the hook returned; without
    a hook it requests the close at once.  An error the hook returns is
    logged, and that is all that happens to it: on every schedule the log
    call "Shutdown hook failed: %v" at level ERROR, with the hook's error,
    comes once, right after the hook and before the close is requested,
    when the hook fails, and never otherwise. *)
Theorem shutdown_hook_once_before_close
    (c : Server.ServerConfig) (w : Server.World) (sched : list Server.tick)
    (st : Server.State) (s : Server.Signal) (r r' : option Server.error) :
  Server.serving st →
  (Server.shutdown_steps (Server.trace (Server.run c w sched Server.init)) = [] ∨
   Server.shutdown_steps (Server.trace (Server.run c w sched Server.init))
     = Server.hook_part c ∨
   Server.shutdown_steps (Server.trace (Server.run c w sched Server.init))
     = (Server.hook_part c ++ [Server.SrvShutdown])%list) ∧
  (Server.SrvShutdown ∈ Server.trace (Server.run c w sched Server.init) →
   Server.shutdown_steps (Server.trace (Server.run c w sched Server.init))
     = (Server.hook_part c ++ [Server.SrvShutdown])%list) ∧
  Server.hook_part (Server.with_shutdown_hook (Some r) c) = [Server.ShutdownHook] ∧
  Server.control (Server.run (Server.with_shutdown_hook (Some r) c) w sched Server.init)
    = Server.control (Server.run (Server.with_shutdown_hook (Some r') c) w sched Server.init) ∧
  Server.returned (Server.run c w (Server.signal_then_main s) st)
    = Some (Server.shutdown_result w) ∧
  Server.shutdown_steps (Server.trace (Server.run c w (Server.signal_then_main s) st))
    = (Server.hook_part c ++ [Server.SrvShutdown])%list ∧
  Server.returned (Server.run (Server.with_shutdown_hook (Some r) c) w
                     (Server.signal_then_main s) st)
    = Some (Server.shutdown_result w) ∧
  Server.shutdown_steps
      (Server.trace (Server.run (Server.with_shutdown_hook (Some r) c) w
                       (Server.signal_then_main s) st))
    = [Server.ShutdownHook; Server.SrvShutdown] ∧
  (Server.shutdown_err w = None →
   Server.returned (Server.run (Server.with_shutdown_hook (Some r) c) w
                      (Server.signal_then_main s) st) = Some None) ∧
  (Server.shutdown_report (Server.trace (Server.run c w sched Server.init)) = [] ∨
   Server.shutdown_report (Server.trace (Server.run c w sched Server.init))
     = Server.report_part c ∨
   Server.shutdown_report (Server.trace (Server.run c w sched Server.init))
     = (Server.report_part c ++ [Server.SrvShutdown])%list) ∧
  Server.report_part (Server.with_shutdown_hook (Some r) c)
    = (Server.ShutdownHook ::
       match r with
       | Some e => [Server.Log LevelError "Shutdown hook failed: %v" [Server.AErr e]]
       | None => []
       end) ∧
  (∃ evs,
     Server.trace (Server.run (Server.with_shutdown_hook (Some r) c) w
                     (Server.signal_then_main s) st)
       = (Server.trace st ++ evs)%list ∧
     Server.shutdown_report evs
       = (Server.ShutdownHook ::
          match r with
          | Some e => [Server.Log LevelError "Shutdown hook failed: %v" [Server.AErr e]]
          | None => []
          end ++ [Server.SrvShutdown])%list).
Proof.
  intros Hserving.
  pose proof (shutdown_inv_run c w sched) as Hinv.
  unfold Server.shutdown_inv in Hinv.
  assert (Hsteps :
    Server.shutdown_steps (Server.trace (Server.run c w sched Server.init)) = [] ∨
    Server.shutdown_steps (Server.trace (Server.run c w sched Server.init))
      = Server.hook_part c ∨
    Server.shutdown_steps (Server.trace (Server.run c w sched Server.init))
      = (Server.hook_part c ++ [Server.SrvShutdown])%list).
  { destruct (Server.mpc (Server.run c w sched Server.init));
      try (by left); try (by right; left); try (by right; right).
    destruct Hinv; [by left|by right; right]. }
  split; [exact Hsteps|]. split.
  { intros Hin.
    assert (Hin' : Server.SrvShutdown ∈
              Server.shutdown_steps (Server.trace (Server.run c w sched Server.init))).
    { apply shutdown_steps_elem. split; [by right|done]. }
    destruct Hsteps as [Hs|[Hs|Hs]]; [| |done]; rewrite Hs in Hin'.
    - by apply elem_of_nil in Hin'.
    - unfold Server.hook_part in Hin'. destruct (Server.OnShutdown c).
      + apply list_elem_of_singleton in Hin'. discriminate.
      + by apply elem_of_nil in Hin'. }
  split; [reflexivity|]. split; [apply hook_result_run; reflexivity|].
  destruct (signal_shuts_down c w st s Hserving) as (Hret0 & Hst0 & _).
  split; [exact Hret0|]. split; [exact Hst0|].
  destruct (signal_shuts_down (Server.with_shutdown_hook (Some r) c) w st s Hserving)
    as (Hret & Hst & _).
  split; [exact Hret|]. split; [exact Hst|]. split.
  { intros Hok. rewrite Hret. unfold Server.shutdown_result. by rewrite Hok. }
  split.
  { pose proof (report_inv_run c w sched) as Hrep. unfold Server.report_inv in Hrep.
    destruct (Server.mpc (Server.run c w sched Server.init));
      try (by left); try (by right; left); try (by right; right).
    destruct Hrep; [by left|by right; right]. }
  split; [by destruct r|].
  destruct (signal_shutdown_trace (Server.with_shutdown_hook (Some r) c) w st s Hserving)
    as (evs & Htr & Hrep).
  exists evs. split; [exact Htr|]. rewrite Hrep. by destruct r.
Qed.

Lemma shutdown_hook_once_before_close_witness :
  let st := Server.run Server.failing_stop Server.calm
              [Server.TMain true; Server.TMain true; Server.TGo; Server.TGo; Server.TGo]
              Server.init in
  Server.serving st ∧
  Server.ListenAndServe ∈ Server.trace st ∧
  Server.returned (Server.run Server.failing_stop Server.calm
                     (Server.signal_then_main Server.SIGTERM) st) = Some None ∧
  Server.shutdown_steps
      (Server.trace (Server.run Server.failing_stop Server.calm
                       (Server.signal_then_main Server.SIGTERM) st))
    = [Server.ShutdownHook; Server.SrvShutdown] ∧
  ∃ evs,
    Server.trace (Server.run Server.failing_stop Server.calm
                    (Server.signal_then_main Server.SIGTERM) st)
      = (Server.trace st ++ evs)%list ∧
    Server.shutdown_report evs
      = [Server.ShutdownHook;
         Server.Log LevelError "Shutdown hook failed: %v"
           [Server.AErr (Server.ErrNew "cache not flushed")];
         Server.SrvShutdown].
Proof.
  intros st.
  assert (Hs : Server.serving st) by (vm_compute; repeat split; reflexivity).
  destruct (shutdown_hook_once_before_close Server.failing_stop Server.calm []
              st Server.SIGTERM (Some (Server.ErrNew "cache not flushed")) None Hs)
    as (_ & _ & _ & _ & _ & _ & _ & Hsteps & Hret & _ & _ & Hlog).
  split; [exact Hs|]. split.
  - vm_compute. set_solver.
  - split; [exact (Hret eq_refl)|]. split; [exact Hsteps|exact Hlog].
Defined.

Section InvalidConfig.
Import Server.
Variable c : ServerConfig.
Variable w : World.
Variable lg : LoggerRef.
Hypothesis Hlogger : Logger c = Some lg.
Hypothesis Hinvalid : ¬ valid c.

(** With a logger and a configuration that fails a check, nothing is ever
    started: no goroutine, no listener, and the first step of the calling
    thread returns the wrapped validation error. *)
Lemma invalid_config_never_listens sched :
  gpc (run c w sched init) = GNone ∧
  (ListenAndServe ∉ trace (run c w sched init)) ∧
  (Spawn ∉ trace (run c w sched init)) ∧
  (mpc (run c w sched init) = MStart ∨
   ∃ e, snd (Validate c) = Done (Some e) ∧
        mpc (run c w sched init)
          = MReturned (Some (ErrWrap "invalid server configuration: " e))).
Proof.
  apply (run_invariant c w (λ st,
    gpc st = GNone ∧ (ListenAndServe ∉ trace st) ∧ (Spawn ∉ trace st) ∧
    (mpc st = MStart ∨
     ∃ e, snd (Validate c) = Done (Some e) ∧
          mpc st = MReturned (Some (ErrWrap "invalid server configuration: " e))))).
  - intros st t (Hg & Hl & Hs & Hm). unfold tick_once, step.
    destruct st as [m g se sc nt cl kl tr]. cbn in Hg, Hl, Hs, Hm. cbn [killed].
    destruct kl; [done|]. subst g.
    destruct t as [b| |s].
    + unfold step_main. cbn [mpc].
      destruct Hm as [->|(e & He & ->)];
        [|cbn; repeat (split; [done|]); right; by exists e].
      destruct (before_spawn_invalid c lg Hlogger Hinvalid) as (evs & e & Hb & He & Hlogs).
      rewrite Hb. cbn.
      split; [done|]. split; [|split].
      * rewrite elem_of_app. intros [?|Ha]; [done|]. by eapply logs_not_elem in Ha.
      * rewrite elem_of_app. intros [?|Ha]; [done|]. by eapply logs_not_elem in Ha.
      * right. by exists e.
    + unfold step_go. cbn. by repeat (split; [done|]).
    + unfold step_signal. cbn [notified stopChan mpc].
      destruct nt, sc; cbn; (split; [done|]);
        (split; [set_solver|]); (split; [set_solver|]); done.
  - cbn. split; [done|]. split; [apply not_elem_of_nil|].
    split; [apply not_elem_of_nil|by left].
Qed.

End InvalidConfig.

(** ** More of the two loggers: [InfoJSON], [Close], construction *)

Section LoggerFieldsInfoJSON.
Import LoggerFields.
Variable write_err : Writer → option string.
Variable now : string.

(** [InfoJSON] in full: the payload laid over the logger's fields goes
    into a new map, and the entry is serialised from that map. *)
Lemma InfoJSON_spec s l lg payload :
  loggers s !! l = Some lg →
  InfoJSON write_err now l payload s =
    if negb (shouldLog lg LevelInfo) then (Ret tt, s)
    else (Ret tt,
          emit (match line_of lg (payload ∪ fields_of s l) now LevelInfo "" with
                | None => [EvStderr "Failed to marshal log entry"]
                | Some line => write_all write_err (writers lg) line
                end)
            (set_maps (insert (fresh (dom (maps s))) (payload ∪ fields_of s l)) s)).
Proof.
  intros Hl. unfold InfoJSON, mbind, M_bind. unfold read_logger. rewrite Hl.
  destruct (shouldLog lg LevelInfo); cbn [negb]; [|reflexivity].
  rewrite (copyContext_spec _ _ _ Hl).
  destruct (decide (fields_of s l = ∅)) as [He|Hne].
  - rewrite He. unfold make_map. cbv beta iota.
    rewrite (assign_each_some _ _ ∅) by (unfold set_maps; simpl; apply lookup_insert_eq).
    unfold json_Marshal, mbind, M_bind, read_map, mret, M_ret, line_of, set_maps.
    cbn [Context Timestamp Level Message TraceID Service maps loggers out].
    rewrite insert_twice, lookup_insert_eq, fill_map_to_list.
    change (default ∅ (Some (payload ∪ ∅))) with (payload ∪ (∅ : gmap string value)).
    destruct (marshal_map (payload ∪ ∅)) as [c|]; reflexivity.
  - unfold mret at 1, M_ret at 1. cbv beta iota.
    rewrite (assign_each_some _ _ (fields_of s l))
      by (unfold set_maps; simpl; apply lookup_insert_eq).
    unfold json_Marshal, mbind, M_bind, read_map, mret, M_ret, line_of, set_maps.
    cbn [Context Timestamp Level Message TraceID Service maps loggers out].
    rewrite insert_twice, lookup_insert_eq, fill_map_to_list.
    change (default ∅ (Some (payload ∪ fields_of s l))) with (payload ∪ fields_of s l).
    destruct (marshal_map (payload ∪ fields_of s l)) as [c|]; reflexivity.
Qed.

End LoggerFieldsInfoJSON.

(** X1. [InfoJSON] of the logger with its own fields (unnamed/part_006),
    on a logger that can be used: it always returns, without panic and
    without leaving the process, also for a logger without fields; it
    leaves every logger, every map that existed and the logger's own fields
    as they were; and when INFO passes the minimum level it serialises one
    entry with an empty message whose context is the payload laid over the
    logger's fields (a payload key wins over a field of the same name) and
    writes it once to each sink, or reports on the standard error stream
    when that context does not serialise. *)
Theorem InfoJSON_merges_payload_over_fields
    (write_err : Writer → option string) (now : string)
    (s : LoggerFields.Store) (l : nat) (lg : LoggerFields.JSONLogger)
    (payload : gmap string value) :
  LoggerFields.usable s l →
  LoggerFields.loggers s !! l = Some lg →
  ∃ s',
    LoggerFields.InfoJSON write_err now l payload s = (LoggerFields.Ret tt, s') ∧
    LoggerFields.loggers s' = LoggerFields.loggers s ∧
    (∀ p m, LoggerFields.maps s !! p = Some m → LoggerFields.maps s' !! p = Some m) ∧
    LoggerFields.fields_of s' l = LoggerFields.fields_of s l ∧
    exits (LoggerFields.out s') = exits (LoggerFields.out s) ∧
    ∃ evs,
      LoggerFields.out s' = (LoggerFields.out s ++ evs)%list ∧
      ((rank LevelInfo < rank (LoggerFields.minLevel lg))%Z → evs = []) ∧
      ((rank (LoggerFields.minLevel lg) ≤ rank LevelInfo)%Z →
         match marshal_map (payload ∪ LoggerFields.fields_of s l) with
         | None => evs = [EvStderr "Failed to marshal log entry"]
         | Some c =>
             sink_writes evs = LoggerFields.writers lg ∧
             ∃ line,
               written_lines evs = replicate (length (LoggerFields.writers lg)) line ∧
               l_level line = LevelInfo ∧ l_message line = "" ∧
               l_context line =
                 (if decide (payload ∪ LoggerFields.fields_of s l = ∅) then None
                  else Some c)
         end).
Proof.
  intros Hu Hl. rewrite (InfoJSON_spec write_err now s l lg payload Hl).
  unfold LoggerFields.shouldLog.
  destruct (decide (rank (LoggerFields.minLevel lg) ≤ rank LevelInfo)%Z) as [Hle|Hgt].
  - rewrite bool_decide_eq_true_2 by done. cbn [negb].
    eexists. split; [reflexivity|].
    unfold LoggerFields.emit, LoggerFields.set_maps.
    cbn [LoggerFields.loggers LoggerFields.maps LoggerFields.out].
    assert (Hmaps : ∀ p m, LoggerFields.maps s !! p = Some m →
              <[fresh (dom (LoggerFields.maps s)) :=
                  payload ∪ LoggerFields.fields_of s l]> (LoggerFields.maps s) !! p
                = Some m).
    { intros p m Hp. rewrite lookup_insert_ne; [done|by eapply fresh_map_new]. }
    split; [reflexivity|]. split; [exact Hmaps|]. split.
    { apply (fields_of_frame s _ l lg Hu Hl); [done|exact Hmaps]. }
    unfold LoggerFields.line_of.
    destruct (marshal_map (payload ∪ LoggerFields.fields_of s l)) as [c|] eqn:Hm.
    + split; [by rewrite exits_app, exits_write_all, orb_false_r|].
      eexists. split; [reflexivity|]. split; [lia|]. intros _.
      split; [apply sink_writes_write_all|].
      eexists. split; [apply written_lines_write_all|].
      cbn [l_level l_message l_context]. repeat split.
      destruct (decide (size (payload ∪ LoggerFields.fields_of s l) = 0)) as [Hz|Hnz].
      * by rewrite decide_True by (by apply map_size_empty_iff).
      * by rewrite decide_False by (by rewrite <- map_size_empty_iff).
    + split; [by rewrite exits_app, orb_false_r|].
      eexists. split; [reflexivity|]. split; [lia|]. done.
  - rewrite bool_decide_eq_false_2 by done. cbn [negb].
    eexists. split; [reflexivity|]. split; [reflexivity|]. split; [done|].
    split; [reflexivity|]. split; [reflexivity|].
    exists []. split; [by rewrite app_nil_r|]. split; [done|lia].
Qed.

Lemma InfoJSON_merges_payload_over_fields_witness :
  ∃ s',
    LoggerFields.InfoJSON (λ _, None) "2026-01-01T00:00:00Z" 0
        {["user" := VStr "bob"]} LoggerFields.sample_store = (LoggerFields.Ret tt, s') ∧
    LoggerFields.fields_of s' 0 = {["user" := VStr "ann"]} ∧
    sink_writes (LoggerFields.out s') = [Stdout; File "logs/app.log"].
Proof.
  assert (Hu : LoggerFields.usable LoggerFields.sample_store 0).
  { eexists. split; [reflexivity|]. intros p Hp. inversion Hp; subst. by eexists. }
  destruct (InfoJSON_merges_payload_over_fields (λ _, None) "2026-01-01T00:00:00Z"
              LoggerFields.sample_store 0 _ {["user" := VStr "bob"]} Hu eq_refl)
    as (s' & Hrun & _ & _ & Hfields & _ & evs & Hout & _ & Hevs).
  exists s'. split; [exact Hrun|]. split; [by rewrite Hfields|].
  rewrite Hout. cbn [LoggerFields.out LoggerFields.sample_store app].
  assert (Hle : (rank "INFO" ≤ rank LevelInfo)%Z) by (vm_compute; discriminate).
  specialize (Hevs Hle).
  destruct (marshal_map _) as [c|] eqn:Hm in Hevs.
  - by destruct Hevs as [-> _].
  - exfalso. revert Hm. vm_compute. discriminate.
Defined.

(** The merging loop lays the payload over the fields. *)
Lemma merge_payload_union (payload fields : gmap string value) :
  LoggerCtx.merge_payload payload fields = payload ∪ fields.
Proof. exact (fill_map_to_list payload fields). Qed.

(** X2. [InfoJSON] of the logger that reads the call's context
    (pkg/logger/logger.go).  Below the minimum level it returns without
    looking at the context.  When INFO passes the minimum level, a nil
    context makes it panic, whereas [Info] with a nil context writes its
    line; with a context it never leaves the process, and it serialises one
    entry with an empty message whose context is the payload laid over the
    trace and request ids of the call's context (a payload key [trace_id]
    or [request_id] wins), written once to each sink, or reports on the
    standard error stream when the payload does not serialise. *)
Theorem InfoJSON_panics_on_nil_context
    (Sprintf : string → list value → string) (write_err : Writer → option string)
    (now : string) (l : LoggerCtx.JSONLogger) (payload : gmap string value) :
  ((rank LevelInfo < rank (LoggerCtx.minLevel l))%Z →
     ∀ ctx, LoggerCtx.InfoJSON write_err now l ctx payload = Some []) ∧
  ((rank (LoggerCtx.minLevel l) ≤ rank LevelInfo)%Z →
     LoggerCtx.InfoJSON write_err now l None payload = None ∧
     (∀ msg args,
        sink_writes (LoggerCtx.Info Sprintf write_err now l None msg args)
          = LoggerCtx.writers l) ∧
     ∀ ctx, ∃ evs,
       LoggerCtx.InfoJSON write_err now l (Some ctx) payload = Some evs ∧
       exits evs = false ∧
       match marshal_map (payload ∪ LoggerCtx.context_fields ctx) with
       | None => evs = [EvStderr "Failed to marshal log entry"]
       | Some c =>
           sink_writes evs = LoggerCtx.writers l ∧
           ∃ line,
             written_lines evs = replicate (length (LoggerCtx.writers l)) line ∧
             l_level line = LevelInfo ∧ l_message line = "" ∧
             l_context line =
               (if decide (payload ∪ LoggerCtx.context_fields ctx = ∅) then None
                else Some c)
       end).
Proof.
  unfold LoggerCtx.InfoJSON, LoggerCtx.Info, LoggerCtx.log, LoggerCtx.shouldLog. split.
  - intros Hlt ctx. by rewrite bool_decide_eq_false_2 by lia.
  - intros Hle. rewrite bool_decide_eq_true_2 by lia. cbn [negb].
    split; [reflexivity|]. split.
    + intros msg args.
      destruct (json_Marshal_entry now LevelInfo
        (if bool_decide (0 < length args) then Sprintf msg args else msg)
        (default ∅ None) (LoggerCtx.service l)) as [line Hline].
      rewrite Hline, sink_writes_app, sink_writes_write_all.
      rewrite decide_False by discriminate. apply app_nil_r.
    + intros ctx. eexists. split; [reflexivity|].
      unfold LoggerCtx.json_Marshal.
      cbn [LoggerCtx.Context_ LoggerCtx.Timestamp LoggerCtx.Level LoggerCtx.Message
           LoggerCtx.Service].
      rewrite merge_payload_union.
      destruct (marshal_map (payload ∪ LoggerCtx.context_fields ctx)) as [c|].
      * split; [apply exits_write_all|]. split; [apply sink_writes_write_all|].
        eexists. split; [apply written_lines_write_all|]. by repeat split.
      * by split.
Qed.

Lemma InfoJSON_panics_on_nil_context_witness :
  let l := {| LoggerCtx.writers := [Stdout; File "logs/app.log"];
              LoggerCtx.service := "svc"; LoggerCtx.minLevel := LevelInfo |} in
  LoggerCtx.InfoJSON (λ _, None) "2026-01-01T00:00:00Z" l None
    {["event" := VStr "http_request"]} = None ∧
  sink_writes (LoggerCtx.Info (λ s _, s) (λ _, None) "2026-01-01T00:00:00Z" l None
                 "started" []) = [Stdout; File "logs/app.log"].
Proof.
  intros l.
  destruct (InfoJSON_panics_on_nil_context (λ s _, s) (λ _, None) "2026-01-01T00:00:00Z" l
              {["event" := VStr "http_request"]}) as [_ H].
  assert (Hle : (rank (LoggerCtx.minLevel l) ≤ rank LevelInfo)%Z)
    by (vm_compute; discriminate).
  destruct (H Hle) as (Hnil & Hinfo & _).
  split; [exact Hnil|exact (Hinfo "started" [])].
Defined.

(** The loop of [Close]: without a failure every sink is closed; else the
    sinks up to the first one whose [Close] fails are closed, that one
    included, and the failure is returned wrapped. *)
Lemma close_all_spec (close_err : Writer → option string) (ws : list Writer) :
  match close_all close_err ws with
  | (closed, None) => closed = ws ∧ Forall (λ w, close_err w = None) ws
  | (closed, Some e) =>
      ∃ before w e0 after,
        ws = (before ++ w :: after)%list ∧ closed = (before ++ [w])%list ∧
        Forall (λ x, close_err x = None) before ∧ close_err w = Some e0 ∧
        e = "failed to close writer: " ++ e0
  end.
Proof.
  induction ws as [|w ws IH]; [by split|].
  cbn [close_all]. destruct (close_err w) as [e0|] eqn:Hw.
  - exists [], w, e0, ws. by repeat split.
  - destruct (close_all close_err ws) as [cl [e|]].
    + destruct IH as (before & w' & e0 & after & -> & -> & Hb & Hw' & ->).
      exists (w :: before), w', e0, after. repeat split; try done. by constructor.
    + destruct IH as [-> Hall]. split; [done|by constructor].
Qed.

(** X3. [Close] (both logger variants) calls [Close] on the sinks in their
    order, the standard output included, and stops at the first failure:
    it returns nil exactly when no sink fails, and then every sink has been
    closed; when the sink [w] is the first to fail, the sinks before it and
    [w] have been closed, the sinks after it are left open, and the error
    is the failure wrapped as "failed to close writer: ...".  On the
    logger of unnamed/part_006 the call returns and leaves the store as it
    is. *)
Theorem Close_stops_at_first_failure
    (close_err : Writer → option string) (l : LoggerCtx.JSONLogger)
    (s : LoggerFields.Store) (p : nat) (lg : LoggerFields.JSONLogger) :
  LoggerFields.loggers s !! p = Some lg →
  LoggerFields.writers lg = LoggerCtx.writers l →
  LoggerFields.Close close_err p s = (LoggerFields.Ret (LoggerCtx.Close close_err l), s) ∧
  (snd (LoggerCtx.Close close_err l) = None ↔
     Forall (λ w, close_err w = None) (LoggerCtx.writers l)) ∧
  (snd (LoggerCtx.Close close_err l) = None →
     fst (LoggerCtx.Close close_err l) = LoggerCtx.writers l) ∧
  (∀ e, snd (LoggerCtx.Close close_err l) = Some e →
     ∃ before w e0 after,
       LoggerCtx.writers l = (before ++ w :: after)%list ∧
       fst (LoggerCtx.Close close_err l) = (before ++ [w])%list ∧
       Forall (λ x, close_err x = None) before ∧
       close_err w = Some e0 ∧
       e = "failed to close writer: " ++ e0).
Proof.
  intros Hp Hws. split.
  { unfold LoggerFields.Close, LoggerCtx.Close, mbind, LoggerFields.M_bind,
      LoggerFields.read_logger. by rewrite Hp, Hws. }
  unfold LoggerCtx.Close.
  pose proof (close_all_spec close_err (LoggerCtx.writers l)) as H.
  destruct (close_all close_err (LoggerCtx.writers l)) as [closed [e|]]; cbn [fst snd].
  - destruct H as (before & w & e0 & after & Hl & Hc & Hb & Hw & He).
    split; [split; [done|]|split; [done|]].
    + intros Hall. rewrite Hl in Hall. apply Forall_app in Hall as [_ Hall].
      apply Forall_cons in Hall as [Hw' _]. congruence.
    + intros e' [= <-]. by exists before, w, e0, after.
  - destruct H as [-> Hall]. split; [done|]. split; [done|]. intros e' [=].
Qed.

Lemma Close_stops_at_first_failure_witness :
  let l := {| LoggerCtx.writers := [Stdout; File "logs/app.log"; File "logs/audit.log"];
              LoggerCtx.service := "svc"; LoggerCtx.minLevel := LevelInfo |} in
  let close_err := λ w, if decide (w = File "logs/app.log") then Some "disk full" else None in
  ∃ before w e0 after,
    LoggerCtx.writers l = (before ++ w :: after)%list ∧
    fst (LoggerCtx.Close close_err l) = (before ++ [w])%list ∧
    Forall (λ x, close_err x = None) before ∧
    close_err w = Some e0 ∧
    "failed to close writer: disk full" = "failed to close writer: " ++ e0.
Proof.
  intros l close_err.
  pose (s := {| LoggerFields.loggers :=
                  {[0 := {| LoggerFields.writers :=
                              [Stdout; File "logs/app.log"; File "logs/audit.log"];
                            LoggerFields.context := None; LoggerFields.traceID := "";
                            LoggerFields.service := "svc";
                            LoggerFields.minLevel := LevelInfo |}]};
                LoggerFields.maps := ∅; LoggerFields.out := [] |}).
  destruct (Close_stops_at_first_failure close_err l s 0 _ eq_refl eq_refl)
    as (_ & _ & _ & H).
  exact (H "failed to close writer: disk full" eq_refl).
Defined.

(** X4. [NewJSONLogger] (unnamed/part_006) never panics and never hands
    out a logger without a sink.  It returns a logger exactly when the
    configuration enables an output, gives a file path if the file output is
    enabled, and the logs directory and the file can be opened when the file
    output is enabled; every other configuration gives an error and leaves
    the store as it is.  The logger returned is new, writes to the standard
    output first (if enabled) and then to the file (if enabled), has the
    service name and minimum level of the configuration, no trace id and
    no field, can be used, and nothing that existed has changed or been
    written. *)
Theorem NewJSONLogger_has_a_sink
    (mkdir_err open_err : option string) (cfg : LoggerFields.Config)
    (s : LoggerFields.Store) :
  LoggerFields.NewJSONLogger mkdir_err open_err None s
    = (LoggerFields.Ret (inr "Config not found"), s) ∧
  match LoggerFields.NewJSONLogger mkdir_err open_err (Some cfg) s with
  | (LoggerFields.Ret (inl l), s') =>
      (LoggerFields.EnableConsole cfg = true ∨ LoggerFields.EnableFile cfg = true) ∧
      (LoggerFields.EnableFile cfg = true →
         LoggerFields.LogFilePath cfg ≠ "" ∧ mkdir_err = None ∧ open_err = None) ∧
      LoggerFields.loggers s !! l = None ∧
      (∀ q lg', LoggerFields.loggers s !! q = Some lg' →
                LoggerFields.loggers s' !! q = Some lg') ∧
      (∀ p m, LoggerFields.maps s !! p = Some m → LoggerFields.maps s' !! p = Some m) ∧
      LoggerFields.out s' = LoggerFields.out s ∧
      LoggerFields.usable s' l ∧
      LoggerFields.fields_of s' l = ∅ ∧
      ∃ lg,
        LoggerFields.loggers s' !! l = Some lg ∧
        LoggerFields.writers lg =
          ((if LoggerFields.EnableConsole cfg then [Stdout] else []) ++
           (if LoggerFields.EnableFile cfg
            then [File (LoggerFields.LogFilePath cfg)] else []))%list ∧
        LoggerFields.writers lg ≠ [] ∧
        LoggerFields.service lg = LoggerFields.ServiceName cfg ∧
        LoggerFields.minLevel lg = LoggerFields.MinLevel cfg ∧
        LoggerFields.traceID lg = ""
  | (LoggerFields.Ret (inr e), s') =>
      s' = s ∧
      ((LoggerFields.EnableConsole cfg = false ∧ LoggerFields.EnableFile cfg = false) ∨
       (LoggerFields.EnableFile cfg = true ∧
        (LoggerFields.LogFilePath cfg = "" ∨ mkdir_err ≠ None ∨ open_err ≠ None)))
  | _ => False
  end.
Proof.
  split; [reflexivity|].
  unfold LoggerFields.NewJSONLogger, LoggerFields.Validate.
  destruct cfg as [path name console file lvl].
  cbn [LoggerFields.EnableConsole LoggerFields.EnableFile LoggerFields.LogFilePath
       LoggerFields.ServiceName LoggerFields.MinLevel].
  assert (Hfresh_l : LoggerFields.loggers s !! fresh (dom (LoggerFields.loggers s)) = None).
  { apply not_elem_of_dom, is_fresh. }
  assert (Hold : ∀ (lg : LoggerFields.JSONLogger) q lg',
            LoggerFields.loggers s !! q = Some lg' →
            <[fresh (dom (LoggerFields.loggers s)) := lg]> (LoggerFields.loggers s) !! q
              = Some lg').
  { intros lg q lg' Hq. rewrite lookup_insert_ne; [done|by eapply fresh_logger_new]. }
  assert (Hmaps : ∀ p m, LoggerFields.maps s !! p = Some m →
            <[fresh (dom (LoggerFields.maps s)) := ∅]> (LoggerFields.maps s) !! p = Some m).
  { intros p m Hp. rewrite lookup_insert_ne; [done|by eapply fresh_map_new]. }
  assert (Huse : ∀ ws,
    LoggerFields.usable
      (LoggerFields.set_loggers
         (insert (fresh (dom (LoggerFields.loggers s)))
            {| LoggerFields.writers := ws;
               LoggerFields.context := Some (fresh (dom (LoggerFields.maps s)));
               LoggerFields.traceID := ""; LoggerFields.service := name;
               LoggerFields.minLevel := lvl |})
         (LoggerFields.set_maps (insert (fresh (dom (LoggerFields.maps s))) ∅) s))
      (fresh (dom (LoggerFields.loggers s))) ∧
    LoggerFields.fields_of
      (LoggerFields.set_loggers
         (insert (fresh (dom (LoggerFields.loggers s)))
            {| LoggerFields.writers := ws;
               LoggerFields.context := Some (fresh (dom (LoggerFields.maps s)));
               LoggerFields.traceID := ""; LoggerFields.service := name;
               LoggerFields.minLevel := lvl |})
         (LoggerFields.set_maps (insert (fresh (dom (LoggerFields.maps s))) ∅) s))
      (fresh (dom (LoggerFields.loggers s))) = ∅).
  { intros ws. unfold LoggerFields.usable, LoggerFields.fields_of,
      LoggerFields.set_loggers, LoggerFields.set_maps.
    cbn [LoggerFields.loggers LoggerFields.maps LoggerFields.out].
    rewrite lookup_insert_eq. cbn [LoggerFields.context]. rewrite lookup_insert_eq.
    split; [|done]. eexists. split; [done|]. cbn [LoggerFields.context].
    intros p [= <-]. rewrite lookup_insert_eq. by eexists. }
  destruct console, file; cbn [negb andb]; try case_bool_decide;
    try destruct mkdir_err as [me|]; try destruct open_err as [oe|];
    unfold mret, LoggerFields.M_ret, mbind, LoggerFields.M_bind,
      LoggerFields.make_map, LoggerFields.new_logger;
    cbn [LoggerFields.loggers LoggerFields.maps LoggerFields.out
         LoggerFields.set_maps LoggerFields.set_loggers];
    try (split; [reflexivity|]; (by left) || (right; split; [done|]; auto; fail));
    try (split; [reflexivity|]; right; split; [done|];
         (by left) || (by right; left) || (by right; right));
    (repeat match goal with |- _ ∧ _ => split end);
    try done; try (by left); try (by right); try (intros [=]); try apply Huse;
    try apply Hold;
    try (eexists; split; [apply lookup_insert_eq|]; by repeat split).
Qed.

(** X5. [NewDefaultLogger] (pkg/logger/logger.go) fails exactly when the
    logs directory or the log file cannot be opened; it then returns no
    logger, although the line it prints on the standard error stream
    announces a simple logger.  Otherwise the logger writes to the standard
    output and then to logs/app.log, at the minimum level INFO: a DEBUG call
    writes nothing, and a call at any level ranked INFO or higher writes
    its line to both sinks, with the service name given, which is left out
    of the line when it is empty. *)
Theorem NewDefaultLogger_sinks
    (mkdir_err open_err : option string) (serviceName : string) :
  match LoggerCtx.NewDefaultLogger mkdir_err open_err serviceName with
  | (inl l, evs) =>
      mkdir_err = None ∧ open_err = None ∧ evs = [] ∧
      LoggerCtx.writers l = [Stdout; File "logs/app.log"] ∧
      (∀ Sprintf write_err now ctx msg args,
         LoggerCtx.Debug Sprintf write_err now l ctx msg args = []) ∧
      (∀ Sprintf write_err now ctx level msg args,
         (rank LevelInfo ≤ rank level)%Z →
         sink_writes (LoggerCtx.log Sprintf write_err now l ctx level msg args)
           = [Stdout; File "logs/app.log"] ∧
         ∃ line,
           written_lines (LoggerCtx.log Sprintf write_err now l ctx level msg args)
             = [line; line] ∧
           l_service line = (if decide (serviceName = "") then None else Some serviceName))
  | (inr e, evs) =>
      (mkdir_err ≠ None ∨ open_err ≠ None) ∧
      evs = [EvStderr ("Failed to create JSON logger, using simple logger: " ++ e)]
  end.
Proof.
  unfold LoggerCtx.NewDefaultLogger, LoggerCtx.NewJSONLogger, LoggerCtx.DefaultConfig.
  cbn [LoggerCtx.Validate LoggerCtx.EnableConsole LoggerCtx.EnableFile
       LoggerCtx.LogFilePath LoggerCtx.ServiceName LoggerCtx.MinLevel negb andb].
  rewrite bool_decide_eq_false_2 by discriminate.
  destruct mkdir_err as [me|]; [by split; [left|]|].
  destruct open_err as [oe|]; [by split; [right|]|].
  cbn [app]. do 4 (split; [reflexivity|]). split.
  - intros. unfold LoggerCtx.Debug, LoggerCtx.log, LoggerCtx.shouldLog.
    cbn [LoggerCtx.minLevel]. rewrite bool_decide_eq_false_2; [reflexivity|].
    vm_compute. by intros H.
  - intros Sprintf write_err now ctx level msg args Hle.
    unfold LoggerCtx.log, LoggerCtx.shouldLog. cbn [LoggerCtx.minLevel].
    rewrite bool_decide_eq_true_2 by done. cbn [negb LoggerCtx.writers LoggerCtx.service].
    destruct (json_Marshal_entry now level
      (if bool_decide (0 < length args) then Sprintf msg args else msg)
      (default ∅ ctx) serviceName) as [line Hline].
    rewrite Hline, sink_writes_app, sink_writes_write_all.
    rewrite written_lines_app, written_lines_write_all. split.
    + destruct (decide (level = LevelFatal)); reflexivity.
    + exists line. split; [destruct (decide (level = LevelFatal)); reflexivity|].
      unfold LoggerCtx.json_Marshal in Hline. cbn in Hline.
      destruct (marshal_map _); [|done]. by inversion Hline.
Qed.

(** ** What the exported calls of unnamed/part_006 can build *)

Section LoggerFieldsApi.
Import LoggerFields.

(** A store that keeps the old structs and maps, and whose other structs
    are usable and without fields, is without fields when the old one is. *)
Lemma fieldless_extend s s' :
  fieldless s →
  (∀ q lg, loggers s !! q = Some lg → loggers s' !! q = Some lg) →
  (∀ p m, maps s !! p = Some m → maps s' !! p = Some m) →
  (∀ q lg, loggers s' !! q = Some lg →
     is_Some (loggers s !! q) ∨ (usable s' q ∧ fields_of s' q = ∅)) →
  fieldless s'.
Proof.
  intros Hf Hl Hm Hnew q lg' Hq.
  destruct (Hnew q lg' Hq) as [[lg Hold]|?]; [|done].
  destruct (Hf q lg Hold) as [Hu Hfields]. split.
  - destruct Hu as (lg0 & Hl0 & Hc). exists lg0. split; [by apply Hl|].
    intros p Hp. destruct (Hc p Hp) as [m Hmp]. exists m. by apply Hm.
  - by rewrite (fields_of_frame s s' q lg Hu Hold Hl Hm).
Qed.

Lemma fieldless_emit s evs : fieldless s → fieldless (emit evs s).
Proof.
  intros Hf. apply (fieldless_extend s); [done|done|done|].
  intros q lg Hq. left. by exists lg.
Qed.

Lemma fieldless_new_map s (m : gmap string value) :
  fieldless s → fieldless (set_maps (insert (fresh (dom (maps s))) m) s).
Proof.
  intros Hf. apply (fieldless_extend s); [done|done| |].
  - intros p m' Hp. unfold set_maps. cbn [maps].
    rewrite lookup_insert_ne; [done|by eapply fresh_map_new].
  - intros q lg Hq. left. by exists lg.
Qed.

Lemma fieldless_new_logger s (lg : JSONLogger) :
  fieldless s →
  (∀ p, context lg = Some p → maps s !! p = Some ∅) →
  fieldless (set_loggers (insert (fresh (dom (loggers s))) lg) s).
Proof.
  intros Hf Hc. apply (fieldless_extend s); [done| |done|].
  - intros q lg' Hq. unfold set_loggers. cbn [loggers].
    rewrite lookup_insert_ne; [done|by eapply fresh_logger_new].
  - intros q lg' Hq. unfold set_loggers in Hq. cbn [loggers] in Hq.
    destruct (decide (q = fresh (dom (loggers s)))) as [->|Hne].
    + right. rewrite lookup_insert_eq in Hq. inversion Hq; subst lg'. split.
      * exists lg. split; [unfold set_loggers; cbn [loggers]; apply lookup_insert_eq|].
        intros p Hp. cbn [maps set_loggers]. rewrite (Hc p Hp). by eexists.
      * unfold fields_of, set_loggers. cbn [loggers maps].
        rewrite lookup_insert_eq. destruct (context lg) as [p|] eqn:Hp; [|done].
        by rewrite (Hc p eq_refl).
    + left. rewrite lookup_insert_ne in Hq by done. by exists lg'.
Qed.

(** Every call keeps a store without fields without fields: a new logger
    starts with an empty map, and [copyContext] hands a derived logger
    the nil map. *)
Lemma store_after_fieldless a s : fieldless s → fieldless (store_after a s).
Proof.
  intros Hf.
  assert (Hnew : ∀ mkdir_err open_err config,
            fieldless (snd (NewJSONLogger mkdir_err open_err config s)) ∧
            ∀ e s', NewJSONLogger mkdir_err open_err config s = (Ret (inr e), s') → s' = s).
  { intros mkdir_err open_err config. unfold NewJSONLogger.
    destruct config as [cfg|]; [|split; [done|by intros e s' [= _ <-]]].
    destruct (Validate cfg); [split; [done|by intros e s' [= _ <-]]|].
    set (ws := if EnableFile cfg then _ else _).
    destruct ws as [ws|e]; [|split; [done|by intros e' s' [= _ <-]]].
    unfold mbind, M_bind, make_map, new_logger, mret, M_ret. cbn [snd].
    split; [|intros e s' [=]].
    apply (fieldless_new_logger (set_maps (insert (fresh (dom (maps s))) ∅) s));
      [by apply fieldless_new_map|].
    cbn [context]. intros p [= <-]. unfold set_maps. cbn [maps].
    apply lookup_insert_eq. }
  destruct a as [mkdir_err open_err config|mkdir_err open_err serviceName|d l
                |Sprintf write_err now l level msg args|write_err now l payload
                |close_err l]; cbn [store_after].
  - apply Hnew.
  - unfold NewDefaultLogger, mbind, M_bind.
    destruct (Hnew mkdir_err open_err (Some (DefaultConfig serviceName))) as [Hs He].
    destruct (NewJSONLogger mkdir_err open_err (Some (DefaultConfig serviceName)) s)
      as [[[l|e]|msg|code] s'] eqn:Hcall; cbn [snd] in *; try done.
    all: unfold output, mret, M_ret; cbn [snd]; by apply fieldless_emit.
  - destruct (loggers s !! l) as [lg|] eqn:Hl.
    + rewrite (derive_spec _ _ _ d Hl).
      destruct (Hf l lg Hl) as [_ He]. rewrite decide_True by done. cbn [snd].
      apply fieldless_new_logger; [done|]. cbn [context child_struct]. by intros p [=].
    + destruct d; cbn [derive];
        unfold WithContext, WithField, WithTraceID, clone, mbind, M_bind, read_logger;
        by rewrite Hl.
  - destruct (loggers s !! l) as [lg|] eqn:Hl.
    + destruct (Hf l lg Hl) as [_ He].
      unfold log, mbind, M_bind, read_logger. rewrite Hl.
      destruct (shouldLog lg level); cbn [negb]; [|done].
      rewrite (copyContext_spec _ _ _ Hl), decide_True by done.
      unfold json_Marshal, mbind, M_bind, read_map, mret, M_ret, output, exit_.
      cbn [Context].
      destruct (marshal_map ∅) as [c|]; [|by apply fieldless_emit].
      destruct (decide (level = LevelFatal)); cbn [snd];
        by repeat apply fieldless_emit.
    + unfold log, mbind, M_bind, read_logger. by rewrite Hl.
  - destruct (loggers s !! l) as [lg|] eqn:Hl.
    + rewrite (InfoJSON_spec write_err now _ _ _ payload Hl).
      destruct (shouldLog lg LevelInfo); cbn [negb snd]; [|done].
      by apply fieldless_emit, fieldless_new_map.
    + unfold InfoJSON, mbind, M_bind, read_logger. by rewrite Hl.
  - unfold Close, mbind, M_bind, read_logger.
    by destruct (loggers s !! l) as [lg|].
Qed.

Lemma after_snoc calls a : after (calls ++ [a]) = store_after a (after calls).
Proof. unfold after. by rewrite foldl_app. Qed.

Lemma after_fieldless calls : fieldless (after calls).
Proof.
  induction calls as [|a calls IH] using rev_ind.
  - intros l lg Hl. unfold after in Hl. cbn in Hl. by rewrite lookup_empty in Hl.
  - rewrite after_snoc. by apply store_after_fieldless.
Qed.

End LoggerFieldsApi.



(** X22. unnamed/part_006, seen from outside the package: whatever calls
    of [NewJSONLogger], [NewDefaultLogger], [WithContext], [WithField],
    [WithTraceID], the level methods, [InfoJSON] and [Close] came before,
    whatever their arguments and however each of them ended (a call
    after a panic is one made after recovering from it), a logger that
    exists then carries no field.  So on every such logger [WithField]
    panics with the write to a nil map, [WithContext] panics likewise
    unless it is given no field, [WithTraceID] returns a new logger, a
    level method writes lines without a context, and [Fatal] ends the
    process with code 1. *)
Theorem exported_calls_never_build_a_logger_with_fields
    (calls : list LoggerFields.api_call) (l : nat) (lg : LoggerFields.JSONLogger) :
  LoggerFields.loggers (LoggerFields.after calls) !! l = Some lg →
  let s := LoggerFields.after calls in
  LoggerFields.usable s l ∧
  LoggerFields.fields_of s l = ∅ ∧
  (∀ key v,
     fst (LoggerFields.WithField l key v s)
       = LoggerFields.Panicked LoggerFields.nil_map_write) ∧
  (∀ fields,
     fst (LoggerFields.WithContext l fields s)
       = if decide (fields = ∅)
         then LoggerFields.Ret (fresh (dom (LoggerFields.loggers s)))
         else LoggerFields.Panicked LoggerFields.nil_map_write) ∧
  (∀ t,
     fst (LoggerFields.WithTraceID l t s)
       = LoggerFields.Ret (fresh (dom (LoggerFields.loggers s)))) ∧
  (∀ Sprintf write_err now level msg args,
     ∃ evs,
       LoggerFields.out (snd (LoggerFields.log Sprintf write_err now l level msg args s))
         = (LoggerFields.out s ++ evs)%list ∧
       Forall (λ line, l_context line = None) (written_lines evs)) ∧
  (∀ Sprintf write_err now msg args,
     fst (LoggerFields.Fatal Sprintf write_err now l msg args s) = LoggerFields.Exited 1).
Proof.
  intros Hl s.
  destruct (after_fieldless calls l lg Hl) as [Hu He]. fold s in Hu, He, Hl.
  assert (Hd : ∀ d, fst (LoggerFields.derive d l s)
                 = if decide (LoggerFields.added d = ∅)
                   then LoggerFields.Ret (fresh (dom (LoggerFields.loggers s)))
                   else LoggerFields.Panicked LoggerFields.nil_map_write).
  { intros d. rewrite (derive_spec _ _ _ d Hl), decide_True by done. done. }
  split; [done|]. split; [done|]. split; [|split; [|split; [|split]]].
  - intros key v. pose proof (Hd (LoggerFields.ByField key v)) as Hk.
    cbn [LoggerFields.added LoggerFields.derive] in Hk.
    by rewrite decide_False in Hk by apply insert_non_empty.
  - intros fields. apply (Hd (LoggerFields.ByContext fields)).
  - intros t. pose proof (Hd (LoggerFields.ByTraceID t)) as Ht.
    cbn [LoggerFields.added LoggerFields.derive] in Ht.
    by rewrite decide_True in Ht.
  - intros Sprintf write_err now level msg args.
    destruct (log_spec Sprintf write_err now s l lg level msg args Hl) as [_ Ho].
    eexists. split; [exact Ho|]. rewrite He.
    unfold LoggerFields.log_events, LoggerFields.line_of.
    destruct (LoggerFields.shouldLog lg level); cbn [negb]; [|constructor].
    change (marshal_map ∅) with (Some (∅ : gmap string jval)). cbv beta iota.
    rewrite written_lines_app, written_lines_write_all.
    apply Forall_app. split.
    + apply Forall_forall. intros line Hline.
      apply elem_of_replicate in Hline as [-> _]. reflexivity.
    + destruct (decide (level = LevelFatal)); constructor.
  - intros Sprintf write_err now msg args.
    destruct (log_spec Sprintf write_err now s l lg LevelFatal msg args Hl) as [Hr _].
    unfold LoggerFields.Fatal. rewrite Hr, He.
    unfold LoggerFields.log_result, LoggerFields.line_of, LoggerFields.shouldLog.
    rewrite bool_decide_eq_true_2 by apply fatal_passes. cbn [negb].
    change (marshal_map ∅) with (Some (∅ : gmap string jval)). cbv beta iota.
    by rewrite decide_True.
Qed.

Lemma exported_calls_never_build_a_logger_with_fields_witness :
  let calls :=
    [LoggerFields.CallNewJSONLogger None None (Some (LoggerFields.DefaultConfig "svc"));
     LoggerFields.CallInfoJSON (λ _, None) "2026-01-01T00:00:00Z" 0 {["user" := VStr "ann"]};
     LoggerFields.CallDerive (LoggerFields.ByTraceID "t-1") 0] in
  LoggerFields.loggers (LoggerFields.after calls) !! 1
    = Some {| LoggerFields.writers := [Stdout; File "logs/app.log"];
              LoggerFields.context := None;
              LoggerFields.traceID := "t-1";
              LoggerFields.service := "svc";
              LoggerFields.minLevel := LevelInfo |} ∧
  fst (LoggerFields.WithField 1 "user" (VStr "ann") (LoggerFields.after calls))
    = LoggerFields.Panicked LoggerFields.nil_map_write.
Proof.
  intros calls.
  assert (H : LoggerFields.loggers (LoggerFields.after calls) !! 1
    = Some {| LoggerFields.writers := [Stdout; File "logs/app.log"];
              LoggerFields.context := None;
              LoggerFields.traceID := "t-1";
              LoggerFields.service := "svc";
              LoggerFields.minLevel := LevelInfo |}) by (vm_compute; reflexivity).
  split; [exact H|].
  apply (exported_calls_never_build_a_logger_with_fields calls 1 _ H).
Defined.

(** ** pkg/response/response.go: the helpers *)

(** When the envelope cannot be encoded: exactly when its data is a map
    holding a value the encoder refuses. *)
Lemma encode_response_fails (r : Http.Response) :
  Http.encode_response r = None ↔
  ∃ m, Http.Data_ r = Some (Http.DataValues m) ∧
       ¬ map_Forall (λ _ v, is_Some (marshal_value v)) m.
Proof.
  unfold Http.encode_response, Http.encode_data, marshal_map.
  destruct (Http.Data_ r) as [[m|m]|]; cbn.
  - split; [done|]. by intros (m' & [=] & _).
  - destruct (decide (map_Forall (λ _ v, is_Some (marshal_value v)) m)) as [Hall|Hno]; cbn.
    + split; [done|]. intros (m' & [= <-] & Hno). done.
    + split; [|done]. intros _. by exists m.
  - split; [done|]. by intros (m' & [=] & _).
Qed.

(** X6. [SendJSON] writes the status before it encodes the body.  Take a
    status that net/http accepts ([WriteHeader] panics on a code outside
    100..999) and that allows a body (not 1xx, 204 or 304), and a writer
    whose header has not been written.  Then the response carries the
    status asked for whether or not the envelope can be encoded.  An
    envelope that can be encoded is written as one JSON document with the
    content type application/json; one that cannot (its data holds a
    channel or a function) gives the line "Failed to encode response" under
    the status asked for, not under 500, the status [http.Error] is called
    with. *)
Theorem SendJSON_status_precedes_encoding
    (statusCode : Z) (response : Http.Response) (w : Http.ResponseWriter) :
  Http.checkWriteHeaderCode statusCode = true →
  Http.bodyAllowedForStatus statusCode = true →
  Http.status w = None →
  Http.status (Http.SendJSON statusCode response w) = Some statusCode ∧
  (∀ j, Http.encode_response response = Some j →
     Http.body (Http.SendJSON statusCode response w) = (Http.body w ++ [Http.Doc j])%list ∧
     Http.Header (Http.SendJSON statusCode response w) !! "Content-Type"
       = Some "application/json") ∧
  ((∃ m, Http.Data_ response = Some (Http.DataValues m) ∧
         ¬ map_Forall (λ _ v, is_Some (marshal_value v)) m) →
     Http.body (Http.SendJSON statusCode response w)
       = (Http.body w ++ [Http.Text ("Failed to encode response" ++ Http.newline)])%list).
Proof.
  intros _ _ Hs. unfold Http.SendJSON.
  destruct (Http.encode_response response) as [j|] eqn:He.
  - unfold Http.Write, Http.WriteHeader, Http.Header_Set. cbn. rewrite Hs. cbn.
    split; [done|]. split.
    + intros j' [= <-]. split; [done|]. apply lookup_insert_eq.
    + intros Hm. apply encode_response_fails in Hm. congruence.
  - unfold Http.http_Error, Http.Write, Http.WriteHeader, Http.Header_Set. cbn.
    rewrite Hs. cbn. split; [done|]. split; [by intros j [=]|done].
Qed.

Lemma SendJSON_status_precedes_encoding_witness :
  let bad := {| Http.Success := true; Http.Message := "ok";
                Http.Data_ := Some (Http.DataValues {["conn" := VChan 1]});
                Http.Error := "" |} in
  Http.status (Http.SendJSON 200 bad Http.new_writer) = Some 200%Z ∧
  Http.body (Http.SendJSON 200 bad Http.new_writer)
    = [Http.Text ("Failed to encode response" ++ Http.newline)].
Proof.
  intros bad.
  destruct (SendJSON_status_precedes_encoding 200 bad Http.new_writer eq_refl eq_refl eq_refl)
    as (Hst & _ & Hbody).
  split; [exact Hst|]. apply Hbody.
  exists {["conn" := VChan 1]}. split; [reflexivity|].
  intros H. specialize (H "conn" (VChan 1) (lookup_singleton_eq _ _)).
  by destruct H.
Defined.

(** X7. Each of the ten error helpers that take only a message
    ([SendUnauthorized], [SendForbidden], [SendNotFound], [SendConflict],
    [SendTooManyRequests], [SendInternalServerError], [SendNotImplemented],
    [SendBadGateway], [SendServiceUnavailable], [SendGatewayTimeout])
    answers, on a fresh writer, with its own 4xx or 5xx status and one JSON
    document with exactly the members success, message and error, in this
    order: success is false, the message is the one given, or the helper's
    default when the empty string is given, so it is never empty, and the
    error text is never empty. *)
Theorem error_helpers_envelope
    (code : Z) (send : string → Http.ResponseWriter → Http.ResponseWriter)
    (message : string) :
  (code, send) ∈ Http.message_helpers →
  (400 ≤ code < 600)%Z ∧
  Http.status (send message Http.new_writer) = Some code ∧
  Http.Header (send message Http.new_writer) !! "Content-Type" = Some "application/json" ∧
  ∃ m e,
    Http.body (send message Http.new_writer)
      = [Http.Doc (Http.JsObj [("success", Http.JsBool false);
                               ("message", Http.JsStr m);
                               ("error", Http.JsStr e)])] ∧
    m ≠ "" ∧ e ≠ "" ∧ (message ≠ "" → m = message).
Proof.
  intros Hin. unfold Http.message_helpers in Hin.
  repeat (apply elem_of_cons in Hin as [[= -> ->]|Hin]);
    [..|by apply elem_of_nil in Hin];
    (split; [lia|]);
    unfold Http.SendUnauthorized, Http.SendForbidden, Http.SendNotFound,
      Http.SendConflict, Http.SendTooManyRequests, Http.SendInternalServerError,
      Http.SendNotImplemented, Http.SendBadGateway, Http.SendServiceUnavailable,
      Http.SendGatewayTimeout;
    (destruct (decide (message = "")) as [->|Hne];
     [split; [reflexivity|]; split; [reflexivity|];
      eexists _, _; split; [reflexivity|]; by repeat split
     |split; [reflexivity|]; split; [reflexivity|];
      eexists _, _; split; [reflexivity|]; by repeat split]).
Qed.

Lemma error_helpers_envelope_witness :
  Http.status (Http.SendNotFound "" Http.new_writer) = Some 404%Z ∧
  Http.status (Http.SendServiceUnavailable "down for maintenance" Http.new_writer)
    = Some 503%Z.
Proof.
  assert (H1 : (404%Z, Http.SendNotFound) ∈ Http.message_helpers).
  { unfold Http.message_helpers. do 2 apply list_elem_of_further. apply list_elem_of_here. }
  assert (H2 : (503%Z, Http.SendServiceUnavailable) ∈ Http.message_helpers).
  { unfold Http.message_helpers. do 8 apply list_elem_of_further. apply list_elem_of_here. }
  destruct (error_helpers_envelope 404 Http.SendNotFound "" H1) as (_ & Ha & _).
  destruct (error_helpers_envelope 503 Http.SendServiceUnavailable "down for maintenance" H2)
    as (_ & Hb & _).
  split; [exact Ha|exact Hb].
Defined.

Lemma string_app_assoc (s1 s2 s3 : string) : (s1 ++ s2) ++ s3 = s1 ++ s2 ++ s3.
Proof.
  induction s1 as [|c s1 IH]; [reflexivity|].
  change (String c ((s1 ++ s2) ++ s3) = String c (s1 ++ s2 ++ s3)). by rewrite IH.
Qed.

(** Past the first element the loop of [joinMethods] puts the separator
    before every method. *)
Lemma joinMethods_from_later (i : nat) (methods : list string) (result : string) :
  Http.joinMethods_from (S i) methods result =
    match methods with
    | [] => result
    | _ => result ++ ", " ++ String.concat ", " methods
    end.
Proof.
  revert i result. induction methods as [|m rest IH]; intros i result; [reflexivity|].
  cbn [Http.joinMethods_from]. rewrite bool_decide_eq_true_2 by lia.
  rewrite IH. destruct rest as [|m' rest'].
  - cbn [String.concat]. by rewrite string_app_assoc.
  - change (String.concat ", " (m :: m' :: rest'))
      with (m ++ ", " ++ String.concat ", " (m' :: rest')).
    by rewrite !string_app_assoc.
Qed.

(** X8. [joinMethods] joins the methods with ", " between them and
    nothing at either end, as [strings.Join] does, and
    [SendMethodNotAllowed] sets the [Allow] header to that list exactly when
    at least one method is given; with no method the header is not set at
    all.  Either way the status is 405 and the body is the same envelope. *)
Theorem SendMethodNotAllowed_sets_Allow (allowedMethods : list string) :
  Http.joinMethods allowedMethods = String.concat ", " allowedMethods ∧
  Http.Header (Http.SendMethodNotAllowed allowedMethods Http.new_writer) !! "Allow"
    = (if decide (allowedMethods = []) then None
       else Some (String.concat ", " allowedMethods)) ∧
  Http.status (Http.SendMethodNotAllowed allowedMethods Http.new_writer) = Some 405%Z ∧
  Http.body (Http.SendMethodNotAllowed allowedMethods Http.new_writer)
    = [Http.Doc (Http.JsObj
         [("success", Http.JsBool false);
          ("message", Http.JsStr "Method Not Allowed");
          ("error", Http.JsStr "HTTP method not allowed for this endpoint")])].
Proof.
  assert (Hjoin : Http.joinMethods allowedMethods = String.concat ", " allowedMethods).
  { unfold Http.joinMethods. destruct allowedMethods as [|m rest]; [reflexivity|].
    cbn [Http.joinMethods_from]. rewrite bool_decide_eq_false_2 by lia.
    rewrite joinMethods_from_later. by destruct rest. }
  split; [exact Hjoin|]. unfold Http.SendMethodNotAllowed. rewrite Hjoin.
  destruct allowedMethods as [|m rest].
  - by repeat split.
  - rewrite bool_decide_eq_true_2 by (cbn; lia). rewrite decide_False by done.
    by repeat split.
Qed.

(** X9. [SendBadRequest] answers 400 with success false.  Of the error
    strings it is given it uses the first and drops the others; the [error]
    member is left out of the document when no error string is given or
    the first one is empty.  An empty message is replaced by
    "Bad Request". *)
Theorem SendBadRequest_uses_first_error (message : string) (errors : list string) :
  Http.SendBadRequest message errors Http.new_writer
    = Http.SendBadRequest message (take 1 errors) Http.new_writer ∧
  Http.status (Http.SendBadRequest message errors Http.new_writer) = Some 400%Z ∧
  Http.body (Http.SendBadRequest message errors Http.new_writer)
    = [Http.Doc (Http.JsObj
         ([("success", Http.JsBool false);
           ("message", Http.JsStr (if decide (message = "") then "Bad Request" else message))]
          ++ match errors with
             | [] => []
             | e :: _ => if decide (e = "") then [] else [("error", Http.JsStr e)]
             end)%list)].
Proof.
  unfold Http.SendBadRequest. destruct errors as [|e rest].
  - by repeat split.
  - cbn [length head default take]. rewrite !bool_decide_eq_true_2 by lia.
    split; [reflexivity|]. split; [reflexivity|].
    unfold Http.SendJSON, Http.encode_response. cbn [Http.Data_ Http.Error id].
    destruct (decide (e = "")); reflexivity.
Qed.

(** X10. The application router ([app] of cmd/server/main.go with the
    routes of package auth) answers every request in one of six ways.  A
    request whose method is not one of the nine the routing engine knows is
    answered with 405 and an empty body, whatever its path.  Of the others:
    GET /ping is answered with 200 and the text "pong"; POST /auth/login
    with 200; POST /auth/register with 201, or with 422 when the query asks
    for the validation error; any other method on one of these three paths
    with 405 and an empty body; and every other path with 404 and the line
    "404 page not found".  It never answers with a 5xx status. *)
Theorem app_answers (r : Http.Request) :
  let w := Http.ServeHTTP Http.app r Http.new_writer in
  let known := Http.Path r = "/ping" ∨ Http.Path r = "/auth/login" ∨
               Http.Path r = "/auth/register" in
  (Http.status w = Some 405%Z ∧ Http.body w = [] ∧ Http.Method r ∉ Http.methodMap) ∨
  (Http.status w = Some 200%Z ∧
     ((Http.Method r = "GET" ∧ Http.Path r = "/ping" ∧ Http.body w = [Http.Text "pong"]) ∨
      (Http.Method r = "POST" ∧ Http.Path r = "/auth/login"))) ∨
  (Http.status w = Some 201%Z ∧ Http.Method r = "POST" ∧ Http.Path r = "/auth/register" ∧
     Http.Values_Get (Http.Query r) "error" ≠ "validation") ∨
  (Http.status w = Some 422%Z ∧ Http.Method r = "POST" ∧ Http.Path r = "/auth/register" ∧
     Http.Values_Get (Http.Query r) "error" = "validation") ∨
  (Http.status w = Some 405%Z ∧ Http.Method r ∈ Http.methodMap ∧ known ∧ Http.body w = [] ∧
     (Http.Path r = "/ping" → Http.Method r ≠ "GET") ∧
     (Http.Path r ≠ "/ping" → Http.Method r ≠ "POST")) ∨
  (Http.status w = Some 404%Z ∧ Http.Method r ∈ Http.methodMap ∧ ¬ known ∧
     Http.body w = [Http.Text ("404 page not found" ++ Http.newline)]).
Proof.
  destruct r as [method path query]. cbn [Http.Method Http.Path Http.Query].
  unfold Http.ServeHTTP. cbn [Http.Method Http.Path Http.Query].
  case_bool_decide as Hmeth.
  2: { left. by repeat split. }
  right.
  unfold Http.app, Http.Router, Http.Mount, Http.Get, Http.Post, Http.NewRouter,
    Http.methodNotAllowedHandler, Http.NotFound.
  cbn [app fmap list_fmap Http.r_method Http.r_pattern Http.r_handler List.find existsb
       Http.Method Http.Path Http.Query String.append].
  destruct (decide (path = "/ping")) as [->|Hp1].
  - destruct (decide (method = "GET")) as [->|Hm].
    + left. by vm_compute; split; [|left].
    + rewrite (bool_decide_eq_true_2 ("/ping" = "/ping")) by done.
      rewrite (bool_decide_eq_false_2 ("GET" = method)) by done.
      rewrite (bool_decide_eq_false_2 ("/auth/login" = "/ping")) by done.
      rewrite (bool_decide_eq_false_2 ("/auth/register" = "/ping")) by done.
      cbn [andb orb]. do 3 right. left.
      split; [reflexivity|]. split; [done|]. split; [by left|]. by repeat split.
  - rewrite (bool_decide_eq_false_2 ("/ping" = path)) by done. cbn [andb orb].
    destruct (decide (path = "/auth/login")) as [->|Hp2].
    + destruct (decide (method = "POST")) as [->|Hm].
      * left. by vm_compute; split; [|right].
      * rewrite (bool_decide_eq_true_2 ("/auth/login" = "/auth/login")) by done.
        rewrite (bool_decide_eq_false_2 ("POST" = method)) by done.
        rewrite (bool_decide_eq_false_2 ("/auth/register" = "/auth/login")) by done.
        cbn [andb orb]. do 3 right. left.
        split; [reflexivity|]. split; [done|]. split; [by right; left|]. by repeat split.
    + rewrite (bool_decide_eq_false_2 ("/auth/login" = path)) by done. cbn [andb orb].
      destruct (decide (path = "/auth/register")) as [->|Hp3].
      * destruct (decide (method = "POST")) as [->|Hm].
        -- rewrite !bool_decide_eq_true_2 by done. cbn [andb].
           unfold Http.registerHandler. cbn [Http.Query].
           destruct (decide (Http.Values_Get query "error" = "validation")) as [Hq|Hq].
           ++ do 2 right. left. cbn [Http.r_handler Http.Query].
              rewrite decide_True by done. by repeat split.
           ++ right. left. cbn [Http.r_handler Http.Query].
              rewrite decide_False by done. by repeat split.
        -- rewrite (bool_decide_eq_true_2 ("/auth/register" = "/auth/register")) by done.
           rewrite (bool_decide_eq_false_2 ("POST" = method)) by done.
           cbn [andb orb]. do 3 right. left.
           split; [reflexivity|]. split; [done|]. split; [by right; right|]. by repeat split.
      * rewrite (bool_decide_eq_false_2 ("/auth/register" = path)) by done.
        cbn [andb orb]. do 4 right.
        split; [reflexivity|]. split; [done|]. split; [|reflexivity]. by intros [?|[?|?]].
Qed.

(** ** pkg/router/router.go with pkg/helpers and package errors *)

(** X11. What [AddCustomHandler] registers under the path, for any mux:
    one function.  For the methods GET, POST and DELETE that function runs
    the handler given exactly on the requests of that method (and panics
    there when the handler is the nil func), and answers every other request
    with [http.Error] 405 "Method Not Allowed !" without running the
    handler.  For every other method, PUT and PATCH included, the handler
    given is dropped: the function registered answers 405 to every request,
    also to the requests of the method asked for.  On a writer not yet
    written to, that answer is the status 405, the content type
    text/plain and the message as one line. *)
Theorem AddCustomHandler_guards_method
    (ServeMux : Type) (HandleFunc : string → RouterMux.Served → ServeMux → ServeMux)
    (method urlPath : string) (handler : RouterMux.HandlerFunc) (mux : ServeMux) :
  (∃ f : RouterMux.Served,
    RouterMux.AddCustomHandler ServeMux HandleFunc method urlPath handler mux
      = HandleFunc urlPath f mux ∧
    ∀ (req : Http.Request) (w : Http.ResponseWriter),
      f req w =
        if decide (method ∈ ["GET"; "POST"; "DELETE"] ∧ Http.Method req = method)
        then match handler with
             | Some h => Some (h req w)
             | None => None
             end
        else Some (Http.http_Error "Method Not Allowed !" 405 w)) ∧
  Http.status (Http.http_Error "Method Not Allowed !" 405 Http.new_writer) = Some 405%Z ∧
  Http.body (Http.http_Error "Method Not Allowed !" 405 Http.new_writer)
    = [Http.Text ("Method Not Allowed !" ++ Http.newline)] ∧
  Http.Header (Http.http_Error "Method Not Allowed !" 405 Http.new_writer) !! "Content-Type"
    = Some "text/plain; charset=utf-8".
Proof.
  split; [|by repeat split].
  unfold RouterMux.AddCustomHandler, RouterMux.AddCustomGetHandler,
    RouterMux.AddCustomPostHandler, RouterMux.AddCustomDeleteHandler,
    RouterMux.AddUnsupportedMethodHandler.
  assert (Hguard : ∀ m req w,
    RouterMux.guarded m handler req w =
      if decide (Http.Method req = m)
      then match handler with Some h => Some (h req w) | None => None end
      else Some (Http.http_Error "Method Not Allowed !" 405 w)).
  { intros m req w. unfold RouterMux.guarded, RouterMux.ValidateMethod, RouterMux.call.
    destruct (decide (Http.Method req = m)) as [He|Hne].
    - rewrite decide_False by (by intros H; apply H). by rewrite decide_False by (by intros H; apply H).
    - rewrite decide_True by done. by rewrite decide_True by done. }
  destruct (decide (method = "GET")) as [->|Hg];
    [|destruct (decide (method = "POST")) as [->|Hp];
      [|destruct (decide (method = "DELETE")) as [->|Hd]]];
    eexists; (split; [reflexivity|]); intros req w; cbv beta; rewrite ?Hguard.
  - destruct (decide (Http.Method req = "GET")) as [He|Hne].
    + rewrite decide_True; [done|]. split; [set_solver|done].
    + rewrite decide_False; [done|]. by intros [_ ?].
  - destruct (decide (Http.Method req = "POST")) as [He|Hne].
    + rewrite decide_True; [done|]. split; [set_solver|done].
    + rewrite decide_False; [done|]. by intros [_ ?].
  - destruct (decide (Http.Method req = "DELETE")) as [He|Hne].
    + rewrite decide_True; [done|]. split; [set_solver|done].
    + rewrite decide_False; [done|]. by intros [_ ?].
  - rewrite decide_False; [done|]. intros [Hin _]. set_solver.
Qed.

(** ** unnamed/part_009: the middlewares *)

Section MiddlewareFacts.
Import Middleware.

Lemma logger_view_WithValue ctx key v :
  logger_view (WithValue ctx server_ctxKey key v) = logger_view ctx.
Proof.
  unfold logger_view, WithValue, Ctx in *. by rewrite lookup_insert_ne by discriminate.
Qed.

Lemma Value_WithValue ctx ty key v : Value (WithValue ctx ty key v) ty key = Some v.
Proof.
  unfold Value, WithValue, Ctx in *. rewrite lookup_insert_eq. cbn. apply lookup_insert_eq.
Qed.

Lemma map_Forall_union_both {A} (P : string → A → Prop) (m1 m2 : gmap string A) :
  map_Forall P m1 → map_Forall P m2 → map_Forall P (m1 ∪ m2).
Proof.
  intros H1 H2 k v Hkv. apply lookup_union_Some_raw in Hkv as [Hk|[_ Hk]].
  - by apply H1.
  - by apply H2.
Qed.

Lemma access_payload_serialises duration r status size :
  map_Forall (λ _ v, is_Some (marshal_value v)) (access_payload duration r status size).
Proof.
  unfold access_payload.
  repeat (apply map_Forall_insert_2; [by eexists|]). apply map_Forall_empty.
Qed.

Lemma context_fields_serialise ctx :
  map_Forall (λ _ v, is_Some (marshal_value v)) (LoggerCtx.context_fields ctx).
Proof.
  unfold LoggerCtx.context_fields. do 2 apply put_id_strings. apply map_Forall_empty.
Qed.

End MiddlewareFacts.

(** X12. [TraceIDMiddleware] takes the trace id from the request header
    X-Trace-ID, or the generated one when that header is missing or empty,
    sends it back in the response header, stores it in the request's
    context under its own key, and passes the request on otherwise
    unchanged.  The key it uses has the type [ctxKey] of package server; the
    logger of pkg/logger looks up keys of its own type [ctxKey], so what the
    logger finds in the context is what it found before: the line the
    /ping handler logs with the request's context is the same with and
    without the middleware, and carries the trace id only if the incoming
    context already held one under the logger's key. *)
Theorem TraceIDMiddleware_id_not_seen_by_logger
    (Sprintf : string → list value → string) (write_err : Writer → option string)
    (now uuid : string) (log : LoggerCtx.JSONLogger)
    (next : Middleware.Handler) (r : Middleware.Request) (w : Http.ResponseWriter) :
  let given := Middleware.Header_Get (Middleware.Header r) "X-Trace-ID" in
  let traceID := if decide (given = "") then uuid else given in
  (∃ r',
     Middleware.TraceIDMiddleware uuid next r w
       = next r' (Middleware.Header_Set "X-Trace-ID" traceID w) ∧
     Middleware.Value (Middleware.Context r') Middleware.server_ctxKey
       Middleware.TraceIDKey = Some (VStr traceID) ∧
     Middleware.logger_view (Middleware.Context r')
       = Middleware.logger_view (Middleware.Context r) ∧
     Middleware.Method r' = Middleware.Method r ∧
     Middleware.Path r' = Middleware.Path r ∧
     Middleware.Header r' = Middleware.Header r ∧
     Middleware.RemoteAddr r' = Middleware.RemoteAddr r) ∧
  Http.Header (Middleware.Header_Set "X-Trace-ID" traceID w) !! "X-Trace-Id" = Some traceID ∧
  snd (Middleware.TraceIDMiddleware uuid
         (Middleware.pingHandler Sprintf write_err now log) r w)
    = snd (Middleware.pingHandler Sprintf write_err now log r w) ∧
  (Middleware.Context r !! Middleware.logger_ctxKey = None →
   ∀ line,
     line ∈ written_lines
              (snd (Middleware.TraceIDMiddleware uuid
                      (Middleware.pingHandler Sprintf write_err now log) r w)) →
     l_context line = None).
Proof.
  intros given traceID. split; [|split; [|split]].
  - eexists. split; [reflexivity|]. split; [apply Value_WithValue|].
    split; [apply logger_view_WithValue|]. by repeat split.
  - unfold Middleware.Header_Set, Http.Header_Set. cbn [Http.Header].
    change (Middleware.CanonicalMIMEHeaderKey "X-Trace-ID") with "X-Trace-Id".
    apply lookup_insert_eq.
  - unfold Middleware.TraceIDMiddleware, Middleware.pingHandler.
    cbn [snd Middleware.Context Middleware.WithContext].
    by rewrite logger_view_WithValue.
  - intros Hnone line.
    unfold Middleware.TraceIDMiddleware, Middleware.pingHandler.
    cbn [snd Middleware.Context Middleware.WithContext].
    rewrite logger_view_WithValue. unfold Middleware.logger_view. rewrite Hnone.
    unfold LoggerCtx.Info, LoggerCtx.log.
    destruct (LoggerCtx.shouldLog log LevelInfo); cbn [negb];
      [|by intros ?%elem_of_nil].
    cbn [length default from_option id]. rewrite bool_decide_eq_false_2 by (cbn; lia).
    change (LoggerCtx.context_fields ∅) with (∅ : gmap string value).
    unfold LoggerCtx.json_Marshal.
    cbn [LoggerCtx.Context_ LoggerCtx.Timestamp LoggerCtx.Level LoggerCtx.Message
         LoggerCtx.Service].
    change (marshal_map ∅) with (Some (∅ : gmap string jval)). cbv beta iota.
    rewrite written_lines_app, written_lines_write_all.
    rewrite (decide_False (P := LevelInfo = LevelFatal)) by discriminate.
    rewrite decide_True by done.
    cbn [written_lines omap list_omap]. rewrite app_nil_r.
    intros [-> _]%elem_of_replicate. reflexivity.
Qed.

Lemma TraceIDMiddleware_id_not_seen_by_logger_witness :
  let log := {| LoggerCtx.writers := [Stdout]; LoggerCtx.service := "svc";
                LoggerCtx.minLevel := LevelInfo |} in
  let r := {| Middleware.Method := "GET"; Middleware.Path := "/ping";
              Middleware.Header := {["X-Trace-Id" := ["abc"]]};
              Middleware.RemoteAddr := "10.0.0.1:5000"; Middleware.Context := ∅ |} in
  Forall (λ line, l_context line = None)
    (written_lines
       (snd (Middleware.TraceIDMiddleware "generated"
               (Middleware.pingHandler (λ s _, s) (λ _, None) "2026-01-01T00:00:00Z" log)
               r Http.new_writer))) ∧
  Http.Header
    (fst (Middleware.TraceIDMiddleware "generated"
            (Middleware.pingHandler (λ s _, s) (λ _, None) "2026-01-01T00:00:00Z" log)
            r Http.new_writer)) !! "X-Trace-Id" = Some "abc".
Proof.
  intros log r.
  destruct (TraceIDMiddleware_id_not_seen_by_logger (λ s _, s) (λ _, None)
              "2026-01-01T00:00:00Z" "generated" log
              (Middleware.pingHandler (λ s _, s) (λ _, None) "2026-01-01T00:00:00Z" log)
              r Http.new_writer) as (_ & _ & _ & H).
  split; [|vm_compute; reflexivity].
  apply Forall_forall. apply H. reflexivity.
Defined.

(** X13. [LoggerMiddleware] runs the handler and then logs the request
    through [InfoJSON]; [InfoJSON] cannot panic here, since a request's
    context is never nil, and the payload always serialises.  The response
    is the handler's.  When INFO passes the logger's minimum level, exactly
    one entry is written after the handler's own output, once to each sink:
    its message is empty and its context holds every entry of the payload,
    among them the status the handler wrote (0 if it wrote none) and the
    trace and request ids found in the context under the keys of package
    server, as empty strings when there are none.  Below that level nothing
    is added.  Behind [TraceIDMiddleware], the trace id in the entry is the
    one that middleware chose. *)
Theorem LoggerMiddleware_logs_each_request_once
    (write_err : Writer → option string) (now duration uuid : string)
    (bytes_of : list Http.chunk → Z) (log : LoggerCtx.JSONLogger)
    (next : Middleware.Handler) (r : Middleware.Request) (w : Http.ResponseWriter) :
  let recorder := {| Http.Header := Http.Header w; Http.status := None; Http.body := [] |} in
  let ww := fst (next r recorder) in
  let payload := Middleware.access_payload duration r (default 0%Z (Http.status ww))
                   (bytes_of (Http.body ww)) in
  (∃ access,
     Middleware.LoggerMiddleware write_err now duration bytes_of log next r w
       = ({| Http.Header := Http.Header ww;
             Http.status := match Http.status w with
                            | Some s => Some s
                            | None => Http.status ww
                            end;
             Http.body := (Http.body w ++ Http.body ww)%list |},
          (snd (next r recorder) ++ access)%list) ∧
     exits access = false ∧
     ((rank LevelInfo < rank (LoggerCtx.minLevel log))%Z → access = []) ∧
     ((rank (LoggerCtx.minLevel log) ≤ rank LevelInfo)%Z →
        sink_writes access = LoggerCtx.writers log ∧
        ∃ line c,
          written_lines access = replicate (length (LoggerCtx.writers log)) line ∧
          l_level line = LevelInfo ∧ l_message line = "" ∧ l_context line = Some c ∧
          (∀ k v, payload !! k = Some v → c !! k = marshal_value v) ∧
          c !! "status" = Some (JNum (default 0%Z (Http.status ww))) ∧
          c !! "trace_id" =
            Some (JStr (Middleware.Value_string (Middleware.Context r)
                          Middleware.server_ctxKey Middleware.TraceIDKey)) ∧
          c !! "request_id" =
            Some (JStr (Middleware.Value_string (Middleware.Context r)
                          Middleware.server_ctxKey Middleware.RequestIDKey)))) ∧
  ((rank (LoggerCtx.minLevel log) ≤ rank LevelInfo)%Z →
   LoggerCtx.writers log ≠ [] →
   let given := Middleware.Header_Get (Middleware.Header r) "X-Trace-ID" in
   let traceID := if decide (given = "") then uuid else given in
   ∃ line c,
     line ∈ written_lines
              (snd (Middleware.TraceIDMiddleware uuid
                      (Middleware.LoggerMiddleware write_err now duration bytes_of log next)
                      r w)) ∧
     l_context line = Some c ∧ c !! "trace_id" = Some (JStr traceID)).
Proof.
  assert (Hmain : ∀ r : Middleware.Request,
    let recorder := {| Http.Header := Http.Header w; Http.status := None; Http.body := [] |} in
    let ww := fst (next r recorder) in
    let payload := Middleware.access_payload duration r (default 0%Z (Http.status ww))
                     (bytes_of (Http.body ww)) in
    ∃ access,
     Middleware.LoggerMiddleware write_err now duration bytes_of log next r w
       = ({| Http.Header := Http.Header ww;
             Http.status := match Http.status w with
                            | Some s => Some s
                            | None => Http.status ww
                            end;
             Http.body := (Http.body w ++ Http.body ww)%list |},
          (snd (next r recorder) ++ access)%list) ∧
     exits access = false ∧
     ((rank LevelInfo < rank (LoggerCtx.minLevel log))%Z → access = []) ∧
     ((rank (LoggerCtx.minLevel log) ≤ rank LevelInfo)%Z →
        sink_writes access = LoggerCtx.writers log ∧
        ∃ line c,
          written_lines access = replicate (length (LoggerCtx.writers log)) line ∧
          l_level line = LevelInfo ∧ l_message line = "" ∧ l_context line = Some c ∧
          (∀ k v, payload !! k = Some v → c !! k = marshal_value v) ∧
          c !! "status" = Some (JNum (default 0%Z (Http.status ww))) ∧
          c !! "trace_id" =
            Some (JStr (Middleware.Value_string (Middleware.Context r)
                          Middleware.server_ctxKey Middleware.TraceIDKey)) ∧
          c !! "request_id" =
            Some (JStr (Middleware.Value_string (Middleware.Context r)
                          Middleware.server_ctxKey Middleware.RequestIDKey)))).
  { clear r. intros r recorder ww payload. subst payload ww recorder.
    unfold Middleware.LoggerMiddleware. cbv beta.
    destruct (next r _) as [ww evs0]. cbn [fst snd].
    set (payload := Middleware.access_payload _ _ _ _).
    unfold LoggerCtx.InfoJSON, Middleware.logger_view, LoggerCtx.shouldLog.
    destruct (decide (rank (LoggerCtx.minLevel log) ≤ rank LevelInfo)%Z) as [Hle|Hgt].
    2: { rewrite bool_decide_eq_false_2 by done. cbn [negb default from_option id].
         exists []. split; [reflexivity|]. split; [reflexivity|]. split; [done|lia]. }
    rewrite bool_decide_eq_true_2 by done. cbn [negb].
    rewrite merge_payload_union. unfold LoggerCtx.json_Marshal.
    cbn [LoggerCtx.Context_ LoggerCtx.Timestamp LoggerCtx.Level LoggerCtx.Message
         LoggerCtx.Service].
    set (cf := LoggerCtx.context_fields _).
    assert (Hser : map_Forall (λ _ v, is_Some (marshal_value v)) (payload ∪ cf)).
    { apply map_Forall_union_both;
        [apply access_payload_serialises|apply context_fields_serialise]. }
    unfold marshal_map. rewrite decide_True by exact Hser.
    assert (Hevent : payload !! "event" = Some (VStr "http_request")).
    { unfold payload, Middleware.access_payload. apply lookup_insert_eq. }
    assert (Hne : payload ∪ cf ≠ ∅).
    { intros He. assert (H : (payload ∪ cf) !! "event" = Some (VStr "http_request"))
        by (by apply lookup_union_Some_l).
      rewrite He in H. by rewrite lookup_empty in H. }
    rewrite decide_False by exact Hne. cbn [default from_option id].
    eexists. split; [reflexivity|]. split; [apply exits_write_all|].
    split; [lia|]. intros _. split; [apply sink_writes_write_all|].
    assert (Hc : ∀ k v, payload !! k = Some v →
              omap marshal_value (payload ∪ cf) !! k = marshal_value v).
    { intros k v Hk. rewrite lookup_omap.
      by rewrite (lookup_union_Some_l _ _ _ _ Hk). }
    eexists _, _. split; [apply written_lines_write_all|].
    cbn [l_level l_message l_context]. do 3 (split; [reflexivity|]).
    split; [exact Hc|]. split; [|split].
    - apply (Hc "status" (VInt _)). unfold payload, Middleware.access_payload.
      do 3 (rewrite lookup_insert_ne by discriminate). apply lookup_insert_eq.
    - apply (Hc "trace_id" (VStr _)). unfold payload, Middleware.access_payload.
      do 7 (rewrite lookup_insert_ne by discriminate). apply lookup_insert_eq.
    - apply (Hc "request_id" (VStr _)). unfold payload, Middleware.access_payload.
      do 8 (rewrite lookup_insert_ne by discriminate). apply lookup_insert_eq. }
  intros recorder ww payload. split; [exact (Hmain r)|].
  intros Hle Hsinks given traceID.
  unfold Middleware.TraceIDMiddleware. fold given. fold traceID.
  set (r' := Middleware.WithContext r _).
  set (w' := Middleware.Header_Set "X-Trace-ID" traceID w).
  clear Hmain.
  assert (Hmain' : ∃ access evs0,
    snd (Middleware.LoggerMiddleware write_err now duration bytes_of log next r' w')
      = (evs0 ++ access)%list ∧
    ∃ line c,
      written_lines access = replicate (length (LoggerCtx.writers log)) line ∧
      l_context line = Some c ∧
      c !! "trace_id" =
        Some (JStr (Middleware.Value_string (Middleware.Context r')
                      Middleware.server_ctxKey Middleware.TraceIDKey))).
  { unfold Middleware.LoggerMiddleware.
    destruct (next r' _) as [ww' evs0]. cbn [snd].
    unfold LoggerCtx.InfoJSON, Middleware.logger_view, LoggerCtx.shouldLog.
    rewrite bool_decide_eq_true_2 by done. cbn [negb].
    rewrite merge_payload_union. unfold LoggerCtx.json_Marshal.
    cbn [LoggerCtx.Context_ LoggerCtx.Timestamp LoggerCtx.Level LoggerCtx.Message
         LoggerCtx.Service].
    set (payload' := Middleware.access_payload _ _ _ _).
    set (cf := LoggerCtx.context_fields _).
    assert (Hser : map_Forall (λ _ v, is_Some (marshal_value v)) (payload' ∪ cf)).
    { apply map_Forall_union_both;
        [apply access_payload_serialises|apply context_fields_serialise]. }
    unfold marshal_map. rewrite decide_True by exact Hser.
    assert (Hevent : payload' !! "event" = Some (VStr "http_request")).
    { unfold payload', Middleware.access_payload. apply lookup_insert_eq. }
    assert (Hne : payload' ∪ cf ≠ ∅).
    { intros He. assert (H : (payload' ∪ cf) !! "event" = Some (VStr "http_request"))
        by (by apply lookup_union_Some_l).
      rewrite He in H. by rewrite lookup_empty in H. }
    rewrite decide_False by exact Hne. cbn [default from_option id].
    eexists _, _. split; [reflexivity|].
    eexists _, _. split; [apply written_lines_write_all|].
    cbn [l_context]. split; [reflexivity|].
    rewrite lookup_omap.
    assert (Ht : payload' !! "trace_id" =
              Some (VStr (Middleware.Value_string (Middleware.Context r')
                            Middleware.server_ctxKey Middleware.TraceIDKey))).
    { unfold payload', Middleware.access_payload.
      do 7 (rewrite lookup_insert_ne by discriminate). apply lookup_insert_eq. }
    by rewrite (lookup_union_Some_l _ _ _ _ Ht). }
  destruct Hmain' as (access & evs0 & -> & line & c & Hlines & Hctx & Htrace).
  exists line, c. split; [|split; [exact Hctx|]].
  - rewrite written_lines_app, Hlines. apply elem_of_app. right.
    destruct (LoggerCtx.writers log) as [|s ws]; [done|]. cbn. apply list_elem_of_here.
  - rewrite Htrace. unfold Middleware.Value_string, r'. cbn [Middleware.Context Middleware.WithContext].
    by rewrite Value_WithValue.
Qed.

(** X14. [CORSMiddleware] answers an OPTIONS request itself, with 200,
    no body and its four headers, whatever the origin of the request, and
    does not run the handler behind it.  [ContentTypeMiddleware] lets every
    GET request through and compares the Content-Type header of any other
    request, OPTIONS included, with the type asked for as a whole string: a
    request that differs is answered with 415 and the line
    "Unsupported Media Type", and the handler behind is not run.  So the order of the two matters for a preflight request, which
    carries no content type: with [CORSMiddleware] outside it is answered
    with 200 and the CORS headers, with [JSONContentTypeMiddleware] outside
    it is answered with 415 and no CORS header is added. *)
Theorem preflight_depends_on_middleware_order
    (allowedOrigins allowedMethods allowedHeaders : string)
    (next : Middleware.Handler) (r : Middleware.Request) (w : Http.ResponseWriter) :
  Middleware.Method r = "OPTIONS" →
  Middleware.Header_Get (Middleware.Header r) "Content-Type" ≠ "application/json" →
  Http.status w = None →
  let cors := Middleware.CORSMiddleware allowedOrigins allowedMethods allowedHeaders in
  let inside := cors (Middleware.JSONContentTypeMiddleware next) r w in
  let outside := Middleware.JSONContentTypeMiddleware (cors next) r w in
  (Http.status (fst inside) = Some 200%Z ∧
   Http.body (fst inside) = Http.body w ∧
   snd inside = [] ∧
   Http.Header (fst inside) !! "Access-Control-Allow-Origin" = Some allowedOrigins ∧
   Http.Header (fst inside) !! "Access-Control-Allow-Methods" = Some allowedMethods ∧
   Http.Header (fst inside) !! "Access-Control-Allow-Headers" = Some allowedHeaders ∧
   Http.Header (fst inside) !! "Access-Control-Allow-Credentials" = Some "true") ∧
  (Http.status (fst outside) = Some 415%Z ∧
   Http.body (fst outside)
     = (Http.body w ++ [Http.Text ("Unsupported Media Type" ++ Http.newline)])%list ∧
   snd outside = [] ∧
   Http.Header (fst outside) !! "Access-Control-Allow-Origin"
     = Http.Header w !! "Access-Control-Allow-Origin").
Proof.
  intros Hm Hct Hs cors inside outside. subst inside outside cors.
  unfold Middleware.JSONContentTypeMiddleware, Middleware.ContentTypeMiddleware,
    Middleware.CORSMiddleware.
  rewrite (decide_True (P := Middleware.Method r = "OPTIONS")) by done.
  rewrite (decide_False (P := Middleware.Method r = "GET")) by (rewrite Hm; discriminate).
  rewrite decide_True by done.
  destruct w as [hd st bd]. cbn [Http.status] in Hs. subst st.
  unfold Http.http_Error, Http.Write, Http.WriteHeader, Middleware.Header_Set,
    Http.Header_Set.
  cbn [fst snd Http.Header Http.status Http.body].
  change (Middleware.CanonicalMIMEHeaderKey "Access-Control-Allow-Origin")
    with "Access-Control-Allow-Origin".
  change (Middleware.CanonicalMIMEHeaderKey "Access-Control-Allow-Methods")
    with "Access-Control-Allow-Methods".
  change (Middleware.CanonicalMIMEHeaderKey "Access-Control-Allow-Headers")
    with "Access-Control-Allow-Headers".
  change (Middleware.CanonicalMIMEHeaderKey "Access-Control-Allow-Credentials")
    with "Access-Control-Allow-Credentials".
  split.
  - do 3 (split; [reflexivity|]). repeat split.
    + do 3 (rewrite lookup_insert_ne by discriminate). apply lookup_insert_eq.
    + do 2 (rewrite lookup_insert_ne by discriminate). apply lookup_insert_eq.
    + rewrite lookup_insert_ne by discriminate. apply lookup_insert_eq.
    + apply lookup_insert_eq.
  - do 3 (split; [reflexivity|]).
    by do 2 (rewrite lookup_insert_ne by discriminate).
Qed.

Lemma preflight_depends_on_middleware_order_witness :
  let r := {| Middleware.Method := "OPTIONS"; Middleware.Path := "/auth/login";
              Middleware.Header := {["Origin" := ["https://app.example"]]};
              Middleware.RemoteAddr := "10.0.0.1:5000"; Middleware.Context := ∅ |} in
  let next : Middleware.Handler := λ _ w, (Http.Write [Http.Text "handled"] w, []) in
  let cors := Middleware.CORSMiddleware "*" "GET, POST" "Content-Type" in
  Http.status (fst (cors (Middleware.JSONContentTypeMiddleware next) r Http.new_writer))
    = Some 200%Z ∧
  Http.status (fst (Middleware.JSONContentTypeMiddleware (cors next) r Http.new_writer))
    = Some 415%Z.
Proof.
  intros r next cors.
  assert (Hct : Middleware.Header_Get (Middleware.Header r) "Content-Type"
                ≠ "application/json") by (vm_compute; discriminate).
  destruct (preflight_depends_on_middleware_order "*" "GET, POST" "Content-Type" next r
              Http.new_writer eq_refl Hct eq_refl) as [(Ha & _) (Hb & _)].
  split; [exact Ha|exact Hb].
Defined.

(** ** More of the settings *)

(** [parseMsDuration] accepts a value exactly when it is empty or a
    numeral within the 64-bit range. *)
Lemma parseMsDuration_accepts (val : string) :
  (∃ d, EnvVars.parseMsDuration val = inl d) ↔ EnvVars.accepted_ms val.
Proof.
  rewrite parseMsDuration_spec. unfold EnvVars.accepted_ms.
  destruct (decide (val = "")) as [->|Hne].
  - split; [by left|by eexists].
  - destruct (EnvVars.numeral val) as [v|].
    + case_bool_decide as Hr.
      * split; [intros _; right; by exists v|by eexists].
      * split; [by intros [d [=]]|].
        intros [?|(v' & [= <-] & Hr')]; [done|]. by destruct Hr.
    + split; [by intros [d [=]]|]. by intros [?|(v' & [=] & _)].
Qed.

Lemma GetEnvOrDefault_not_empty (e : gmap string string) (key dflt : string) :
  dflt ≠ "" → EnvVars.GetEnvOrDefault e key dflt ≠ "".
Proof. intros Hd. unfold EnvVars.GetEnvOrDefault. cbn zeta. by case_decide. Qed.

(** X15. [LoadENVVariables] builds the settings exactly when the dotfile
    can be loaded and each of the five timeout variables, as the
    environment completed by the dotfile holds it, is empty, unset, or a
    decimal numeral within the 64-bit signed range; a missing dotfile makes
    it fail even when the process environment sets every variable.  In the
    settings built, the port and the environment name are never empty.  A
    variable that the process environment sets to the empty string hides
    the dotfile's value: the port is then the default ":8080", whatever the
    dotfile says. *)
Theorem LoadENVVariables_succeeds_iff (f : EnvVars.Dotfile) (e : gmap string string) :
  ((∃ v, EnvVars.LoadENVVariables f e = inl v) ↔
   ∃ vars, f = EnvVars.DotVars vars ∧
           ∀ key, key ∈ EnvVars.timeout_keys →
                  EnvVars.accepted_ms (EnvVars.Getenv (e ∪ vars) key)) ∧
  (∀ v, EnvVars.LoadENVVariables f e = inl v →
        EnvVars.Port v ≠ "" ∧ EnvVars.Env v ≠ "" ∧
        (e !! "PORT" = Some "" → EnvVars.Port v = ":8080")).
Proof.
  split.
  - split.
    + intros [v Hv]. destruct f as [msg|vars]; [discriminate|].
      exists vars. split; [done|]. intros key Hkey.
      apply parseMsDuration_accepts.
      destruct (EnvVars.parseMsDuration (EnvVars.Getenv (e ∪ vars) key)) as [d|err] eqn:Hp;
        [by eexists|].
      destruct (LoadENVVariables_bad_timeout vars e key err Hkey Hp) as [err' Herr].
      congruence.
    + intros (vars & -> & Hacc).
      unfold EnvVars.LoadENVVariables, EnvVars.LoadENV.
      assert (Hparse : ∀ key, key ∈ EnvVars.timeout_keys →
                ∃ d, EnvVars.parseMsDuration (EnvVars.GetEnvOrDefault (e ∪ vars) key "")
                       = inl d).
      { intros key Hkey. rewrite GetEnvOrDefault_empty_default.
        by apply parseMsDuration_accepts, Hacc. }
      destruct (Hparse "READ_TIMEOUT_MS") as [d1 ->];
        [unfold EnvVars.timeout_keys; set_solver|].
      destruct (Hparse "WRITE_TIMEOUT_MS") as [d2 ->];
        [unfold EnvVars.timeout_keys; set_solver|].
      destruct (Hparse "SHUTDOWN_TIMEOUT_MS") as [d3 ->];
        [unfold EnvVars.timeout_keys; set_solver|].
      destruct (Hparse "IDLE_TIMEOUT_MS") as [d4 ->];
        [unfold EnvVars.timeout_keys; set_solver|].
      destruct (Hparse "READ_HEADER_TIMEOUT_MS") as [d5 ->];
        [unfold EnvVars.timeout_keys; set_solver|].
      by eexists.
  - intros v Hv. destruct f as [msg|vars]; [discriminate|].
    unfold EnvVars.LoadENVVariables, EnvVars.LoadENV in Hv.
    repeat match type of Hv with
           | context [EnvVars.parseMsDuration ?x] =>
               destruct (EnvVars.parseMsDuration x) as [?|?]; [|discriminate Hv]
           end.
    inversion Hv; subst v; clear Hv. cbn [EnvVars.Port EnvVars.Env EnvVars.port EnvVars.env].
    split; [by apply GetEnvOrDefault_not_empty|].
    split; [by apply GetEnvOrDefault_not_empty|].
    intros Hport. unfold EnvVars.GetEnvOrDefault, EnvVars.Getenv. cbn zeta.
    rewrite (lookup_union_Some_l _ _ _ _ Hport). cbn.
    by rewrite decide_False by (intros H; by apply H).
Qed.

(** ** More of the server: what each thread does, in full *)

(** Looking for an action in a list that is written out. *)
Ltac scan :=
  let Hs := fresh "Hs" in
  intros ? Hs;
  repeat (apply elem_of_cons in Hs as [Hs|Hs]; [by inversion Hs|]);
  by apply elem_of_nil in Hs.

Section ServerAccount.
Import Server.
Variable c : ServerConfig.
Variable w : World.

Lemma main_steps_logs (evs : list action) :
  forallb is_log evs = true → main_steps evs = [].
Proof. by apply filter_logs. Qed.

Lemma go_steps_logs (evs : list action) : forallb is_log evs = true → go_steps evs = [].
Proof. by apply filter_logs. Qed.

Lemma main_steps_app tr evs :
  main_steps (tr ++ evs) = (main_steps tr ++ main_steps evs)%list.
Proof. unfold main_steps. apply List.filter_app. Qed.

Lemma go_steps_app tr evs : go_steps (tr ++ evs) = (go_steps tr ++ go_steps evs)%list.
Proof. unfold go_steps. apply List.filter_app. Qed.

Lemma main_steps_elem a tr : a ∈ main_steps tr ↔ a ∈ tr ∧ is_main_step a = true.
Proof. unfold main_steps. by rewrite !list_elem_of_In, List.filter_In. Qed.

Lemma go_steps_elem a tr : a ∈ go_steps tr ↔ a ∈ tr ∧ is_go_step a = true.
Proof. unfold go_steps. by rewrite !list_elem_of_In, List.filter_In. Qed.

(** A step of the goroutine leaves the calling thread and the signal
    channel alone, and adds none of the calling thread's steps. *)
Lemma step_go_frame st st' :
  step_go c w st = Some st' →
  mpc st' = mpc st ∧ stopChan st' = stopChan st ∧ notified st' = notified st ∧
  killed st' = killed st ∧
  ∃ evs, trace st' = (trace st ++ evs)%list ∧ main_steps evs = [] ∧
         (∀ s, Delivered s ∉ evs).
Proof.
  unfold step_go. destruct st as [m g se sc nt cl kl tr].
  cbn [gpc serverErrors closed].
  destruct g; try discriminate;
    try destruct (OnStartup c) as [[x|]|]; try destruct se; try destruct cl;
    try destruct (listen_fails w) as [y|]; try destruct (is_server_closed y);
    intros [= <-]; cbn; (do 4 (split; [reflexivity|]));
    eexists; (split; [reflexivity|]); (split; [reflexivity|]); scan.
Qed.

(** A step of the calling thread adds none of the goroutine's steps; it
    starts the goroutine, at its first step, or leaves it alone; it takes
    the error out of the channel or leaves the channel alone. *)
Lemma step_main_frame b st st' :
  step_main c w b st = Some st' →
  (∃ evs, trace st' = (trace st ++ evs)%list ∧ go_steps evs = [] ∧
          (∀ s, Delivered s ∉ evs) ∧
          (serverErrors st' = serverErrors st ∧ (∀ e, Recv e ∉ evs) ∨
           ∃ e, serverErrors st = Some e ∧ serverErrors st' = None ∧
                ∀ e', Recv e' ∈ evs → e' = e) ∧
          (stopChan st' = stopChan st ∧ (∀ s, RecvSignal s ∉ evs) ∨
           ∃ s, stopChan st = Some s ∧ stopChan st' = None ∧
                ∀ s', RecvSignal s' ∈ evs → s' = s)) ∧
  mpc st' ≠ MStart ∧
  (gpc st' = gpc st ∨ mpc st = MStart ∧ gpc st' = GStart ∧ valid c) ∧
  (mpc st = MStart ∨ killed st' = killed st).
Proof.
  unfold step_main. destruct st as [m g se sc nt cl kl tr].
  cbn [mpc serverErrors stopChan notified closed killed].
  destruct m; try discriminate.
  - destruct (before_spawn_cases c)
      as [[Hl ->]|[(Hl & Hv & evs & e & -> & _ & Hlogs)
                  |[(Hv & Hm & evs & -> & Hlogs)|(Hv & Hm & evs & h & -> & Hlogs)]]];
      intros [= <-]; cbn.
    + split; [|split; [discriminate|split; [by left|by left]]].
      exists []. split; [done|]. split; [done|]. split; [scan|].
      split; left; (split; [done|scan]).
    + split; [|split; [discriminate|split; [by left|by left]]].
      exists evs. split; [done|]. split; [by apply go_steps_logs|].
      split; [intros s; by apply logs_not_elem|].
      split; left; (split; [done|intros ?; by apply logs_not_elem]).
    + split; [|split; [discriminate|split; [by left|by left]]].
      exists evs. split; [done|]. split; [by apply go_steps_logs|].
      split; [intros s; by apply logs_not_elem|].
      split; left; (split; [done|intros ?; by apply logs_not_elem]).
    + split; [|split; [discriminate|split; [right; split; [done|split; [done|exact Hv]]|by left]]].
      exists (evs ++ [Spawn])%list. split; [by rewrite app_assoc|].
      split; [rewrite go_steps_app, go_steps_logs by done; reflexivity|].
      assert (Hno : ∀ a, is_log a = false → a ≠ Spawn → a ∉ (evs ++ [Spawn])%list).
      { intros a Ha Hne [Hs|Hs]%elem_of_app; [by eapply logs_not_elem in Hs|].
        by apply list_elem_of_singleton in Hs. }
      split; [intros s; by apply Hno|].
      split; left; (split; [done|intros ?; by apply Hno]).
  - intros [= <-]. cbn. split; [|split; [discriminate|split; [by left|by right]]].
    eexists. split; [reflexivity|]. split; [reflexivity|]. split; [scan|].
    split; left; (split; [done|scan]).
  - unfold take_error, take_signal.
    destruct se as [e|], sc as [s|]; try destruct b; try discriminate;
      intros [= <-]; cbn; (split; [|split; [discriminate|split; [by left|by right]]]);
      eexists; (split; [reflexivity|]); (split; [reflexivity|]); (split; [scan|]);
      (split;
       [first [left; split; [done|scan] | right; eexists; split; [done|]; split; [done|scan]]
       |first [left; split; [done|scan] | right; eexists; split; [done|]; split; [done|scan]]]).
  - destruct (OnShutdown c) as [[err|]|]; intros [= <-]; cbn;
      (split; [|split; [discriminate|split; [by left|by right]]]);
      eexists; (split; [reflexivity|]); (split; [reflexivity|]); (split; [scan|]);
      split; left; (split; [done|scan]).
  - destruct (shutdown_err w) as [err|]; intros [= <-]; cbn;
      (split; [|split; [discriminate|split; [by left|by right]]]);
      eexists; (split; [reflexivity|]); (split; [reflexivity|]); (split; [scan|]);
      split; left; (split; [done|scan]).
  - destruct (close_err w) as [ce|]; intros [= <-]; cbn;
      (split; [|split; [discriminate|split; [by left|by right]]]);
      eexists; (split; [reflexivity|]); (split; [reflexivity|]); (split; [scan|]);
      split; left; (split; [done|scan]).
Qed.

End ServerAccount.

Section ServerInvariants.
Import Server.
Variable c : ServerConfig.
Variable w : World.

Lemma shutdown_result_failed err :
  shutdown_err w = Some err →
  shutdown_result w =
    match close_err w with
    | Some closeErr => Some (ErrWrap "failed to close server: " closeErr)
    | None => Some (ErrWrap "forced shutdown due to: " err)
    end.
Proof. intros H. unfold shutdown_result. by rewrite H. Qed.

(** A step of the calling thread keeps its account. *)
Lemma main_account_step b st st' :
  main_account c w (mpc st) (main_steps (trace st)) →
  step_main c w b st = Some st' →
  main_account c w (mpc st') (main_steps (trace st')).
Proof.
  unfold step_main. destruct st as [m g se sc nt cl kl tr].
  cbn [mpc serverErrors stopChan notified closed killed trace].
  intros Hacc. destruct m; try discriminate; cbn [main_account] in Hacc.
  - destruct (before_spawn_cases c)
      as [[Hl ->]|[(Hl & Hv & evs & e & -> & He & Hlogs)
                  |[(Hv & Hm & evs & -> & Hlogs)|(Hv & Hm & evs & h & -> & Hlogs)]]];
      intros [= <-]; cbn [mpc trace upd_main upd_go set_flags main_account].
    + rewrite app_nil_r. split; [done|by left].
    + left. rewrite main_steps_app, Hacc, main_steps_logs by done.
      split; [done|]. split; [done|]. by exists e.
    + rewrite main_steps_app, Hacc, main_steps_logs by done.
      split; [done|]. right. by split.
    + rewrite !main_steps_app, Hacc, main_steps_logs by done. by split.
  - destruct Hacc as [Hs Hv]. intros [= <-].
    cbn [mpc trace upd_main upd_go set_flags main_account].
    rewrite main_steps_app, Hs. by split.
  - destruct Hacc as [Hs Hv]. unfold take_error, take_signal.
    destruct se as [e|], sc as [s|]; try destruct b; try discriminate;
      intros [= <-];
      cbn [mpc trace upd_main upd_go set_flags set_serverErrors set_stopChan main_account];
      rewrite main_steps_app, Hs;
      first [right; left; split; [done|]; by eexists | split; [done|]; by eexists].
  - destruct Hacc as (Hv & s & Hs).
    destruct (OnShutdown c) as [[err|]|] eqn:Hon; intros [= <-];
      cbn [mpc trace upd_main upd_go set_flags main_account];
      unfold hook_part; rewrite main_steps_app, Hs, Hon; (split; [done|]); by exists s.
  - destruct Hacc as (Hv & s & Hs).
    destruct (shutdown_err w) as [err|] eqn:Herr; intros [= <-];
      cbn [mpc trace upd_main upd_go set_flags main_account];
      rewrite main_steps_app, Hs.
    + split; [done|]. split; [done|]. exists s. cbn. by rewrite <- ?app_assoc.
    + right. right. split; [done|]. split; [unfold shutdown_result; by rewrite Herr|].
      exists s. unfold close_part. rewrite Herr. cbn. by rewrite <- ?app_assoc.
  - destruct Hacc as (Hv & Herr & s & Hs).
    destruct (close_err w) as [ce|] eqn:Hce; intros [= <-];
      cbn [mpc trace upd_main upd_go set_flags main_account];
      rewrite main_steps_app, Hs; right; right; (split; [done|]);
      (split; [by rewrite (shutdown_result_failed err Herr), Hce|]);
      exists s; unfold close_part; rewrite Herr; cbn; by rewrite <- ?app_assoc.
Qed.

Lemma main_inv_init : main_inv c w init.
Proof.
  split; [reflexivity|]. split; [by intros s [=]|]. intros s Hs. by apply elem_of_nil in Hs.
Qed.

Lemma main_inv_tick st t : main_inv c w st → main_inv c w (tick_once c w st t).
Proof.
  intros (Hacc & Hchan & Hrecv). unfold tick_once, step.
  destruct (killed st); [by split|].
  destruct t as [b| |s].
  - destruct (step_main c w b st) as [st'|] eqn:Hstep; [|by split]. cbn [default from_option id].
    split; [by eapply main_account_step|].
    destruct (step_main_frame c w b st st' Hstep)
      as ((evs & Htr & _ & _ & _ & Hsig) & _ & _ & _).
    rewrite Htr. split.
    + intros s Hs. apply elem_of_app. left. apply Hchan.
      destruct Hsig as [[<- _]|(s0 & _ & Hnone & _)]; [done|congruence].
    + intros s [Hs|Hs]%elem_of_app; apply elem_of_app; left; [by apply Hrecv|].
      destruct Hsig as [[_ Hno]|(s0 & Hsome & _ & Hone)]; [by apply Hno in Hs|].
      apply Hone in Hs as ->. by apply Hchan.
  - destruct (step_go c w st) as [st'|] eqn:Hstep; [|by split]. cbn [default from_option id].
    destruct (step_go_frame c w st st' Hstep)
      as (Hm & Hsc & _ & _ & evs & Htr & Hsteps & _).
    unfold main_inv. rewrite Hm, Hsc, Htr, main_steps_app, Hsteps, app_nil_r.
    split; [done|]. split.
    + intros s' Hs. apply elem_of_app. left. by apply Hchan.
    + intros s' [Hs|Hs]%elem_of_app; apply elem_of_app; left; [by apply Hrecv|].
      assert (Hin : RecvSignal s' ∈ main_steps evs) by (by apply main_steps_elem).
      rewrite Hsteps in Hin. by apply elem_of_nil in Hin.
  - unfold step_signal. destruct st as [m g se sc nt cl kl tr].
    cbn [notified stopChan mpc] in *.
    destruct nt; cbn [default from_option id mpc trace stopChan upd_main set_flags set_stopChan
                      main_inv].
    + unfold main_inv.
      assert (Htr : ∀ st0 : State, trace (upd_main m [Delivered s] st0)
                      = (trace st0 ++ [Delivered s])%list) by done.
      assert (Hm : ∀ st0 : State, mpc (upd_main m [Delivered s] st0) = m) by done.
      rewrite Htr, Hm, main_steps_app. cbn [main_steps List.filter is_main_step].
      rewrite app_nil_r.
      destruct sc as [s0|]; cbn [trace stopChan set_stopChan upd_main];
        (split; [exact Hacc|]); split.
      * intros s' Hs. apply elem_of_app. left. by apply Hchan.
      * intros s' [Hs|Hs]%elem_of_app; apply elem_of_app; [left; by apply Hrecv|].
        apply list_elem_of_singleton in Hs. discriminate.
      * intros s' [= <-]. apply elem_of_app. right. by apply list_elem_of_singleton.
      * intros s' [Hs|Hs]%elem_of_app; apply elem_of_app; [left; by apply Hrecv|].
        apply list_elem_of_singleton in Hs. discriminate.
    + unfold main_inv. cbn [mpc trace stopChan upd_main set_flags].
      rewrite main_steps_app. cbn [main_steps List.filter is_main_step].
      rewrite app_nil_r. split; [exact Hacc|]. split.
      * intros s' Hs. apply elem_of_app. left. by apply Hchan.
      * intros s' [Hs|Hs]%elem_of_app; apply elem_of_app; [left; by apply Hrecv|].
        apply list_elem_of_singleton in Hs. discriminate.
Qed.

Lemma main_inv_run sched : main_inv c w (run c w sched init).
Proof. apply run_invariant; [apply main_inv_tick|apply main_inv_init]. Qed.

Lemma go_inv_init : go_inv c w init.
Proof.
  split; [reflexivity|]. split; [done|]. split; [by intros e [=]|].
  split; [intros e He; by apply elem_of_nil in He|]. split; [done|done].
Qed.

(** A step of the goroutine keeps its account and the channel's. *)
Lemma go_inv_step_go st st' :
  go_inv c w st → step_go c w st = Some st' → go_inv c w st'.
Proof.
  unfold step_go, go_inv. destruct st as [m g se sc nt cl kl tr].
  cbn [mpc gpc serverErrors closed trace].
  intros (Hacc & Hempty & Hsent & Hrecv & Hvalid & Hstart).
  assert (Hsides : ∀ g' evs,
    g ≠ GNone → g ≠ GDone → g' ≠ GNone → (∀ e, Recv e ∉ evs) →
    (g' ≠ GDone → se = None) ∧
    (∀ e, se = Some e → Send e ∈ (tr ++ evs)%list) ∧
    (∀ e, Recv e ∈ (tr ++ evs)%list → Send e ∈ (tr ++ evs)%list) ∧
    (g' ≠ GNone → valid c) ∧ (m = MStart → g' = GNone)).
  { intros g' evs Hg Hg2 Hg' Hno. split; [intros _; by apply Hempty|].
    split; [intros e He; apply elem_of_app; left; by apply Hsent|].
    split; [intros e [He|He]%elem_of_app;
              [apply elem_of_app; left; by apply Hrecv|by apply Hno in He]|].
    split; [intros _; by apply Hvalid|].
    intros Hm. by apply Hstart in Hm. }
  destruct g; try discriminate; cbn [go_account] in Hacc.
  - (* GStart *)
    destruct (OnStartup c) as [r|] eqn:Hon; intros [= <-];
      cbn [mpc gpc serverErrors trace upd_go set_serverErrors go_account];
      (split; [|apply Hsides; try discriminate; scan]);
      rewrite go_steps_app, Hacc.
    + split; [done|by rewrite Hon].
    + unfold start_part, hook_ok. rewrite Hon. split; [done|by intros e].
  - (* GHook *)
    destruct Hacc as [Hacc Hsome].
    destruct (OnStartup c) as [[e|]|] eqn:Hon; [| |done]; intros [= <-];
      cbn [mpc gpc serverErrors trace upd_go set_serverErrors go_account];
      (split; [|apply Hsides; try discriminate; scan]);
      rewrite go_steps_app, Hacc; unfold go_before_send, go_sends, start_part, hook_ok;
      rewrite Hon; by split.
  - (* GSend *)
    destruct Hacc as [Hacc Hsends].
    destruct se as [e0|]; [discriminate|]. intros [= <-].
    cbn [mpc gpc serverErrors trace upd_go set_serverErrors go_account].
    split; [right; exists e; by rewrite go_steps_app, Hacc|].
    split; [by intros H|].
    split; [intros e' [= <-]; apply elem_of_app; right; by apply list_elem_of_singleton|].
    split; [intros e' [He|He]%elem_of_app;
              [apply elem_of_app; left; by apply Hrecv
              |apply list_elem_of_singleton in He; discriminate]|].
    split; [intros _; by apply Hvalid|].
    intros Hm. by apply Hstart in Hm.
  - (* GReady *)
    destruct Hacc as [Hacc Hok]. intros [= <-].
    cbn [mpc gpc serverErrors trace upd_go set_serverErrors go_account].
    split; [|apply Hsides; try discriminate; scan].
    rewrite go_steps_app, Hacc. split; [|done].
    unfold go_before_send, start_part. unfold hook_ok in Hok.
    destruct (OnStartup c) as [[e|]|]; [by destruct (Hok e)|done|done].
  - (* GListening *)
    destruct Hacc as [Hacc Hok].
    assert (Hdone : ∀ st0, st0 = upd_go GDone [] {| mpc := m; gpc := GListening;
                      serverErrors := se; stopChan := sc; notified := nt; closed := cl;
                      killed := kl; trace := tr |} →
              go_account c w (gpc st0) (go_steps (trace st0)) ∧
              (gpc st0 ≠ GDone → serverErrors st0 = None) ∧
              (∀ e, serverErrors st0 = Some e → Send e ∈ trace st0) ∧
              (∀ e, Recv e ∈ trace st0 → Send e ∈ trace st0) ∧
              (gpc st0 ≠ GNone → valid c) ∧ (mpc st0 = MStart → gpc st0 = GNone)).
    { intros st0 ->.
      cbn [mpc gpc serverErrors trace upd_go set_serverErrors go_account].
      rewrite app_nil_r. split; [by left|]. split; [by intros H|].
      split; [exact Hsent|]. split; [exact Hrecv|].
      split; [intros _; by apply Hvalid|]. intros Hm. by apply Hstart in Hm. }
    destruct cl; [intros [= <-]; by apply Hdone|].
    destruct (listen_fails w) as [e|] eqn:Hfail; [|discriminate].
    destruct (is_server_closed e) eqn:Hclosed; [intros [= <-]; by apply Hdone|].
    intros [= <-].
    cbn [mpc gpc serverErrors trace upd_go set_serverErrors go_account].
    split; [|apply Hsides; try discriminate; scan].
    rewrite go_steps_app, Hacc. split; [by rewrite app_nil_r|].
    unfold go_sends. unfold hook_ok in Hok.
    destruct (OnStartup c) as [[e0|]|]; [by destruct (Hok e0)| |]; by exists e.
Qed.

Lemma go_inv_tick st t : go_inv c w st → go_inv c w (tick_once c w st t).
Proof.
  intros Hinv. unfold tick_once, step.
  destruct (killed st); [done|].
  destruct t as [b| |s].
  - destruct (step_main c w b st) as [st'|] eqn:Hstep; [|done]. cbn [default from_option id].
    destruct Hinv as (Hacc & Hempty & Hsent & Hrecv & Hvalid & Hstart).
    destruct (step_main_frame c w b st st' Hstep)
      as ((evs & Htr & Hsteps & _ & Hchan & _) & Hm & Hg & _).
    unfold go_inv. rewrite Htr, go_steps_app, Hsteps, app_nil_r.
    assert (Hgn : gpc st' = gpc st ∨ gpc st = GNone ∧ gpc st' = GStart ∧ valid c).
    { destruct Hg as [?|(Hs & ? & ?)]; [by left|right]. split; [by apply Hstart|done]. }
    split; [|split; [|split; [|split; [|split]]]].
    + destruct Hgn as [->|(Hn & -> & _)]; [done|]. by rewrite Hn in Hacc.
    + intros Hnd. destruct Hchan as [[-> _]|(e & _ & -> & _)]; [|done].
      apply Hempty. destruct Hgn as [<-|(-> & _)]; done.
    + intros e He. apply elem_of_app. left. apply Hsent.
      destruct Hchan as [[<- _]|(e0 & _ & Hnone & _)]; [done|congruence].
    + intros e [He|He]%elem_of_app; apply elem_of_app; left; [by apply Hrecv|].
      destruct Hchan as [[_ Hno]|(e0 & Hsome & _ & Hone)]; [by apply Hno in He|].
      apply Hone in He as ->. by apply Hsent.
    + intros Hne. destruct Hgn as [Heq|(_ & _ & ?)]; [|done]. apply Hvalid. by rewrite <- Heq.
    + intros Hs. by destruct Hm.
  - destruct (step_go c w st) as [st'|] eqn:Hstep; [|done]. cbn [default from_option id].
    by eapply go_inv_step_go.
  - unfold step_signal. destruct Hinv as (Hacc & Hempty & Hsent & Hrecv & Hvalid & Hstart).
    destruct st as [m g se sc nt cl kl tr].
    cbn [notified stopChan mpc gpc serverErrors trace] in *.
    assert (Hnew : go_account c w g (go_steps (tr ++ [Delivered s])) ∧
                   (g ≠ GDone → se = None) ∧
                   (∀ e, se = Some e → Send e ∈ (tr ++ [Delivered s])%list) ∧
                   (∀ e, Recv e ∈ (tr ++ [Delivered s])%list →
                         Send e ∈ (tr ++ [Delivered s])%list) ∧
                   (g ≠ GNone → valid c) ∧ (m = MStart → g = GNone)).
    { rewrite go_steps_app. cbn [go_steps List.filter is_go_step]. rewrite app_nil_r.
      split; [done|]. split; [done|].
      split; [intros e He; apply elem_of_app; left; by apply Hsent|].
      split; [|done].
      intros e [He|He]%elem_of_app; apply elem_of_app; left; [by apply Hrecv|].
      apply list_elem_of_singleton in He. discriminate. }
    destruct nt, sc; exact Hnew.
Qed.

Lemma go_inv_run sched : go_inv c w (run c w sched init).
Proof. apply run_invariant; [apply go_inv_tick|apply go_inv_init]. Qed.

End ServerInvariants.

Section ServerExtras.
Import Server.
Variable c : ServerConfig.
Variable w : World.

Lemma Send_not_before (e : error) : Send e ∉ go_before_send c.
Proof.
  unfold go_before_send, start_part.
  destruct (OnStartup c) as [[e0|]|]; cbn; revert e; scan.
Qed.

Lemma Send_not_start (e : error) : Send e ∉ start_part c.
Proof. unfold start_part. destruct (OnStartup c); revert e; scan. Qed.

Lemma shutdown_steps_of_main tr :
  shutdown_steps tr = List.filter is_shutdown_step (main_steps tr).
Proof.
  unfold shutdown_steps, main_steps.
  induction tr as [|a tr IH]; [done|].
  destruct a; cbn [List.filter is_shutdown_step is_main_step]; by rewrite ?IH.
Qed.

(** The two threads alone never deliver a signal. *)
Lemma quiet_no_signal sched st :
  quiet sched → (∀ s, Delivered s ∉ trace st) →
  ∀ s, Delivered s ∉ trace (run c w sched st).
Proof.
  revert st. induction sched as [|t sched IH]; intros st Hq Hst; [done|].
  apply Forall_cons in Hq as [Ht Hq]. rewrite run_cons. apply IH; [done|].
  unfold tick_once, step. destruct (killed st); [done|].
  destruct t as [b| |s0]; [| |done].
  - destruct (step_main c w b st) as [st'|] eqn:Hstep; [|done]. cbn [default from_option id].
    destruct (step_main_frame c w b st st' Hstep) as ((evs & -> & _ & Hno & _) & _).
    intros s [Hs|Hs]%elem_of_app; [by apply Hst in Hs|by apply Hno in Hs].
  - destruct (step_go c w st) as [st'|] eqn:Hstep; [|done]. cbn [default from_option id].
    destruct (step_go_frame c w st st' Hstep) as (_ & _ & _ & _ & evs & -> & _ & Hno).
    intros s [Hs|Hs]%elem_of_app; [by apply Hst in Hs|by apply Hno in Hs].
Qed.

(** A configuration that passes validation and whose router cannot be
    prepared makes [BuildAndStartServer] panic at its first step. *)
Lemma prepareRouter_panics (b : bool) :
  valid c → ¬ mountable c → mpc (run c w [TMain b] init) = MPanicked.
Proof.
  intros Hv Hno.
  destruct (before_spawn_cases c)
    as [[Hl _]|[(_ & Hinv & _)|[(_ & _ & evs & Hb & _)|(_ & Hm & _)]]].
  - by destruct Hv as (_ & _ & _ & Hlg).
  - by destruct Hinv.
  - unfold run, tick_once, step, step_main.
    cbn [foldl killed mpc init]. rewrite Hb. reflexivity.
  - by destruct Hno.
Qed.

End ServerExtras.

(** ** How [BuildAndStartServer] starts and returns *)

(** X16. The goroutine of [BuildAndStartServer], along every schedule
    and for every configuration: it calls the startup hook at most once,
    starts the listener at most once and only after the hook, if one is
    supplied, has been called and has returned nil, and sends at most one
    error, as its last act.  When [ListenAndServe] has been called, the
    configuration has passed validation and the startup hook has not
    failed. *)
Theorem listener_starts_after_startup_hook
    (c : Server.ServerConfig) (w : Server.World) (sched : list Server.tick) :
  let tr := Server.trace (Server.run c w sched Server.init) in
  (Server.go_steps tr = [] ∨
   (Server.go_steps tr = Server.start_part c ∧ Server.hook_ok c) ∨
   Server.go_steps tr = Server.go_before_send c ∨
   ∃ e, Server.go_steps tr = (Server.go_before_send c ++ [Server.Send e])%list) ∧
  (Server.ListenAndServe ∈ tr →
     Server.valid c ∧ Server.hook_ok c ∧
     ∃ rest, Server.go_steps tr
               = (Server.start_part c ++ Server.ListenAndServe :: rest)%list ∧
             (rest = [] ∨ ∃ e, rest = [Server.Send e])) ∧
  (Server.StartupHook ∈ tr → Server.valid c ∧ Server.OnStartup c ≠ None).
Proof.
  intros tr. subst tr.
  destruct (go_inv_run c w sched) as (Hacc & _ & _ & _ & Hvalid & _).
  set (st := Server.run c w sched Server.init) in *.
  assert (Hforms :
    Server.go_steps (Server.trace st) = [] ∨
    (Server.go_steps (Server.trace st) = Server.start_part c ∧ Server.hook_ok c) ∨
    Server.go_steps (Server.trace st) = Server.go_before_send c ∨
    ∃ e, Server.go_steps (Server.trace st)
           = (Server.go_before_send c ++ [Server.Send e])%list).
  { destruct (Server.gpc st); cbn [Server.go_account] in Hacc.
    - by left.
    - by left.
    - left. by destruct Hacc.
    - right. right. left. by destruct Hacc.
    - right. left. done.
    - right. right. left. by destruct Hacc.
    - destruct Hacc as [[? _]|(e & ? & _)]; right; right; [by left|right; by exists e]. }
  assert (Hstarted : Server.go_steps (Server.trace st) ≠ [] → Server.valid c).
  { intros Hne. apply Hvalid. intros Hg. rewrite Hg in Hacc. by apply Hne. }
  split; [exact Hforms|]. split.
  - intros Hin.
    assert (Hin' : Server.ListenAndServe ∈ Server.go_steps (Server.trace st))
      by (by apply go_steps_elem).
    assert (Hne : Server.go_steps (Server.trace st) ≠ []).
    { intros He. rewrite He in Hin'. by apply elem_of_nil in Hin'. }
    split; [by apply Hstarted|].
    assert (Hnot : Server.ListenAndServe ∉ Server.start_part c).
    { unfold Server.start_part. destruct (Server.OnStartup c); [|apply not_elem_of_nil].
      intros H. apply list_elem_of_singleton in H. discriminate. }
    assert (Hok : Server.ListenAndServe ∈ Server.go_before_send c → Server.hook_ok c ∧
              Server.go_before_send c
                = (Server.start_part c ++ [Server.ListenAndServe])%list).
    { unfold Server.go_before_send, Server.hook_ok.
      destruct (Server.OnStartup c) as [[e0|]|]; [|by split..].
      intros H. apply list_elem_of_singleton in H. discriminate. }
    destruct Hforms as [He|[[He _]|[He|(e & He)]]]; rewrite He in Hin'.
    + by apply elem_of_nil in Hin'.
    + by apply Hnot in Hin'.
    + destruct (Hok Hin') as [Hhook Heq]. split; [done|].
      exists []. split; [by rewrite He, Heq|by left].
    + apply elem_of_app in Hin' as [Hin'|Hin'];
        [|apply list_elem_of_singleton in Hin'; discriminate].
      destruct (Hok Hin') as [Hhook Heq]. split; [done|].
      exists [Server.Send e]. split; [|right; by exists e].
      by rewrite He, Heq, <- app_assoc.
  - intros Hin.
    assert (Hin' : Server.StartupHook ∈ Server.go_steps (Server.trace st))
      by (by apply go_steps_elem).
    assert (Hne : Server.go_steps (Server.trace st) ≠ []).
    { intros He. rewrite He in Hin'. by apply elem_of_nil in Hin'. }
    split; [by apply Hstarted|].
    intros Hnone.
    assert (Hinb : Server.StartupHook ∉ Server.go_before_send c).
    { unfold Server.go_before_send, Server.start_part. rewrite Hnone. cbn.
      intros H. apply list_elem_of_singleton in H. discriminate. }
    destruct Hforms as [He|[[He _]|[He|(e & He)]]]; rewrite He in Hin'.
    + by apply elem_of_nil in Hin'.
    + unfold Server.start_part in Hin'. rewrite Hnone in Hin'. by apply elem_of_nil in Hin'.
    + by apply Hinb in Hin'.
    + apply elem_of_app in Hin' as [Hin'|Hin']; [by apply Hinb in Hin'|].
      apply list_elem_of_singleton in Hin'. discriminate.
Qed.

Lemma listener_starts_after_startup_hook_witness :
  Server.ListenAndServe ∈
    Server.trace (Server.run Server.failing_stop Server.calm (Server.turns 3) Server.init) ∧
  Server.hook_ok Server.failing_stop ∧
  ∃ rest,
    Server.go_steps
      (Server.trace (Server.run Server.failing_stop Server.calm (Server.turns 3) Server.init))
      = (Server.start_part Server.failing_stop ++ Server.ListenAndServe :: rest)%list ∧
    (rest = [] ∨ ∃ e, rest = [Server.Send e]).
Proof.
  assert (Hin : Server.ListenAndServe ∈
            Server.trace (Server.run Server.failing_stop Server.calm (Server.turns 3)
                            Server.init)).
  { vm_compute. repeat first [apply list_elem_of_here | apply list_elem_of_further]. }
  destruct (listener_starts_after_startup_hook Server.failing_stop Server.calm
              (Server.turns 3)) as (_ & H & _).
  destruct (H Hin) as (_ & Hok & Hrest). by split.
Defined.

(** An error that has been sent is one the goroutine can send, and
    sending it was the goroutine's last step. *)
Lemma Send_account (c : Server.ServerConfig) (w : Server.World) (sched : list Server.tick)
    (e : Server.error) :
  Server.Send e ∈ Server.trace (Server.run c w sched Server.init) →
  Server.go_sends c w e ∧
  Server.go_steps (Server.trace (Server.run c w sched Server.init))
    = (Server.go_before_send c ++ [Server.Send e])%list.
Proof.
  destruct (go_inv_run c w sched) as (Hacc & _).
  set (st := Server.run c w sched Server.init) in *.
  intros Hin.
  assert (Hin' : Server.Send e ∈ Server.go_steps (Server.trace st))
    by (by apply go_steps_elem).
  destruct (Server.gpc st); cbn [Server.go_account] in Hacc.
  - rewrite Hacc in Hin'. by apply elem_of_nil in Hin'.
  - rewrite Hacc in Hin'. by apply elem_of_nil in Hin'.
  - destruct Hacc as [Hacc _]. rewrite Hacc in Hin'. by apply elem_of_nil in Hin'.
  - destruct Hacc as [Hacc _]. rewrite Hacc in Hin'. by apply Send_not_before in Hin'.
  - destruct Hacc as [Hacc _]. rewrite Hacc in Hin'. by apply Send_not_start in Hin'.
  - destruct Hacc as [Hacc _]. rewrite Hacc in Hin'. by apply Send_not_before in Hin'.
  - destruct Hacc as [[Hacc _]|(e' & Hacc & Hsends)]; rewrite Hacc in Hin'.
    + by apply Send_not_before in Hin'.
    + apply elem_of_app in Hin' as [Hin'|Hin']; [by apply Send_not_before in Hin'|].
      apply list_elem_of_singleton in Hin'. by inversion Hin'; subst.
Qed.

(** C4, as stated, fails: the hook has failed and its error is in the
    channel, a termination signal is pending as well, and the [select]
    takes the signal; [BuildAndStartServer] shuts down and returns nil. *)
Lemma startup_error_lost_to_signal :
  ¬ (∀ (c : Server.ServerConfig) (w : Server.World) (e : Server.error)
       (sched : list Server.tick) (r : option Server.error),
       Server.valid c →
       Server.OnStartup c = Some (Some e) →
       Server.returned (Server.run c w sched Server.init) = Some r →
       r = Some (Server.hook_error e)).
Proof.
  intros H.
  specialize (H Server.failing_start Server.calm (Server.ErrNew "database unreachable")
    [Server.TMain true; Server.TMain true; Server.TGo; Server.TGo; Server.TGo;
     Server.TSignal Server.SIGTERM;
     Server.TMain false; Server.TMain true; Server.TMain true] None).
  assert (Hv : Server.valid Server.failing_start).
  { unfold Server.valid. cbn. repeat split; (discriminate || lia). }
  specialize (H Hv eq_refl). discriminate H. vm_compute. reflexivity.
Qed.

(** C4, amended.  Take a configuration that passes validation and whose
    router can be prepared (for no other is the startup hook ever called)
    and a startup hook that returns an error.  Then on every schedule:
    [ListenAndServe] is never invoked; nothing panics; once the goroutine
    has ended, all it has done is to call the hook and to send the error,
    wrapped as "startup hook failed: ...", to the server-error channel; and
    [BuildAndStartServer], when it returns, has left its [select] in one of
    two ways.  Either it took the error branch: it received that wrapped
    error, returns it, and called neither the shutdown hook nor
    [srv.Shutdown].  Or a termination signal was delivered and it took the
    signal branch: it ran the shutdown path, that is the shutdown hook, if
    any, [srv.Shutdown], and [srv.Close] if [srv.Shutdown] failed, and
    returns the result of that path.  On a schedule without signals it can
    only return the wrapped error, and it does return it once both threads
    have had four turns. *)
Theorem startup_hook_failure_aborts
    (c : Server.ServerConfig) (w : Server.World) (e : Server.error)
    (sched : list Server.tick) :
  Server.valid c →
  Server.mountable c →
  Server.OnStartup c = Some (Some e) →
  (Server.ListenAndServe ∉ Server.trace (Server.run c w sched Server.init)) ∧
  Server.mpc (Server.run c w sched Server.init) ≠ Server.MPanicked ∧
  (Server.gpc (Server.run c w sched Server.init) = Server.GDone →
     Server.Send (Server.hook_error e) ∈ Server.trace (Server.run c w sched Server.init) ∧
     Server.go_steps (Server.trace (Server.run c w sched Server.init))
       = [Server.StartupHook; Server.Send (Server.hook_error e)]) ∧
  (∀ r, Server.returned (Server.run c w sched Server.init) = Some r →
        (r = Some (Server.hook_error e) ∧
         Server.main_steps (Server.trace (Server.run c w sched Server.init))
           = [Server.Spawn; Server.Notify; Server.Recv (Server.hook_error e)]) ∨
        (r = Server.shutdown_result w ∧
         ∃ s, Server.main_steps (Server.trace (Server.run c w sched Server.init))
                = ([Server.Spawn; Server.Notify; Server.RecvSignal s] ++ Server.hook_part c
                   ++ [Server.SrvShutdown] ++ Server.close_part w)%list ∧
              Server.Delivered s ∈ Server.trace (Server.run c w sched Server.init))) ∧
  (Server.quiet sched →
   ∀ r, Server.returned (Server.run c w sched Server.init) = Some r →
        r = Some (Server.hook_error e)) ∧
  (∀ n : nat, (4 ≤ n)%nat →
        Server.returned (Server.run c w (Server.turns n) Server.init)
          = Some (Some (Server.hook_error e))).
Proof.
  intros Hvalid Hmount Hhook.
  destruct (main_inv_run c w sched) as (Hmacc & _ & Hsig).
  destruct (go_inv_run c w sched) as (Hgacc & _ & _ & Hrecv & _ & _).
  pose proof (Send_account c w sched) as Hsent.
  pose proof (quiet_no_signal c w sched Server.init) as Hquiet.
  set (st := Server.run c w sched Server.init) in *.
  assert (Hgb : Server.go_before_send c = [Server.StartupHook])
    by (unfold Server.go_before_send; by rewrite Hhook).
  assert (Hnok : ¬ Server.hook_ok c) by (intros Hok; by apply (Hok e)).
  assert (Hsends : ∀ e', Server.go_sends c w e' → e' = Server.hook_error e)
    by (intros e'; unfold Server.go_sends; by rewrite Hhook).
  assert (Hin : ∀ a, a ∈ Server.main_steps (Server.trace st) → a ∈ Server.trace st).
  { intros a Ha. by apply main_steps_elem in Ha as [Ha _]. }
  assert (Hret : ∀ r, Server.returned st = Some r →
    (r = Some (Server.hook_error e) ∧
     Server.main_steps (Server.trace st)
       = [Server.Spawn; Server.Notify; Server.Recv (Server.hook_error e)]) ∨
    (r = Server.shutdown_result w ∧
     ∃ s, Server.main_steps (Server.trace st)
            = ([Server.Spawn; Server.Notify; Server.RecvSignal s] ++ Server.hook_part c
               ++ [Server.SrvShutdown] ++ Server.close_part w)%list ∧
          Server.Delivered s ∈ Server.trace st)).
  { intros r Hr. unfold Server.returned in Hr.
    destruct (Server.mpc st) eqn:Hm; try discriminate. injection Hr as ->.
    cbn [Server.main_account] in Hmacc.
    destruct Hmacc as [(_ & Hinv & _)|[(_ & e' & Hsteps & ->)|(_ & -> & s & Hsteps)]].
    - by destruct Hinv.
    - left.
      assert (Hr : Server.Recv e' ∈ Server.trace st).
      { apply Hin. rewrite Hsteps. do 2 apply list_elem_of_further. apply list_elem_of_here. }
      destruct (Hsent e' (Hrecv e' Hr)) as [Hgo _]. apply Hsends in Hgo. by subst e'.
    - right. split; [done|]. exists s. split; [done|].
      apply Hsig, Hin. rewrite Hsteps.
      do 2 apply list_elem_of_further. apply list_elem_of_here. }
  split.
  { intros Hls.
    assert (Hls' : Server.ListenAndServe ∈ Server.go_steps (Server.trace st))
      by (by apply go_steps_elem).
    destruct (Server.gpc st); cbn [Server.go_account] in Hgacc.
    - rewrite Hgacc in Hls'. by apply elem_of_nil in Hls'.
    - rewrite Hgacc in Hls'. by apply elem_of_nil in Hls'.
    - destruct Hgacc as [Hgacc _]. rewrite Hgacc in Hls'. by apply elem_of_nil in Hls'.
    - destruct Hgacc as [Hgacc _]. rewrite Hgacc, Hgb in Hls'.
      apply list_elem_of_singleton in Hls'. discriminate.
    - by destruct Hgacc as [_ Hok].
    - by destruct Hgacc as [_ Hok].
    - destruct Hgacc as [[_ Hok]|(e' & Hgacc & _)]; [done|].
      rewrite Hgacc, Hgb in Hls'.
      repeat (apply elem_of_cons in Hls' as [Hls'|Hls']; [discriminate Hls'|]).
      by apply elem_of_nil in Hls'. }
  split.
  { intros Hp. rewrite Hp in Hmacc. cbn [Server.main_account] in Hmacc.
    destruct Hmacc as [_ [Hnil|[_ Hno]]]; [|done].
    by destruct Hvalid as (_ & _ & _ & Hlg). }
  split.
  { intros Hg. rewrite Hg in Hgacc. cbn [Server.go_account] in Hgacc.
    destruct Hgacc as [[_ Hok]|(e' & Hgacc & Hgo)]; [done|].
    apply Hsends in Hgo. subst e'. rewrite Hgb in Hgacc. split; [|exact Hgacc].
    apply (proj1 (go_steps_elem _ (Server.trace st))). rewrite Hgacc.
    apply list_elem_of_further, list_elem_of_here. }
  split; [exact Hret|]. split.
  - intros Hq r Hr. destruct (Hret r Hr) as [[-> _]|(_ & s & _ & Hdel)]; [done|].
    exfalso. revert Hdel. apply Hquiet; [done|]. intros s'. apply not_elem_of_nil.
  - intros n Hn. by apply hook_error_returned.
Qed.

Lemma startup_hook_failure_aborts_witness :
  Server.valid Server.failing_start ∧
  Server.mountable Server.failing_start ∧
  Server.OnStartup Server.failing_start = Some (Some (Server.ErrNew "database unreachable")) ∧
  (Server.ListenAndServe ∉
    Server.trace (Server.run Server.failing_start Server.calm (Server.turns 4) Server.init)) ∧
  Server.returned (Server.run Server.failing_start Server.calm (Server.turns 4) Server.init)
    = Some (Some (Server.hook_error (Server.ErrNew "database unreachable"))).
Proof.
  assert (Hv : Server.valid Server.failing_start).
  { unfold Server.valid. cbn. repeat split; (discriminate || lia). }
  assert (Hm : Server.mountable Server.failing_start) by (split; [by eexists|constructor]).
  destruct (startup_hook_failure_aborts Server.failing_start Server.calm
              (Server.ErrNew "database unreachable") (Server.turns 4) Hv Hm eq_refl)
    as (Hl & _ & _ & _ & _ & Hret).
  split; [exact Hv|]. split; [exact Hm|]. split; [reflexivity|]. split; [exact Hl|].
  apply Hret. lia.
Defined.

(** X17. The error channel of [BuildAndStartServer], along every
    schedule: the goroutine's send never blocks, for the channel is empty
    whenever the goroutine is about to send, so the goroutine always ends;
    at most one error is ever sent, it is the failure of the startup hook
    wrapped as "startup hook failed: ..." or the failure of the listener,
    other than [http.ErrServerClosed], wrapped as "server failed: ...", and
    sending it is the last thing the goroutine does; the channel holds an
    error only when the goroutine has ended; and an error the calling thread
    receives has been sent by the goroutine. *)
Theorem error_channel_never_blocks
    (c : Server.ServerConfig) (w : Server.World) (sched : list Server.tick) :
  let st := Server.run c w sched Server.init in
  (∀ e, Server.gpc st = Server.GSend e →
        Server.serverErrors st = None ∧
        ∃ st', Server.step_go c w st = Some st' ∧ Server.gpc st' = Server.GDone ∧
               Server.serverErrors st' = Some e) ∧
  (∀ e, Server.serverErrors st = Some e →
        Server.gpc st = Server.GDone ∧ Server.Send e ∈ Server.trace st) ∧
  (∀ e, Server.Send e ∈ Server.trace st →
        Server.go_sends c w e ∧
        Server.go_steps (Server.trace st)
          = (Server.go_before_send c ++ [Server.Send e])%list) ∧
  (∀ e, Server.Recv e ∈ Server.trace st → Server.Send e ∈ Server.trace st).
Proof.
  intros st. subst st.
  destruct (go_inv_run c w sched) as (Hacc & Hempty & Hsent & Hrecv & _ & _).
  set (st := Server.run c w sched Server.init) in *.
  split; [|split; [|split]].
  - intros e Hg.
    assert (Hnone : Server.serverErrors st = None) by (apply Hempty; by rewrite Hg).
    split; [done|]. unfold Server.step_go. rewrite Hg, Hnone. by eexists.
  - intros e He. split; [|by apply Hsent].
    destruct (Server.gpc st) eqn:Hg; [..|done];
      (rewrite Hempty in He; [discriminate|discriminate]).
  - intros e Hin. by apply Send_account.
  - exact Hrecv.
Qed.

(** X18. How [BuildAndStartServer] returns, along every schedule and for
    every configuration.  It returns in one of three ways: with the
    validation error wrapped as "invalid server configuration: ...", when
    the configuration does not pass validation, and then no goroutine was
    started and no signal handler installed; with the error the goroutine
    sent, taken from the channel in the [select], and then neither the
    shutdown hook nor [srv.Shutdown] was called; or, after a signal was
    delivered and taken from the channel, with the result of the shutdown,
    after the shutdown hook (if any), [srv.Shutdown], and [srv.Close] if and
    only if [srv.Shutdown] failed.  So it returns nil only after a signal
    and a [srv.Shutdown] that succeeded. *)
Theorem BuildAndStartServer_returns_three_ways
    (c : Server.ServerConfig) (w : Server.World) (sched : list Server.tick)
    (r : option Server.error) :
  Server.returned (Server.run c w sched Server.init) = Some r →
  let tr := Server.trace (Server.run c w sched Server.init) in
  ((Server.main_steps tr = [] ∧ ¬ Server.valid c ∧
    ∃ e, r = Some (Server.ErrWrap "invalid server configuration: " e) ∧
         snd (Server.Validate c) = Server.Done (Some e)) ∨
   (Server.valid c ∧
    ∃ e, Server.main_steps tr = [Server.Spawn; Server.Notify; Server.Recv e] ∧
         r = Some e ∧ Server.go_sends c w e) ∨
   (Server.valid c ∧ r = Server.shutdown_result w ∧
    ∃ s, Server.main_steps tr
           = ([Server.Spawn; Server.Notify; Server.RecvSignal s] ++ Server.hook_part c
              ++ [Server.SrvShutdown] ++ Server.close_part w)%list ∧
         Server.Delivered s ∈ tr)) ∧
  (r = None →
     Server.shutdown_err w = None ∧ Server.SrvShutdown ∈ tr ∧ (Server.SrvClose ∉ tr) ∧
     ∃ s, Server.Delivered s ∈ tr).
Proof.
  intros Hret tr. subst tr.
  destruct (main_inv_run c w sched) as (Hacc & _ & Hsig).
  destruct (go_inv_run c w sched) as (Hgo & _ & _ & Hrecv & _ & _).
  set (st := Server.run c w sched Server.init) in *.
  unfold Server.returned in Hret.
  destruct (Server.mpc st) eqn:Hm; try discriminate. injection Hret as ->.
  cbn [Server.main_account] in Hacc.
  assert (Hin : ∀ a, a ∈ Server.main_steps (Server.trace st) → a ∈ Server.trace st).
  { intros a Ha. by apply main_steps_elem in Ha as [Ha _]. }
  assert (Hthree :
    (Server.main_steps (Server.trace st) = [] ∧ ¬ Server.valid c ∧
     ∃ e, r = Some (Server.ErrWrap "invalid server configuration: " e) ∧
          snd (Server.Validate c) = Server.Done (Some e)) ∨
    (Server.valid c ∧
     ∃ e, Server.main_steps (Server.trace st)
            = [Server.Spawn; Server.Notify; Server.Recv e] ∧
          r = Some e ∧ Server.go_sends c w e) ∨
    (Server.valid c ∧ r = Server.shutdown_result w ∧
     ∃ s, Server.main_steps (Server.trace st)
            = ([Server.Spawn; Server.Notify; Server.RecvSignal s] ++ Server.hook_part c
               ++ [Server.SrvShutdown] ++ Server.close_part w)%list ∧
          Server.Delivered s ∈ Server.trace st)).
  { destruct Hacc as [Hacc|[(Hv & e & Hsteps & ->)|(Hv & -> & s & Hsteps)]].
    - by left.
    - right. left. split; [done|]. exists e. split; [done|]. split; [done|].
      assert (Hr : Server.Recv e ∈ Server.trace st).
      { apply Hin. rewrite Hsteps. do 2 apply list_elem_of_further. apply list_elem_of_here. }
      by apply (Send_account c w sched), Hrecv.
    - right. right. split; [done|]. split; [done|]. exists s. split; [done|].
      apply Hsig, Hin. rewrite Hsteps.
      do 2 apply list_elem_of_further. apply list_elem_of_here. }
  split; [exact Hthree|].
  intros ->. destruct Hthree as [(_ & _ & e & [=] & _)|[(_ & e & _ & [=] & _)
                                 |(_ & Hres & s & Hsteps & Hdel)]].
  assert (Hok : Server.shutdown_err w = None).
  { unfold Server.shutdown_result in Hres.
    destruct (Server.shutdown_err w); [|done]. by destruct (Server.close_err w). }
  split; [done|]. unfold Server.close_part in Hsteps. rewrite Hok in Hsteps.
  split; [|split; [|by exists s]].
  - apply Hin. rewrite Hsteps. apply elem_of_app. right. apply elem_of_app. right.
    apply elem_of_app. left. by apply list_elem_of_singleton.
  - intros Hc. assert (Hc' : Server.SrvClose ∈ Server.main_steps (Server.trace st))
      by (by apply main_steps_elem).
    rewrite Hsteps in Hc'. unfold Server.hook_part in Hc'.
    destruct (Server.OnShutdown c); cbn in Hc';
      repeat (apply elem_of_cons in Hc' as [Hc'|Hc']; [discriminate Hc'|]);
      by apply elem_of_nil in Hc'.
Qed.

Section ListenerFails.
Import Server.
Variable c : ServerConfig.
Variable w : World.
Variable e : error.
Hypothesis Hvalid : valid c.
Hypothesis Hmount : mountable c.
Hypothesis Hok : hook_ok c.
Hypothesis Hfails : listen_fails w = Some e.
Hypothesis Hother : is_server_closed e = false.

(** With the two threads taking turns and no signal, six rounds are
    enough for [BuildAndStartServer] to return the listener's failure. *)
Lemma listener_error_returned (n : nat) :
  (6 ≤ n)%nat →
  returned (run c w (turns n) init) = Some (Some (ErrWrap "server failed: " e)).
Proof.
  intros Hn. replace n with (6 + (n - 6)) by lia. rewrite turns_add, run_app.
  assert (H6 : mpc (run c w (turns 6) init) = MReturned (Some (ErrWrap "server failed: " e)) ∧
               gpc (run c w (turns 6) init) = GDone).
  { cbn [turns]. destruct (before_spawn_valid c Hvalid Hmount) as (evs & h & Hb & _).
    one_tick. rewrite Hb. settle.
    unfold hook_ok in Hok.
    destruct (OnStartup c) as [[e0|]|] eqn:Hon; [by destruct (Hok e0)| |].
    - one_tick. rewrite Hon. settle.
      one_tick. one_tick. rewrite Hon. settle.
      one_tick. one_tick.
      one_tick. one_tick. rewrite Hfails, Hother. settle.
      one_tick. one_tick.
      one_tick. one_tick.
      by split.
    - one_tick. rewrite Hon. settle.
      one_tick. one_tick.
      one_tick. one_tick. rewrite Hfails, Hother. settle.
      one_tick. one_tick.
      one_tick. one_tick.
      one_tick. one_tick.
      by split. }
  destruct H6 as [Hm Hg]. rewrite (ended_is_stable _ _ _ _ Hm Hg).
  unfold returned. by rewrite Hm.
Qed.

End ListenerFails.

(** X19. Without a signal [BuildAndStartServer] never shuts anything
    down, whatever the configuration and the schedule of the two threads:
    no signal is taken from the channel, the shutdown hook, [srv.Shutdown]
    and [srv.Close] are never called, and it never returns nil.  In
    particular, when the listener fails on its own with an error other than
    [http.ErrServerClosed], with a configuration that passes validation,
    whose router can be prepared and whose startup hook does not fail,
    [BuildAndStartServer] returns that error wrapped as "server failed: ..."
    once both threads have had six turns, and the shutdown hook is not
    run. *)
Theorem no_signal_no_shutdown
    (c : Server.ServerConfig) (w : Server.World) (sched : list Server.tick) :
  Server.quiet sched →
  let st := Server.run c w sched Server.init in
  (∀ s, Server.Delivered s ∉ Server.trace st) ∧
  (∀ s, Server.RecvSignal s ∉ Server.trace st) ∧
  Server.shutdown_steps (Server.trace st) = [] ∧
  (Server.SrvClose ∉ Server.trace st) ∧
  (∀ r, Server.returned st = Some r → r ≠ None) ∧
  (Server.valid c → Server.mountable c → Server.hook_ok c →
   ∀ e, Server.listen_fails w = Some e → Server.is_server_closed e = false →
   ∀ n : nat, (6 ≤ n)%nat →
     Server.returned (Server.run c w (Server.turns n) Server.init)
       = Some (Some (Server.ErrWrap "server failed: " e)) ∧
     Server.shutdown_steps
       (Server.trace (Server.run c w (Server.turns n) Server.init)) = []).
Proof.
  assert (Hgen : ∀ sched, Server.quiet sched →
    let st := Server.run c w sched Server.init in
    (∀ s, Server.Delivered s ∉ Server.trace st) ∧
    (∀ s, Server.RecvSignal s ∉ Server.trace st) ∧
    Server.shutdown_steps (Server.trace st) = [] ∧
    (Server.SrvClose ∉ Server.trace st) ∧
    (∀ r, Server.returned st = Some r → r ≠ None)).
  { clear sched. intros sched Hq st. subst st.
    assert (Hno : ∀ s, Server.Delivered s ∉
              Server.trace (Server.run c w sched Server.init)).
    { apply quiet_no_signal; [done|]. intros s. apply not_elem_of_nil. }
    destruct (main_inv_run c w sched) as (Hacc & _ & Hsig).
    set (st := Server.run c w sched Server.init) in *.
    assert (Hnr : ∀ s, Server.RecvSignal s ∉ Server.trace st).
    { intros s Hs. by apply Hsig, Hno in Hs. }
    assert (Hnm : ∀ s rest, Server.main_steps (Server.trace st)
                   ≠ ([Server.Spawn; Server.Notify; Server.RecvSignal s] ++ rest)%list).
    { intros s rest Heq. apply (Hnr s).
      assert (Hin : Server.RecvSignal s ∈ Server.main_steps (Server.trace st)).
      { rewrite Heq. do 2 apply list_elem_of_further. apply list_elem_of_here. }
      by apply main_steps_elem in Hin as [Hin _]. }
    assert (Hforms :
      Server.main_steps (Server.trace st) = [] ∨
      Server.main_steps (Server.trace st) = [Server.Spawn] ∨
      Server.main_steps (Server.trace st) = [Server.Spawn; Server.Notify] ∨
      ∃ e, Server.main_steps (Server.trace st)
             = [Server.Spawn; Server.Notify; Server.Recv e] ∧
           Server.returned st = Some (Some e)).
    { unfold Server.returned.
      destruct (Server.mpc st) eqn:Hm; cbn [Server.main_account] in Hacc.
      - by left.
      - right. left. by destruct Hacc.
      - right. right. left. by destruct Hacc.
      - destruct Hacc as (_ & s & Heq). by destruct (Hnm s []).
      - destruct Hacc as (_ & s & Heq). by destruct (Hnm s (Server.hook_part c)).
      - destruct Hacc as (_ & _ & s & Heq). by destruct (Hnm s _ Heq).
      - destruct Hacc as [(? & _)|[(_ & e & ? & ->)|(_ & _ & s & Heq)]].
        + by left.
        + right. right. right. by exists e.
        + by destruct (Hnm s _ Heq).
      - left. by destruct Hacc. }
    split; [exact Hno|]. split; [exact Hnr|]. split; [|split].
    - rewrite shutdown_steps_of_main.
      destruct Hforms as [->|[->|[->|(e & -> & _)]]]; reflexivity.
    - intros Hc. assert (Hc' : Server.SrvClose ∈ Server.main_steps (Server.trace st))
        by (by apply main_steps_elem).
      destruct Hforms as [He|[He|[He|(e & He & _)]]]; rewrite He in Hc';
        repeat (apply elem_of_cons in Hc' as [Hc'|Hc']; [discriminate Hc'|]);
        by apply elem_of_nil in Hc'.
    - intros r Hr ->. unfold Server.returned in Hr.
      destruct (Server.mpc st) eqn:Hm; try discriminate. injection Hr as ->.
      cbn [Server.main_account] in Hacc.
      destruct Hacc as [(_ & _ & e & He & _)|[(_ & e & _ & He)|(_ & _ & s & Heq)]];
        [discriminate He|discriminate He|].
      by destruct (Hnm s _ Heq). }
  intros Hq st. destruct (Hgen sched Hq) as (H1 & H2 & H3 & H4 & H5).
  do 4 (split; [done|]). split; [done|].
  intros Hv Hmt Hok e Hf Hc n Hn.
  split; [by apply listener_error_returned|].
  assert (Hqt : Server.quiet (Server.turns n)).
  { clear. induction n as [|n IH]; [constructor|]. cbn [Server.turns].
    by repeat constructor. }
  by destruct (Hgen _ Hqt) as (_ & _ & ? & _).
Qed.

Lemma no_signal_no_shutdown_witness :
  Server.returned (Server.run Server.plain_config Server.port_taken (Server.turns 6)
                     Server.init)
    = Some (Some (Server.ErrWrap "server failed: "
                    (Server.ErrNew "listen tcp :8080: bind: address already in use"))) ∧
  Server.shutdown_steps
    (Server.trace (Server.run Server.plain_config Server.port_taken (Server.turns 6)
                     Server.init)) = [].
Proof.
  assert (Hq : Server.quiet (Server.turns 6)) by (by repeat constructor).
  assert (Hv : Server.valid Server.plain_config).
  { unfold Server.valid. cbn. repeat split; (discriminate || lia). }
  assert (Hmt : Server.mountable Server.plain_config) by (split; [by eexists|constructor]).
  assert (Hok : Server.hook_ok Server.plain_config) by (by intros e).
  destruct (no_signal_no_shutdown Server.plain_config Server.port_taken (Server.turns 6) Hq)
    as (_ & _ & _ & _ & _ & H).
  apply (H Hv Hmt Hok _ eq_refl eq_refl 6%nat). lia.
Defined.

Lemma BuildAndStartServer_returns_three_ways_witness :
  let sched := [Server.TMain true; Server.TMain true; Server.TGo; Server.TGo; Server.TGo;
                Server.TSignal Server.SIGTERM;
                Server.TMain true; Server.TMain true; Server.TMain true] in
  Server.returned (Server.run Server.failing_stop Server.calm sched Server.init) = Some None ∧
  Server.SrvShutdown ∈ Server.trace (Server.run Server.failing_stop Server.calm sched Server.init) ∧
  (Server.SrvClose ∉ Server.trace (Server.run Server.failing_stop Server.calm sched Server.init)).
Proof.
  intros sched.
  assert (Hret : Server.returned (Server.run Server.failing_stop Server.calm sched Server.init)
                 = Some None) by (vm_compute; reflexivity).
  destruct (BuildAndStartServer_returns_three_ways Server.failing_stop Server.calm sched None
              Hret) as [_ H].
  destruct (H eq_refl) as (_ & Hs & Hc & _).
  split; [exact Hret|]. split; [exact Hs|exact Hc].
Defined.

(** The settings never hold an empty port. *)
Lemma LoadENVVariables_port (f : EnvVars.Dotfile) (e : gmap string string)
    (v : EnvVars.Variables) :
  EnvVars.LoadENVVariables f e = inl v → EnvVars.Port v ≠ "".
Proof.
  intros Hv. destruct f as [msg|vars]; [discriminate|].
  unfold EnvVars.LoadENVVariables, EnvVars.LoadENV in Hv.
  repeat match type of Hv with
         | context [EnvVars.parseMsDuration ?x] =>
             destruct (EnvVars.parseMsDuration x) as [?|?]; [|discriminate Hv]
         end.
  inversion Hv; subst v; clear Hv. cbn [EnvVars.Port EnvVars.port].
  by apply GetEnvOrDefault_not_empty.
Qed.

(** X20. [DefaultServerConfig] returns the error "ERROR: Logger is
    required" for a nil logger pointer, panics for a pointer to a nil
    logger, and otherwise logs one line and returns a configuration with
    the arguments given, each timeout that is nil replaced by its default
    (15 s, 15 s, 10 s, 60 s, 10 s), no hooks, and the logger.  It checks
    nothing else: the configuration passes [Validate] exactly when the app
    is not nil, the port is not empty and the shutdown timeout given, if
    any, is positive.  Its logger is never nil, so [BuildAndStartServer]
    panics on it only where it prepares the router: exactly when the
    configuration passes [Validate] and the app wraps no router, as
    [&HTTPRouter{}] does, or one of the middlewares is nil.  When the port
    and the
    timeouts come from settings that [LoadENVVariables] built, the port is
    never empty, so only a nil app or a shutdown timeout that is not
    positive can make the validation fail. *)
Theorem DefaultServerConfig_result
    (app : option Server.HTTPRouter) (port : string)
    (middlewares : list Server.Middleware)
    (logger : option (option Server.LoggerRef))
    (readTimeout writeTimeout shutdownTimeout idleTimeout readHeaderTimeout : option Z) :
  match Server.DefaultServerConfig app port middlewares logger readTimeout writeTimeout
          shutdownTimeout idleTimeout readHeaderTimeout with
  | (evs, Server.Done (inl c)) =>
      (∃ lg, logger = Some (Some lg) ∧ Server.Logger c = Some lg) ∧
      evs = [Server.Log LevelInfo "Initializing ServerConfig for port %s" [Server.AStr port]] ∧
      Server.App c = app ∧ Server.Port c = port ∧ Server.Middlewares c = middlewares ∧
      Server.ReadTimeout c = default 15000000000%Z readTimeout ∧
      Server.WriteTimeout c = default 15000000000%Z writeTimeout ∧
      Server.ShutdownTimeout c = default 10000000000%Z shutdownTimeout ∧
      Server.IdleTimeout c = default 60000000000%Z idleTimeout ∧
      Server.ReadHeaderTimeout c = default 10000000000%Z readHeaderTimeout ∧
      Server.OnStartup c = None ∧ Server.OnShutdown c = None ∧
      (Server.valid c ↔
         app ≠ None ∧ port ≠ "" ∧ ∀ d, shutdownTimeout = Some d → (0 < d)%Z) ∧
      (∀ w sched, Server.mpc (Server.run c w sched Server.init) = Server.MPanicked →
                  Server.valid c ∧ ¬ Server.mountable c) ∧
      (Server.valid c → ¬ Server.mountable c →
       ∀ w b, Server.mpc (Server.run c w [Server.TMain b] Server.init) = Server.MPanicked) ∧
      (∀ f e v, EnvVars.LoadENVVariables f e = inl v →
                port = EnvVars.Port v →
                shutdownTimeout = EnvVars.SHUTDOWN_TIMEOUT_MS v →
                (Server.valid c ↔
                   app ≠ None ∧ ∀ d, EnvVars.SHUTDOWN_TIMEOUT_MS v = Some d → (0 < d)%Z))
  | (evs, Server.Done (inr e)) =>
      logger = None ∧ evs = [] ∧ e = Server.ErrNew "ERROR: Logger is required"
  | (evs, Server.Panic) => logger = Some None ∧ evs = []
  end.
Proof.
  unfold Server.DefaultServerConfig.
  destruct logger as [[lg|]|]; cbn; [|done|done].
  assert (Hvalid :
    Server.valid
      {| Server.App := app; Server.Port := port; Server.Middlewares := middlewares;
         Server.ReadTimeout := match readTimeout with Some d => d | None => 15 * Server.Second end;
         Server.WriteTimeout := match writeTimeout with Some d => d | None => 15 * Server.Second end;
         Server.IdleTimeout := match idleTimeout with Some d => d | None => 60 * Server.Second end;
         Server.ReadHeaderTimeout :=
           match readHeaderTimeout with Some d => d | None => 10 * Server.Second end;
         Server.ShutdownTimeout :=
           match shutdownTimeout with Some d => d | None => 10 * Server.Second end;
         Server.OnStartup := None; Server.OnShutdown := None;
         Server.Logger := Some lg |}
    ↔ app ≠ None ∧ port ≠ "" ∧ ∀ d, shutdownTimeout = Some d → (0 < d)%Z).
  { unfold Server.valid. cbn. split.
    - intros (Ha & Hp & Ht & _). split; [done|]. split; [done|].
      intros d ->. exact Ht.
    - intros (Ha & Hp & Ht). split; [done|]. split; [done|]. split; [|done].
      destruct shutdownTimeout as [d|]; [by apply Ht|]. unfold Server.Second. lia. }
  split; [by exists lg|]. split; [done|]. do 3 (split; [done|]).
  split; [by destruct readTimeout|]. split; [by destruct writeTimeout|].
  split; [by destruct shutdownTimeout|]. split; [by destruct idleTimeout|].
  split; [by destruct readHeaderTimeout|]. do 2 (split; [done|]).
  split; [exact Hvalid|]. split; [|split].
  - intros w sched Hp.
    match type of Hp with
    | context [Server.run ?cfg _ _ _] =>
        destruct (main_inv_run cfg w sched) as (Hacc & _)
    end.
    rewrite Hp in Hacc. by destruct Hacc as [_ [Hl|Hno]].
  - intros Hv Hno w b. exact (prepareRouter_panics _ w b Hv Hno).
  - intros f e v Hload -> ->. rewrite Hvalid.
    pose proof (LoadENVVariables_port f e v Hload) as Hport.
    split; [by intros (? & _ & ?)|by intros [? ?]].
Qed.

Lemma DefaultServerConfig_result_witness :
  let e : gmap string string := {["SHUTDOWN_TIMEOUT_MS" := "0"]} in
  ∃ v c evs,
    EnvVars.LoadENVVariables (EnvVars.DotVars ∅) e = inl v ∧
    Server.config_of_settings v (Some Server.app_router) [] (Some (Some (Server.LoggerObj 0)))
      = (evs, Server.Done (inl c)) ∧
    ¬ Server.valid c.
Proof.
  intros e.
  destruct (EnvVars.LoadENVVariables (EnvVars.DotVars ∅) e) as [v|err] eqn:Hload;
    [|vm_compute in Hload; discriminate Hload].
  pose proof (DefaultServerConfig_result (Some Server.app_router) (EnvVars.Port v) []
                (Some (Some (Server.LoggerObj 0)))
                (EnvVars.READ_TIMEOUT_MS v) (EnvVars.WRITE_TIMEOUT_MS v)
                (EnvVars.SHUTDOWN_TIMEOUT_MS v) (EnvVars.IDLE_TIMEOUT_MS v)
                (EnvVars.READ_HEADER_TIMEOUT_MS v)) as H.
  fold (Server.config_of_settings v (Some Server.app_router) []
          (Some (Some (Server.LoggerObj 0)))) in H.
  destruct (Server.config_of_settings v (Some Server.app_router) []
              (Some (Some (Server.LoggerObj 0)))) as [evs [[c|err]|]] eqn:Hc.
  - exists v, c, evs. split; [reflexivity|]. split; [exact Hc|].
    destruct H as (_ & _ & _ & _ & _ & _ & _ & _ & _ & _ & _ & _ & _ & _ & _ & Hiff).
    rewrite (Hiff _ _ v Hload eq_refl eq_refl).
    intros [_ Hpos]. vm_compute in Hload. inversion Hload; subst v.
    specialize (Hpos 0%Z eq_refl). lia.
  - by destruct H as [[=] _].
  - by destruct H as [[=] _].
Defined.

(** ** The first version of the server (unnamed/part_005, unnamed/part_000) *)

Section LegacyFacts.
Import Legacy.
Variable w : World.

Lemma legacy_run_cons t sched st : run w (t :: sched) st = run w sched (tick_once w st t).
Proof. reflexivity. Qed.

Lemma legacy_run_app sched1 sched2 st :
  run w (sched1 ++ sched2) st = run w sched2 (run w sched1 st).
Proof. unfold run. apply foldl_app. Qed.

Lemma legacy_run_invariant (P : State → Prop) :
  (∀ st t, P st → P (tick_once w st t)) → ∀ sched st, P st → P (run w sched st).
Proof.
  intros Hstep sched. induction sched as [|t sched IH]; intros st Hst; [done|].
  rewrite legacy_run_cons. apply IH, Hstep, Hst.
Qed.

Lemma legacy_inv_init : legacy_inv w init.
Proof.
  unfold legacy_inv, init. cbn. split; [done|]. split; [done|]. split; [by intros s [=]|].
  split; [intros addr H; by apply elem_of_nil in H|]. intros addr. apply not_elem_of_nil.
Qed.

Lemma legacy_inv_tick st t : legacy_inv w st → legacy_inv w (tick_once w st t).
Proof.
  intros Hinv. unfold tick_once, step.
  destruct (killed st) eqn:Hk; [done|].
  unfold legacy_inv in *.
  destruct st as [p sc nt kl tr]. cbn [killed at_] in *. subst kl.
  destruct Hinv as (Hkill & Hnot & Hchan & Hlisten & Hat). cbn [killed at_ notified stopChan trace] in *.
  assert (Hleft : ∀ evs, (∀ addr, ListenAndServe addr ∉ evs) →
            ∀ addr, ListenAndServe addr ∈ (tr ++ evs)%list →
              ∃ v, LoadENVVariables (dotfile w) (environ w) = inl v ∧ addr = Port v).
  { intros evs Hno addr [H|H]%elem_of_app; [by apply Hlisten|by apply Hno in H]. }
  assert (Hchan' : ∀ evs s, sc = Some s → Delivered s ∈ (tr ++ evs)%list).
  { intros evs s Hs. apply elem_of_app. left. by apply Hchan. }
  destruct p; [| | | | |done].
  - (* Start *)
    destruct t as [|s]; cbn.
    + split; [done|]. split; [done|]. split; [apply Hchan'|].
      split; [apply Hleft; scan|].
      intros addr [H|H]%elem_of_app; [by apply Hat in H|revert addr H; scan].
    + unfold step_signal. cbn [notified stopChan at_ trace killed].
      destruct nt; cbn.
      * split; [done|]. split; [done|]. split.
        { intros s'. destruct sc as [s0|]; intros [= <-]; apply elem_of_app;
            [left; by apply Hchan|right; by apply list_elem_of_singleton]. }
        split; [apply Hleft; scan|].
        intros addr [H|H]%elem_of_app; [by apply Hat in H|revert addr H; scan].
      * split; [done|]. split; [done|]. split; [apply Hchan'|].
        split; [apply Hleft; scan|].
        intros addr [H|H]%elem_of_app; [by apply Hat in H|revert addr H; scan].
  - (* Loading *)
    destruct t as [|s]; cbn.
    + unfold step_main. cbn [at_].
      destruct (LoadENVVariables (dotfile w) (environ w)) as [v|msg] eqn:Hload; cbn.
      * split; [done|]. split; [intros _; by apply Hnot|]. split; [apply Hchan'|].
        split; [|by exists v].
        intros addr [H|H]%elem_of_app; [by apply Hat in H|].
        exists v. split; [done|].
        apply elem_of_cons in H as [H|H]; [discriminate H|].
        apply list_elem_of_singleton in H. by inversion H.
      * split; [done|]. split; [intros _; by apply Hnot|]. split; [apply Hchan'|].
        split; [apply Hleft; scan|]. split; [done|]. split; [by exists msg|].
        intros addr [H|H]%elem_of_app; [by apply Hat in H|revert addr H; scan].
    + unfold step_signal. cbn [notified stopChan at_ trace killed].
      rewrite (Hnot ltac:(discriminate)). cbn.
      split; [done|]. split; [done|]. split.
      { intros s'. destruct sc as [s0|]; intros [= <-]; apply elem_of_app;
          [left; by apply Hchan|right; by apply list_elem_of_singleton]. }
      split; [apply Hleft; scan|].
      intros addr [H|H]%elem_of_app; [by apply Hat in H|revert addr H; scan].
  - (* Serving *)
    destruct t as [|s]; cbn.
    + unfold step_main. cbn [at_]. destruct (listen_fails w) eqn:Hf; cbn.
      * split; [done|]. split; [intros _; by apply Hnot|]. split; [apply Hchan'|].
        split; [apply Hleft; scan|done].
      * done.
    + unfold step_signal. cbn [notified stopChan at_ trace killed].
      rewrite (Hnot ltac:(discriminate)). cbn.
      split; [done|]. split; [done|]. split.
      { intros s'. destruct sc as [s0|]; intros [= <-]; apply elem_of_app;
          [left; by apply Hchan|right; by apply list_elem_of_singleton]. }
      split; [apply Hleft; scan|done].
  - (* Waiting *)
    destruct t as [|s]; cbn.
    + unfold step_main. cbn [at_ stopChan]. destruct sc as [s0|]; cbn.
      * split; [done|]. split; [intros _; by apply Hnot|]. split; [by intros s [=]|].
        split; [apply Hleft; scan|]. split; [done|].
        exists s0. apply elem_of_app. left. by apply Hchan.
      * done.
    + unfold step_signal. cbn [notified stopChan at_ trace killed].
      rewrite (Hnot ltac:(discriminate)). cbn.
      split; [done|]. split; [done|]. split.
      { intros s'. destruct sc as [s0|]; intros [= <-]; apply elem_of_app;
          [left; by apply Hchan|right; by apply list_elem_of_singleton]. }
      split; [apply Hleft; scan|done].
  - (* Returned *)
    destruct t as [|s]; cbn; [done|].
    unfold step_signal. cbn [notified stopChan at_ trace killed].
    rewrite (Hnot ltac:(discriminate)). cbn.
    split; [done|]. split; [done|]. split.
    { intros s'. destruct sc as [s0|]; intros [= <-]; apply elem_of_app;
        [left; by apply Hchan|right; by apply list_elem_of_singleton]. }
    split; [apply Hleft; scan|]. destruct Hat as [Hf (s0 & Hs0)]. split; [done|].
    exists s0. apply elem_of_app. by left.
Qed.

Lemma legacy_inv_run sched : legacy_inv w (run w sched init).
Proof. apply legacy_run_invariant; [apply legacy_inv_tick|apply legacy_inv_init]. Qed.

(** While the listener runs, nothing moves the function out of
    [http.ListenAndServe], and no signal ends the process. *)
Lemma serving_is_stable sched st :
  listen_fails w = false →
  at_ st = Serving → notified st = true → killed st = false →
  at_ (run w sched st) = Serving ∧ notified (run w sched st) = true ∧
  killed (run w sched st) = false.
Proof.
  intros Hf. revert st. induction sched as [|t sched IH]; intros st Hat Hn Hk; [done|].
  rewrite legacy_run_cons. apply IH; unfold tick_once, step; rewrite Hk, Hat;
    destruct t as [|s]; unfold step_main, step_signal; rewrite ?Hat, ?Hf, ?Hn; done.
Qed.

End LegacyFacts.

(** X21. The first version of [BuildAndStartServer] (unnamed/part_005)
    installs the signal handler, loads the settings and then stays in
    [http.ListenAndServe]; it reads the signal channel only after the
    listener has returned.  So, along every schedule: once [signal.Notify]
    has run, no signal ends the process; the function returns only when the
    listener has failed and a signal has been delivered; when the dotfile
    cannot be loaded, [log.Fatalf] ends the process with status 1 and the
    listener is never started; the listener is started only on the port of
    the settings, which is never empty.  As long as the listener does not
    fail, a server that has started serving keeps serving whatever signals
    arrive: it cannot be stopped by SIGINT or SIGTERM. *)
Theorem legacy_server_ignores_signals
    (w : Legacy.World) (sched : list Legacy.tick) :
  let st := Legacy.run w sched Legacy.init in
  (Legacy.notified st = true → Legacy.killed st = false) ∧
  (Legacy.at_ st = Legacy.Returned →
     Legacy.listen_fails w = true ∧ ∃ s, Legacy.Delivered s ∈ Legacy.trace st) ∧
  (∀ code, Legacy.at_ st = Legacy.Exited code →
     code = 1%Z ∧ (∃ msg, Legacy.dotfile w = EnvVars.DotError msg) ∧
     ∀ addr, Legacy.ListenAndServe addr ∉ Legacy.trace st) ∧
  (∀ addr, Legacy.ListenAndServe addr ∈ Legacy.trace st →
     addr ≠ "" ∧ ∃ vars, Legacy.dotfile w = EnvVars.DotVars vars) ∧
  (Legacy.listen_fails w = false →
   (∃ vars, Legacy.dotfile w = EnvVars.DotVars vars) →
   let serving := Legacy.run w (Legacy.TMain :: Legacy.TMain :: sched) Legacy.init in
   Legacy.at_ serving = Legacy.Serving ∧ Legacy.killed serving = false).
Proof.
  intros st. subst st.
  destruct (legacy_inv_run w sched) as (Hkill & Hnot & Hchan & Hlisten & Hat).
  set (st := Legacy.run w sched Legacy.init) in *.
  split; [|split; [|split; [|split]]].
  - intros Hn. destruct (Legacy.killed st); [|done]. rewrite Hkill in Hn; done.
  - intros Hr. by rewrite Hr in Hat.
  - intros code Hc. rewrite Hc in Hat. destruct Hat as (-> & (msg & Hmsg) & Hno).
    split; [done|]. split; [|done].
    unfold Legacy.LoadENVVariables, EnvVars.LoadENV in Hmsg.
    destruct (Legacy.dotfile w) as [m|vars]; [by exists m|discriminate].
  - intros addr Hin. destruct (Hlisten addr Hin) as (v & Hload & ->).
    unfold Legacy.LoadENVVariables, EnvVars.LoadENV in Hload.
    destruct (Legacy.dotfile w) as [m|vars]; [discriminate|].
    split; [|by exists vars]. inversion Hload; subst v. cbn.
    unfold Legacy.getEnvOrDefault. cbn zeta. by case_decide.
  - intros Hf (vars & Hd) serving. subst serving.
    change (Legacy.TMain :: Legacy.TMain :: sched)
      with ([Legacy.TMain; Legacy.TMain] ++ sched)%list.
    rewrite legacy_run_app.
    assert (H2 : Legacy.at_ (Legacy.run w [Legacy.TMain; Legacy.TMain] Legacy.init)
                   = Legacy.Serving ∧
                 Legacy.notified (Legacy.run w [Legacy.TMain; Legacy.TMain] Legacy.init)
                   = true ∧
                 Legacy.killed (Legacy.run w [Legacy.TMain; Legacy.TMain] Legacy.init)
                   = false).
    { unfold Legacy.run, Legacy.tick_once, Legacy.step, Legacy.step_main. cbn.
      unfold Legacy.LoadENVVariables, EnvVars.LoadENV. rewrite Hd. by cbn. }
    destruct H2 as (Ha & Hn & Hk).
    by destruct (serving_is_stable w sched _ Hf Ha Hn Hk) as (? & _ & ?).
Qed.

Lemma legacy_server_ignores_signals_witness :
  let sched := [Legacy.TSignal Server.SIGINT; Legacy.TMain; Legacy.TSignal Server.SIGTERM;
                Legacy.TMain] in
  Legacy.at_ (Legacy.run Legacy.steady (Legacy.TMain :: Legacy.TMain :: sched) Legacy.init)
    = Legacy.Serving ∧
  Legacy.killed (Legacy.run Legacy.steady (Legacy.TMain :: Legacy.TMain :: sched) Legacy.init)
    = false.
Proof.
  intros sched.
  destruct (legacy_server_ignores_signals Legacy.steady sched) as (_ & _ & _ & _ & H).
  apply H; [reflexivity|]. by exists ∅.
Defined.
